(** * BidiCore: the WebDriver BiDi command client of packages/webdriver

    A shallow embedding of [packages/webdriver/src/bidi/core.ts].  The class
    [BidiCore] is a record; everything outside the object that its methods
    read or write (the process environment, the clock, the sockets the
    constructor [environment.value.Socket] hands out, the logger, the attached
    client, the suspended [async] activations) is gathered in a [World].
    Methods are state transformers over [World]; a method that can throw runs
    in the state-and-exception monad [M].  JavaScript keeps the mutations made
    before a [throw], and so does [M].

    One event-loop turn is one [Event]; [step] runs the code of that turn.
    A continuation that only waits for already settled promises (micro-tasks)
    runs in the turn that settled them. *)

From Stdlib Require Import ZArith Lia Ascii String.
From stdpp Require Import gmap strings list fin_maps pretty.

Set Warnings "-register-all".

(** ** JavaScript values *)

(** What [JSON.parse] can return, plus [undefined] (the result of reading a
    property that is not there).  [#id] and every identifier on the wire is a
    JavaScript number; integral numbers are [JNum], exact in the range
    [++] is exact in, and any other number literal is kept as [JFrac]. An
    object is its list of own properties, one entry per key. *)
Inductive JSValue : Type :=
| JUndefined
| JNull
| JBool (b : bool)
| JNum (n : Z)
| JFrac (literal : string)
| JStr (s : string)
| JArr (items : list JSValue)
| JObj (fields : list (string * JSValue)).

(** [Omit<CommandData, 'id'>]: a method name and its parameters. *)
Record CommandData : Type := {
  method : string;
  params : JSValue
}.

(** The record [{ id, ...params }] handed to [JSON.stringify] and written to
    the socket. The type of [params] has no [id] key, so the spread cannot
    overwrite [id]. *)
Record Frame : Type := {
  frame_id : Z;
  frame_method : string;
  frame_params : JSValue
}.

(** The errors the code throws or rejects with. *)
Inductive JSError : Type :=
| NotConnectedError
    (* new Error('No connection to WebDriver Bidi was established') *)
| SyntaxError (text : string)
    (* thrown by JSON.parse *)
| TypeError
    (* reading a property of null *)
| InvalidURL (url : string)
    (* thrown by new URL(...) *)
| DnsRejected (code : string)
    (* rejection of dns.resolve4 / dns.resolve6 *)
| TimedOutError (command : CommandData) (id : Z)
    (* `Command ${method} with id ${id} (...) timed out` *)
| CommandFailedError (command_method : string) (error message : JSValue)
                     (driverStack : option (list string)).
    (* failError of send() *)

Inductive Outcome (A : Type) : Type :=
| Ret (a : A)
| Throw (e : JSError).
Arguments Ret {A} a.
Arguments Throw {A} e.

(** [!v]: the falsy values are undefined, null, false, 0 and the empty
    string (NaN cannot come out of JSON.parse). *)
Definition truthy (v : JSValue) : bool :=
  match v with
  | JUndefined | JNull => false
  | JBool b => b
  | JNum n => negb (n =? 0)%Z
  | JFrac _ => true
  | JStr s => match s with EmptyString => false | _ => true end
  | JArr _ | JObj _ => true
  end.

Fixpoint own_property (k : string) (fields : list (string * JSValue)) : option JSValue :=
  match fields with
  | [] => None
  | (k', v) :: rest => if String.eqb k k' then Some v else own_property k rest
  end.

(** [v.k] for the keys the source reads ([id], [result], [data], [type],
    [error], [message], [stacktrace]): a [TypeError] on null and undefined,
    the own property of an object, undefined on anything else. *)
Definition get_prop (v : JSValue) (k : string) : Outcome JSValue :=
  match v with
  | JUndefined | JNull => Throw TypeError
  | JObj fields => Ret (default JUndefined (own_property k fields))
  | _ => Ret JUndefined
  end.

(** ['k' in v] for an object or array [v] and a key that is not an index. *)
Definition has_key (k : string) (v : JSValue) : bool :=
  match v with
  | JObj fields => bool_decide (is_Some (own_property k fields))
  | _ => false
  end.

(** [{ ...o, k: v }]: an existing key keeps its place and takes the new
    value, a new key goes last. *)
Fixpoint with_property (k : string) (v : JSValue) (fields : list (string * JSValue))
  : list (string * JSValue) :=
  match fields with
  | [] => [(k, v)]
  | (k', v') :: rest =>
      if String.eqb k k' then (k', v) :: rest else (k', v') :: with_property k v rest
  end.

(** ** The functions of the platform

    [JSON.parse], [new URL(u).hostname], [isIP] of node:net,
    [String.prototype.replace], [new TextEncoder().encode(v).length] and
    [JSON.stringify] are not code of this package: the embedding takes them
    as given. [None] stands for the exception the call throws;
    [JSON.stringify] returns undefined, here [None], for a value that has no
    JSON text. *)
Record Renderer : Type := {
  TextEncoder_encode_length : JSValue -> nat;
  JSON_stringify : JSValue -> option string
}.

Record Platform : Type := {
  JSON_parse : string -> option JSValue;
  URL_hostname : string -> option string;
  isIP : string -> Z;
  String_replace : string -> string -> string -> string;
  renderer : Renderer
}.

(** ** Constants of the module *)

Definition RESPONSE_TIMEOUT : Z := 1000 * 60.

Definition is_base64_char (c : ascii) : bool :=
  let n := nat_of_ascii c in
  ((65 <=? n) && (n <=? 90)) || ((97 <=? n) && (n <=? 122))
  || ((48 <=? n) && (n <=? 57)) || (n =? 43) || (n =? 47).

Definition is_pad (c : ascii) : bool := nat_of_ascii c =? 61.

(** [base64Regex.test]:
    [/^([A-Za-z0-9+/]{4})*([A-Za-z0-9+/]{3}=|[A-Za-z0-9+/]{2}==)?$/].
    Groups of four; only the last one may be padded. *)
Fixpoint base64_groups (l : list ascii) : bool :=
  match l with
  | [] => true
  | a :: b :: c :: d :: rest =>
      if is_base64_char a && is_base64_char b && is_base64_char c && is_base64_char d
      then base64_groups rest
      else match rest with
           | [] => is_base64_char a && is_base64_char b
                   && ((is_base64_char c && is_pad d) || (is_pad c && is_pad d))
           | _ => false
           end
  | _ => false
  end.

Definition base64Regex_test (s : string) : bool :=
  base64_groups (list_ascii_of_string s).

(** ** The text logged for a command

    [parseBidiCommand], the function [sendAsync] calls to render a command
    for the log.  A text is the sequence of its code units, as everywhere in
    this embedding: [indexOf], [slice] and [startsWith] count in them.  The
    number of bytes of a text is left to [TextEncoder]. *)

Definition SCRIPT_PREFIX : string := "/* __wdio script__ */".

Definition SCRIPT_SUFFIX : string := "/* __wdio script end__ */".

(** [s.indexOf(t)]: the place of the first occurrence of [t], or -1. *)
Definition indexOf (s t : string) : Z :=
  match index 0 t s with
  | Some n => Z.of_nat n
  | None => (-1)%Z
  end.

(** [s.includes(t)] *)
Definition includes (s t : string) : bool :=
  match index 0 t s with
  | Some _ => true
  | None => false
  end.

(** [s.slice(start, end)]: a negative place counts from the end of the
    text, and both places are brought into the text. *)
Definition slice (s : string) (start end_ : Z) : string :=
  let len := Z.of_nat (String.length s) in
  let from := if (start <? 0)%Z then Z.max (len + start) 0 else Z.min start len in
  let to := if (end_ <? 0)%Z then Z.max (len + end_) 0 else Z.min end_ len in
  substring (Z.to_nat from) (Z.to_nat (Z.max (to - from) 0)) s.

Definition functionPrefix : string := "function ".

(** [internalFn] of a string [fn] that includes [SCRIPT_PREFIX]. *)
Definition internalFn (fn : string) : string :=
  slice fn (indexOf fn SCRIPT_PREFIX + Z.of_nat (String.length SCRIPT_PREFIX))
        (indexOf fn SCRIPT_SUFFIX).

(** [fnName], from [let fnName = ''] to the end of the [if]. On a string
    the methods are those of [String.prototype]. An array has [includes],
    [indexOf] and [slice] too, and no [startsWith]: the call throws when the
    array includes [SCRIPT_PREFIX]. Any other value has no [includes]. *)
Definition fnName (fn : JSValue) : Outcome string :=
  match fn with
  | JStr fn =>
      if includes fn SCRIPT_PREFIX then
        if String.prefix functionPrefix (internalFn fn) then
          Ret (slice (internalFn fn)
                 (indexOf (internalFn fn) functionPrefix
                  + Z.of_nat (String.length functionPrefix))
                 (indexOf (internalFn fn) "("))
        else Ret EmptyString
      else Ret EmptyString
  | JArr items =>
      if existsb (fun v => match v with
                           | JStr s => String.eqb s SCRIPT_PREFIX
                           | _ => false
                           end) items
      then Throw TypeError
      else Ret EmptyString
  | _ => Throw TypeError
  end.

Arguments fnName : simpl never.

(** [fnName || 'anonymous'] *)
Definition or_anonymous (name : string) : string :=
  match name with
  | EmptyString => "anonymous"
  | _ => name
  end.

(** [parseBidiCommand(params)]: the two values of the array it returns. In
    the branch of [script.callFunction], [param.functionDeclaration] throws
    on null and undefined and is undefined on any other value that is not
    an object, and [fn.includes] throws on undefined: what is not an object
    ends in a [TypeError]. *)
Definition parseBidiCommand (R : Renderer) (command : CommandData)
  : Outcome (string * option string) :=
  let commandName := method command in
  if String.eqb commandName "script.addPreloadScript" then
    let param := params command in
    match get_prop param "functionDeclaration" with
    | Throw e => Throw e
    | Ret functionDeclaration =>
        match get_prop param "contexts" with
        | Throw e => Throw e
        | Ret contexts =>
            Ret (commandName,
                 Some ("{ functionDeclaration: <PreloadScript["
                       +:+ pretty (TextEncoder_encode_length R functionDeclaration)
                       +:+ " bytes]>, contexts: "
                       +:+ default "undefined" (JSON_stringify R contexts)
                       +:+ " }"))
        end
    end
  else if String.eqb commandName "script.callFunction" then
    match params command with
    | JObj param =>
        let fn := default JUndefined (own_property "functionDeclaration" param) in
        match fnName fn with
        | Throw e => Throw e
        | Ret name =>
            Ret (commandName,
                 JSON_stringify R
                   (JObj (with_property "functionDeclaration"
                            (JStr ("<Function["
                                   +:+ pretty (TextEncoder_encode_length R fn)
                                   +:+ " bytes] " +:+ or_anonymous name +:+ ">"))
                            param)))
        end
    | _ => Throw TypeError
    end
  else Ret (commandName, JSON_stringify R (params command)).

(** ** The object and its surroundings *)

(** [ClientOptions] of the ws package: passed through, never read. *)
Definition ClientOptions : Type := JSValue.

(** What [#waitForConnected] holds: the initial [Promise.resolve(false)], or
    the promise returned by an activation of [#connectWebsocket]. *)
Inductive WaitPromise : Type :=
| ResolvedFalse
| OfRace (r : nat).

(** The fields of [class BidiCore]; a private field [#f] is written [_f].
    [#id] is a JavaScript number that only [++] changes, from 0: the model
    counts in [Z], as [++] does on the integers a number holds exactly.
    [#pendingCommands] maps an identifier to the callback [send] registered
    for it; the callback is the closure of one [send] activation and is
    represented by the handle of that activation. [client] is the identity of
    the attached client. *)
Record BidiCore : Type := {
  _id : Z;
  _ws : option nat;
  _waitForConnected : WaitPromise;
  _webSocketUrl : string;
  _clientOptions : option ClientOptions;
  _pendingCommands : gmap Z nat;
  client : option nat;
  _isConnected : bool
}.

(** A socket made by [new environment.value.Socket(candidateUrl, options)],
    with what this module does to it: the two [once] listeners and the
    [connectPromise] of [#connectWebsocket], the ['message'] listeners added
    with [on], the calls of [close], [terminate] and [send]. *)
Record Socket : Type := {
  sock_url : string;
  sock_options : option ClientOptions;
  sock_race : nat;
  once_open : bool;
  once_error : bool;
  connectPromise_settled : bool;
  message_listeners : nat;
  close_calls : nat;
  terminate_calls : nat;
  sent : list Frame
}.

(** One activation of [#connectWebsocket]: its local variables, and what its
    promise resolved to ([None] while it waits in [await Promise.race]). *)
Record Race : Type := {
  candidateWebsockets : list nat;
  errorMessages : list string;
  firstWebsocketConnected : bool;
  race_result : option bool
}.

(** One activation of [connect]. *)
Inductive ConnectCall : Type :=
| TestModeReturn
    (* returned under WDIO_UNIT_TESTS: the promise resolves with undefined *)
| AwaitingDns (hostname : string) (candidateUrls : list string)
    (* suspended in #listWebsocketCandidateUrls at await Promise.all([...]) *)
| Racing (r : nat)
    (* returned this.#waitForConnected, the promise of race r *)
| ConnectRejected (e : JSError).

(** One activation of [send] that got past [sendAsync]: the timer [t] made
    by [setTimeout] and the promise made by [new Promise]. *)
Inductive TimerState : Type := Armed | Cleared | Fired.

Inductive Settlement : Type :=
| Pending
| Resolved (payload : JSValue)
| Rejected (e : JSError).

Record SendCall : Type := {
  sc_id : Z;
  sc_command : CommandData;
  sc_deadline : Z;
  sc_timer : TimerState;
  sc_promise : Settlement
}.

(** Lines written through [log]. [BIDI COMMAND] carries the two values
    [parseBidiCommand] returned, [BIDI RESULT] the text or the record that
    is turned into text. *)
Inductive ResultLog : Type :=
| RawText (text : string)
| Stringified (v : JSValue).

Inductive LogEntry : Type :=
| LogConnecting (url : string)
| LogClose (url : string)
| LogReconnect (url : string)
| LogConnected (candidateUrl : string)
| LogBidiCommand (rendering : string * option string)
| LogBidiResult (resultLog : ResultLog)
| LogCouldntResolve (id : JSValue)
| LogFailedParse (err : JSError)
| LogWarn (errorMessage : string).

(** What the attached client is sent through [emit]. *)
Inductive BidiEvent : Type :=
| bidiCommand (command : CommandData)
| bidiResult (payload : JSValue).

(** A call of [this.#pendingCommands.delete(key)]: who called it, and what
    [delete] returned (whether the key was there). *)
Inductive DeleteSite : Type := ByResponse | ByTimeout.

Record Deletion : Type := {
  del_key : Z;
  del_site : DeleteSite;
  del_found : bool
}.

Record World : Type := {
  core : BidiCore;
  WDIO_UNIT_TESTS : option string;   (* process.env.WDIO_UNIT_TESTS *)
  now : Z;                           (* the clock, in milliseconds *)
  sockets : list Socket;             (* by order of construction *)
  races : list Race;
  connects : list ConnectCall;
  sends : list SendCall;
  log : list LogEntry;
  emitted : list (nat * BidiEvent);  (* client, event *)
  deletions : list Deletion
}.

(** Field updates. *)
Definition upd_core (f : BidiCore -> BidiCore) (w : World) : World :=
  {| core := f (core w); WDIO_UNIT_TESTS := WDIO_UNIT_TESTS w; now := now w;
     sockets := sockets w; races := races w; connects := connects w;
     sends := sends w; log := log w; emitted := emitted w;
     deletions := deletions w |}.

Definition upd_sockets (f : list Socket -> list Socket) (w : World) : World :=
  {| core := core w; WDIO_UNIT_TESTS := WDIO_UNIT_TESTS w; now := now w;
     sockets := f (sockets w); races := races w; connects := connects w;
     sends := sends w; log := log w; emitted := emitted w;
     deletions := deletions w |}.

Definition upd_races (f : list Race -> list Race) (w : World) : World :=
  {| core := core w; WDIO_UNIT_TESTS := WDIO_UNIT_TESTS w; now := now w;
     sockets := sockets w; races := f (races w); connects := connects w;
     sends := sends w; log := log w; emitted := emitted w;
     deletions := deletions w |}.

Definition upd_connects (f : list ConnectCall -> list ConnectCall) (w : World) : World :=
  {| core := core w; WDIO_UNIT_TESTS := WDIO_UNIT_TESTS w; now := now w;
     sockets := sockets w; races := races w; connects := f (connects w);
     sends := sends w; log := log w; emitted := emitted w;
     deletions := deletions w |}.

Definition upd_sends (f : list SendCall -> list SendCall) (w : World) : World :=
  {| core := core w; WDIO_UNIT_TESTS := WDIO_UNIT_TESTS w; now := now w;
     sockets := sockets w; races := races w; connects := connects w;
     sends := f (sends w); log := log w; emitted := emitted w;
     deletions := deletions w |}.

Definition write_log (e : LogEntry) (w : World) : World :=
  {| core := core w; WDIO_UNIT_TESTS := WDIO_UNIT_TESTS w; now := now w;
     sockets := sockets w; races := races w; connects := connects w;
     sends := sends w; log := log w ++ [e]; emitted := emitted w;
     deletions := deletions w |}.

Definition record_emit (c : nat) (e : BidiEvent) (w : World) : World :=
  {| core := core w; WDIO_UNIT_TESTS := WDIO_UNIT_TESTS w; now := now w;
     sockets := sockets w; races := races w; connects := connects w;
     sends := sends w; log := log w; emitted := emitted w ++ [(c, e)];
     deletions := deletions w |}.

Definition record_delete (d : Deletion) (w : World) : World :=
  {| core := core w; WDIO_UNIT_TESTS := WDIO_UNIT_TESTS w; now := now w;
     sockets := sockets w; races := races w; connects := connects w;
     sends := sends w; log := log w; emitted := emitted w;
     deletions := deletions w ++ [d] |}.

Definition set_env (v : option string) (w : World) : World :=
  {| core := core w; WDIO_UNIT_TESTS := v; now := now w;
     sockets := sockets w; races := races w; connects := connects w;
     sends := sends w; log := log w; emitted := emitted w;
     deletions := deletions w |}.

Definition set_now (t : Z) (w : World) : World :=
  {| core := core w; WDIO_UNIT_TESTS := WDIO_UNIT_TESTS w; now := t;
     sockets := sockets w; races := races w; connects := connects w;
     sends := sends w; log := log w; emitted := emitted w;
     deletions := deletions w |}.

Definition set_id (n : Z) (c : BidiCore) : BidiCore :=
  {| _id := n; _ws := _ws c; _waitForConnected := _waitForConnected c;
     _webSocketUrl := _webSocketUrl c; _clientOptions := _clientOptions c;
     _pendingCommands := _pendingCommands c; client := client c;
     _isConnected := _isConnected c |}.

Definition set_ws (s : option nat) (c : BidiCore) : BidiCore :=
  {| _id := _id c; _ws := s; _waitForConnected := _waitForConnected c;
     _webSocketUrl := _webSocketUrl c; _clientOptions := _clientOptions c;
     _pendingCommands := _pendingCommands c; client := client c;
     _isConnected := _isConnected c |}.

Definition set_waitForConnected (p : WaitPromise) (c : BidiCore) : BidiCore :=
  {| _id := _id c; _ws := _ws c; _waitForConnected := p;
     _webSocketUrl := _webSocketUrl c; _clientOptions := _clientOptions c;
     _pendingCommands := _pendingCommands c; client := client c;
     _isConnected := _isConnected c |}.

Definition set_webSocketUrl (u : string) (c : BidiCore) : BidiCore :=
  {| _id := _id c; _ws := _ws c; _waitForConnected := _waitForConnected c;
     _webSocketUrl := u; _clientOptions := _clientOptions c;
     _pendingCommands := _pendingCommands c; client := client c;
     _isConnected := _isConnected c |}.

Definition set_clientOptions (o : option ClientOptions) (c : BidiCore) : BidiCore :=
  {| _id := _id c; _ws := _ws c; _waitForConnected := _waitForConnected c;
     _webSocketUrl := _webSocketUrl c; _clientOptions := o;
     _pendingCommands := _pendingCommands c; client := client c;
     _isConnected := _isConnected c |}.

Definition set_pendingCommands (m : gmap Z nat) (c : BidiCore) : BidiCore :=
  {| _id := _id c; _ws := _ws c; _waitForConnected := _waitForConnected c;
     _webSocketUrl := _webSocketUrl c; _clientOptions := _clientOptions c;
     _pendingCommands := m; client := client c;
     _isConnected := _isConnected c |}.

Definition set_client (k : option nat) (c : BidiCore) : BidiCore :=
  {| _id := _id c; _ws := _ws c; _waitForConnected := _waitForConnected c;
     _webSocketUrl := _webSocketUrl c; _clientOptions := _clientOptions c;
     _pendingCommands := _pendingCommands c; client := k;
     _isConnected := _isConnected c |}.

Definition set_isConnected (b : bool) (c : BidiCore) : BidiCore :=
  {| _id := _id c; _ws := _ws c; _waitForConnected := _waitForConnected c;
     _webSocketUrl := _webSocketUrl c; _clientOptions := _clientOptions c;
     _pendingCommands := _pendingCommands c; client := client c;
     _isConnected := b |}.

(** [new BidiCore(webSocketUrl, opts)] in a fresh process. *)
Definition constructor (webSocketUrl : string) (opts : option ClientOptions) : BidiCore :=
  {| _id := 0; _ws := None; _waitForConnected := ResolvedFalse;
     _webSocketUrl := webSocketUrl; _clientOptions := opts;
     _pendingCommands := ∅; client := None; _isConnected := false |}.

Definition initial (webSocketUrl : string) (opts : option ClientOptions)
    (env : option string) : World :=
  {| core := constructor webSocketUrl opts; WDIO_UNIT_TESTS := env; now := 0;
     sockets := []; races := []; connects := []; sends := []; log := [];
     emitted := []; deletions := [] |}.

(** ** The monad of methods that can throw *)

Definition M (A : Type) : Type := World -> Outcome A * World.

Definition ret {A} (a : A) : M A := fun w => (Ret a, w).

Definition throw {A} (e : JSError) : M A := fun w => (Throw e, w).

Definition bind {A B} (m : M A) (k : A -> M B) : M B := fun w =>
  match m w with
  | (Ret a, w') => k a w'
  | (Throw e, w') => (Throw e, w')
  end.

(** [try { body } catch (err) { handler }] *)
Definition try_catch {A} (body : M A) (handler : JSError -> M A) : M A := fun w =>
  match body w with
  | (Ret a, w') => (Ret a, w')
  | (Throw e, w') => handler e w'
  end.

Definition lift {A} (o : Outcome A) : M A := fun w => (o, w).

Definition gets {A} (f : World -> A) : M A := fun w => (Ret (f w), w).

Definition modify (f : World -> World) : M unit := fun w => (Ret tt, f w).

Declare Scope js_scope.
Delimit Scope js_scope with js.
Notation "'let*' x ':=' m 'in' k" := (bind m (fun x => k))
  (at level 10, x name, m at level 100, k at level 200) : js_scope.
Notation "m ';;' k" := (bind m (fun _ => k))
  (at level 100, k at level 200, right associativity) : js_scope.

(** A promise as its holder sees it. *)
Inductive Promise (A : Type) : Type :=
| Unsettled
| FulfilledWith (a : A)
| RejectedWith (e : JSError).
Arguments Unsettled {A}.
Arguments FulfilledWith {A} a.
Arguments RejectedWith {A} e.

(** ** Updates of sockets, races and send activations *)

Definition sock_fire_open (s : Socket) : Socket :=
  {| sock_url := sock_url s; sock_options := sock_options s; sock_race := sock_race s;
     once_open := false; once_error := once_error s;
     connectPromise_settled := connectPromise_settled s;
     message_listeners := message_listeners s; close_calls := close_calls s;
     terminate_calls := terminate_calls s; sent := sent s |}.

Definition sock_fire_error (s : Socket) : Socket :=
  {| sock_url := sock_url s; sock_options := sock_options s; sock_race := sock_race s;
     once_open := once_open s; once_error := false;
     connectPromise_settled := connectPromise_settled s;
     message_listeners := message_listeners s; close_calls := close_calls s;
     terminate_calls := terminate_calls s; sent := sent s |}.

Definition sock_settle (s : Socket) : Socket :=
  {| sock_url := sock_url s; sock_options := sock_options s; sock_race := sock_race s;
     once_open := once_open s; once_error := once_error s;
     connectPromise_settled := true;
     message_listeners := message_listeners s; close_calls := close_calls s;
     terminate_calls := terminate_calls s; sent := sent s |}.

Definition sock_on_message (s : Socket) : Socket :=
  {| sock_url := sock_url s; sock_options := sock_options s; sock_race := sock_race s;
     once_open := once_open s; once_error := once_error s;
     connectPromise_settled := connectPromise_settled s;
     message_listeners := S (message_listeners s); close_calls := close_calls s;
     terminate_calls := terminate_calls s; sent := sent s |}.

Definition sock_close (s : Socket) : Socket :=
  {| sock_url := sock_url s; sock_options := sock_options s; sock_race := sock_race s;
     once_open := once_open s; once_error := once_error s;
     connectPromise_settled := connectPromise_settled s;
     message_listeners := message_listeners s; close_calls := S (close_calls s);
     terminate_calls := terminate_calls s; sent := sent s |}.

Definition sock_terminate (s : Socket) : Socket :=
  {| sock_url := sock_url s; sock_options := sock_options s; sock_race := sock_race s;
     once_open := once_open s; once_error := once_error s;
     connectPromise_settled := connectPromise_settled s;
     message_listeners := message_listeners s; close_calls := close_calls s;
     terminate_calls := S (terminate_calls s); sent := sent s |}.

Definition sock_send (f : Frame) (s : Socket) : Socket :=
  {| sock_url := sock_url s; sock_options := sock_options s; sock_race := sock_race s;
     once_open := once_open s; once_error := once_error s;
     connectPromise_settled := connectPromise_settled s;
     message_listeners := message_listeners s; close_calls := close_calls s;
     terminate_calls := terminate_calls s; sent := sent s ++ [f] |}.

Definition new_socket (url : string) (opts : option ClientOptions) (r : nat) : Socket :=
  {| sock_url := url; sock_options := opts; sock_race := r;
     once_open := true; once_error := true; connectPromise_settled := false;
     message_listeners := 0; close_calls := 0; terminate_calls := 0; sent := [] |}.

Definition race_push_error (m : string) (r : Race) : Race :=
  {| candidateWebsockets := candidateWebsockets r;
     errorMessages := errorMessages r ++ [m];
     firstWebsocketConnected := firstWebsocketConnected r;
     race_result := race_result r |}.

Definition race_first_connected (r : Race) : Race :=
  {| candidateWebsockets := candidateWebsockets r;
     errorMessages := errorMessages r;
     firstWebsocketConnected := true;
     race_result := race_result r |}.

Definition race_return (b : bool) (r : Race) : Race :=
  {| candidateWebsockets := candidateWebsockets r;
     errorMessages := errorMessages r;
     firstWebsocketConnected := firstWebsocketConnected r;
     race_result := Some b |}.

Definition sc_set_timer (t : TimerState) (c : SendCall) : SendCall :=
  {| sc_id := sc_id c; sc_command := sc_command c; sc_deadline := sc_deadline c;
     sc_timer := t; sc_promise := sc_promise c |}.

(** [resolve(v)] or [reject(e)] on the promise of a [send] activation: only
    the first call settles it. *)
Definition sc_settle (p : Settlement) (c : SendCall) : SendCall :=
  {| sc_id := sc_id c; sc_command := sc_command c; sc_deadline := sc_deadline c;
     sc_timer := sc_timer c;
     sc_promise := match sc_promise c with Pending => p | settled => settled end |}.

(** [clearTimeout(t)]: a timer that has run is not changed. *)
Definition sc_clearTimeout (c : SendCall) : SendCall :=
  match sc_timer c with
  | Armed => sc_set_timer Cleared c
  | _ => c
  end.

(** ** The methods of BidiCore *)

Inductive DnsAnswer : Type :=
| Addresses (ips : list string)
| DnsFailure (code : string).

(** [Promise.all] on the two lookups: the array of both answers, or the
    rejection of the one that failed (of [resolve4] when both do). *)
Definition Promise_all (a4 a6 : DnsAnswer) : Outcome (list (list string)) :=
  match a4, a6 with
  | Addresses l4, Addresses l6 => Ret [l4; l6]
  | DnsFailure code, _ => Throw (DnsRejected code)
  | _, DnsFailure code => Throw (DnsRejected code)
  end.

(** Where [#listWebsocketCandidateUrls] stands when it first gives up
    control: returned, or waiting for the lookups. *)
Inductive Resolution : Type :=
| CandidatesReady (candidateUrls : list string)
| DnsLookup (hostname : string) (candidateUrls : list string).

(** A truthy [process.env] entry: set, and not the empty string. *)
Definition env_truthy (v : option string) : bool :=
  match v with
  | Some (String _ _) => true
  | _ => false
  end.

(** [payload.type === 'error' || 'error' in payload] *)
Definition is_error_payload (payload : JSValue) : bool :=
  match get_prop payload "type" with
  | Ret (JStr t) => String.eqb t "error" || has_key "error" payload
  | _ => has_key "error" payload
  end.

Fixpoint split_on (sep : ascii) (s : string) : list string :=
  match s with
  | EmptyString => [EmptyString]
  | String c rest =>
      if Ascii.eqb c sep then EmptyString :: split_on sep rest
      else match split_on sep rest with
           | x :: xs => String c x :: xs
           | [] => [String c EmptyString]
           end
  end.

(** [stacktrace.split('\n').filter(Boolean).map(line => `    at ${line}`)] *)
Definition driverStack_of (stacktrace : string) : list string :=
  map (fun line => "    at " +:+ line)
      (List.filter (fun line => match line with EmptyString => false | _ => true end)
                   (split_on "010"%char stacktrace)).

(** [payload.k] on a payload that is not null (it has had an [id]). *)
Definition read (payload : JSValue) (k : string) : JSValue :=
  match get_prop payload k with
  | Ret v => v
  | Throw _ => JUndefined
  end.

(** What [send] does with the value its promise resolved to. *)
Definition send_completion (command : CommandData) (payload : JSValue) : Outcome JSValue :=
  if is_error_payload payload then
    Throw (CommandFailedError (method command)
             (read payload "error") (read payload "message")
             (match read payload "stacktrace" with
              | JStr (String c rest) => Some (driverStack_of (String c rest))
              | _ => None
              end))
  else Ret payload.

(** [this.#pendingCommands.get(key)]: keys are numbers, and a value that is
    not a number equals none of them. *)
Definition Map_get (m : gmap Z nat) (key : JSValue) : option nat :=
  match key with
  | JNum n => m !! n
  | _ => None
  end.

Section Methods.

Context (P : Platform).

(** [this.#pendingCommands.delete(key)], called from [site]. *)
Definition Map_delete (key : Z) (site : DeleteSite) (w : World) : World :=
  let found := bool_decide (is_Some (_pendingCommands (core w) !! key)) in
  let w1 := record_delete {| del_key := key; del_site := site; del_found := found |} w in
  upd_core (fun c => set_pendingCommands (delete key (_pendingCommands c)) c) w1.

Definition attachClient (c : nat) (w : World) : World :=
  upd_core (set_client (Some c)) w.

(** [this.client?.emit(name, payload)]: listeners belong to the client, the
    call is taken to return. *)
Definition emit (e : BidiEvent) (w : World) : World :=
  match client (core w) with
  | Some c => record_emit c e w
  | None => w
  end.

(** [Promise.all(wsConnectPromises)] of a race is resolved. *)
Definition all_settled (race : Race) (w : World) : bool :=
  forallb (fun sid => match sockets w !! sid with
                      | Some s => connectPromise_settled s
                      | None => true
                      end)
          (candidateWebsockets race).

(** [#connectWebsocket], after [await Promise.race([...])]. *)
Definition connectWebsocket_resume (r : nat) (w : World) : World :=
  match races w !! r with
  | Some race =>
      match _ws (core w) with
      | Some active =>
          (* candidateWebsockets.filter((ws) => ws !== this.#ws).forEach((ws) => ws.close()) *)
          let w1 := foldl (fun w' sid => upd_sockets (alter sock_close sid) w') w
                          (filter (fun sid => sid ≠ active) (candidateWebsockets race)) in
          let w2 := upd_core (set_isConnected true) w1 in
          upd_races (alter (race_return (_isConnected (core w2))) r) w2
      | None =>
          let w1 := foldl (fun w' m => write_log (LogWarn m) w') w (errorMessages race) in
          let w2 := upd_core (set_isConnected false) w1 in
          upd_races (alter (race_return (_isConnected (core w2))) r) w2
      end
  | None => w
  end.

(** The race of activation [r] is decided once its first socket connected
    or all its [connectPromise]s are resolved; the activation then resumes,
    once. *)
Definition settle_race (r : nat) (w : World) : World :=
  match races w !! r with
  | Some race =>
      match race_result race with
      | None =>
          if firstWebsocketConnected race || all_settled race w
          then connectWebsocket_resume r w
          else w
      | Some _ => w
      end
  | None => w
  end.

(** [#connectWebsocket(candidateUrls)] up to its [await]: one socket per
    candidate, each with its two [once] listeners. The constructor of the
    socket is taken to return. *)
Definition connectWebsocket (candidateUrls : list string) (w : World) : nat * World :=
  let r := length (races w) in
  let first := length (sockets w) in
  let made := map (fun url => new_socket url (_clientOptions (core w)) r) candidateUrls in
  let race := {| candidateWebsockets := seq first (length candidateUrls);
                 errorMessages := [];
                 firstWebsocketConnected := false;
                 race_result := None |} in
  let w1 := upd_sockets (fun l => l ++ made) w in
  let w2 := upd_races (fun l => l ++ [race]) w1 in
  (r, settle_race r w2).

(** The listener of [ws.once('open', ...)] on socket [sid]. *)
Definition on_open (sid : nat) (w : World) : World :=
  match sockets w !! sid with
  | Some s =>
      if once_open s then
        let w0 := upd_sockets (alter sock_fire_open sid) w in
        let w1 := match _ws (core w0) with
                  | None =>
                      let a := write_log (LogConnected (sock_url s)) w0 in
                      let b := upd_core (set_ws (Some sid)) a in
                      let c := upd_sockets (alter sock_on_message sid) b in
                      upd_races (alter race_first_connected (sock_race s)) c
                  | Some _ => w0
                  end in
        let w2 := upd_sockets (alter sock_settle sid) w1 in
        settle_race (sock_race s) w2
      else w
  | None => w
  end.

(** [`Couldn't connect to Bidi protocol at ${candidateUrl}: ${err.message}`] *)
Definition errorMessage_of (candidateUrl err_message : string) : string :=
  "Couldn't connect to Bidi protocol at " +:+ candidateUrl +:+ ": " +:+ err_message.

(** The listener of [ws.once('error', ...)] on socket [sid]. *)
Definition on_error (sid : nat) (err_message : string) (w : World) : World :=
  match sockets w !! sid with
  | Some s =>
      if once_error s then
        let w0 := upd_sockets (alter sock_fire_error sid) w in
        let w1 := upd_races (alter (race_push_error (errorMessage_of (sock_url s) err_message))
                                   (sock_race s)) w0 in
        let w2 := upd_sockets (alter sock_settle sid) w1 in
        settle_race (sock_race s) w2
      else w
  | None => w
  end.

(** [#listWebsocketCandidateUrls] up to its [await]. *)
Definition listWebsocketCandidateUrls (w : World) : Outcome Resolution :=
  let url := _webSocketUrl (core w) in
  match URL_hostname P url with
  | None => Throw (InvalidURL url)
  | Some hostname =>
      let candidateUrls := [url] in
      if (isIP P hostname =? 0)%Z
      then Ret (DnsLookup hostname candidateUrls)
      else Ret (CandidatesReady candidateUrls)
  end.

(** [#listWebsocketCandidateUrls] from the [await] on, given how the two
    lookups ended. *)
Definition listWebsocketCandidateUrls_resume (hostname : string)
    (candidateUrls : list string) (a4 a6 : DnsAnswer) (w : World) : Outcome (list string) :=
  match Promise_all a4 a6 with
  | Throw e => Throw e
  | Ret answers =>
      let candidateIps := concat answers in
      if 1 <? length candidateIps then
        let hostnameMapper ip := String_replace P (_webSocketUrl (core w)) hostname ip in
        Ret (candidateUrls ++ map hostnameMapper candidateIps)
      else Ret candidateUrls
  end.

(** [connect] from [this.#waitForConnected = this.#connectWebsocket(...)] on. *)
Definition connect_resume (candidateUrls : list string) (w : World) : ConnectCall * World :=
  let '(r, w1) := connectWebsocket candidateUrls w in
  let w2 := upd_core (set_waitForConnected (OfRace r)) w1 in
  (Racing r, w2).

Definition connect_body (w : World) : ConnectCall * World :=
  if env_truthy (WDIO_UNIT_TESTS w) then
    (TestModeReturn, upd_core (set_isConnected true) w)
  else
    let w1 := write_log (LogConnecting (_webSocketUrl (core w))) w in
    match listWebsocketCandidateUrls w1 with
    | Throw e => (ConnectRejected e, w1)
    | Ret (DnsLookup hostname candidateUrls) => (AwaitingDns hostname candidateUrls, w1)
    | Ret (CandidatesReady candidateUrls) => connect_resume candidateUrls w1
    end.

(** [connect()]: the handle of the new activation, whose promise the caller
    holds. *)
Definition connect (w : World) : nat * World :=
  let '(call, w1) := connect_body w in
  (length (connects w), upd_connects (fun l => l ++ [call]) w1).

(** The lookups of activation [h] of [connect] ended. *)
Definition dns_settled (h : nat) (a4 a6 : DnsAnswer) (w : World) : World :=
  match connects w !! h with
  | Some (AwaitingDns hostname candidateUrls) =>
      match listWebsocketCandidateUrls_resume hostname candidateUrls a4 a6 w with
      | Throw e => upd_connects (fun l => <[h := ConnectRejected e]> l) w
      | Ret urls =>
          let '(call, w1) := connect_resume urls w in
          upd_connects (fun l => <[h := call]> l) w1
      end
  | _ => w
  end.

(** [close()]. [this.#ws.off('message', this.#handleResponse.bind(this))]
    names a function made by this very [bind], which no socket has as a
    listener: it removes nothing. *)
Definition close (w : World) : World :=
  if negb (_isConnected (core w)) then w
  else
    let w1 := write_log (LogClose (_webSocketUrl (core w))) w in
    let w2 := upd_core (set_isConnected false) w1 in
    match _ws (core w2) with
    | Some sid =>
        let w3 := upd_sockets (alter sock_close sid) w2 in
        let w4 := upd_sockets (alter sock_terminate sid) w3 in
        upd_core (set_ws None) w4
    | None => w2
    end.

Definition reconnect (webSocketUrl : string) (opts : option ClientOptions) (w : World)
  : nat * World :=
  let w1 := write_log (LogReconnect webSocketUrl) w in
  let w2 := close w1 in
  let w3 := upd_core (set_webSocketUrl webSocketUrl) w2 in
  let w4 := upd_core (set_clientOptions opts) w3 in
  connect w4.

(** [waitForConnected()]: the promise in [#waitForConnected]. *)
Definition waitForConnected (w : World) : Promise bool :=
  match _waitForConnected (core w) with
  | ResolvedFalse => FulfilledWith false
  | OfRace r =>
      match races w !! r with
      | Some race =>
          match race_result race with
          | Some b => FulfilledWith b
          | None => Unsettled
          end
      | None => Unsettled
      end
  end.

(** The promise an activation of [connect] returned; it resolves with a
    boolean, or with undefined ([None]) in test mode. *)
Definition connect_promise (h : nat) (w : World) : Promise (option bool) :=
  match connects w !! h with
  | Some TestModeReturn => FulfilledWith None
  | Some (AwaitingDns _ _) => Unsettled
  | Some (Racing r) =>
      match races w !! r with
      | Some race =>
          match race_result race with
          | Some b => FulfilledWith (Some b)
          | None => Unsettled
          end
      | None => Unsettled
      end
  | Some (ConnectRejected e) => RejectedWith e
  | None => Unsettled
  end.

Definition socket (w : World) : option nat := _ws (core w).

Definition isConnected (w : World) : bool := _isConnected (core w).

Local Open Scope js_scope.

(** [sendAsync(params)]. The arguments of [log.info] are evaluated first:
    when [parseBidiCommand] throws, nothing was logged, counted or sent. *)
Definition sendAsync (command : CommandData) : M Z :=
  let* ws := gets (fun w => _ws (core w)) in
  let* connected := gets (fun w => _isConnected (core w)) in
  match ws with
  | Some sid =>
      if connected then
        let* rendering := lift (parseBidiCommand (renderer P) command) in
        modify (write_log (LogBidiCommand rendering)) ;;
        let* id := gets (fun w => (_id (core w) + 1)%Z) in
        modify (upd_core (set_id id)) ;;
        modify (emit (bidiCommand command)) ;;
        modify (upd_sockets (alter (sock_send {| frame_id := id;
                                                 frame_method := method command;
                                                 frame_params := params command |}) sid)) ;;
        ret id
      else throw NotConnectedError
  | None => throw NotConnectedError
  end.

(** [send(params)] up to its [await]: the handle of the activation. A
    [Throw] is the rejection of the promise [send] returns. *)
Definition send (command : CommandData) : M nat :=
  let* id := sendAsync command in
  let* h := gets (fun w => length (sends w)) in
  let* t := gets (fun w => (now w + RESPONSE_TIMEOUT)%Z) in
  modify (upd_sends (fun l => l ++ [{| sc_id := id; sc_command := command;
                                       sc_deadline := t; sc_timer := Armed;
                                       sc_promise := Pending |}])) ;;
  modify (upd_core (fun c => set_pendingCommands (<[id := h]> (_pendingCommands c)) c)) ;;
  ret h.

(** The promise [send] returned for activation [h]. *)
Definition send_promise (h : nat) (w : World) : Promise JSValue :=
  match sends w !! h with
  | Some sc =>
      match sc_promise sc with
      | Pending => Unsettled
      | Rejected e => RejectedWith e
      | Resolved payload =>
          match send_completion (sc_command sc) payload with
          | Ret v => FulfilledWith v
          | Throw e => RejectedWith e
          end
      end
  | None => Unsettled
  end.

(** The callback of [setTimeout] in activation [h] of [send]; it can run
    once, when the timer was not cleared and [RESPONSE_TIMEOUT] has passed. *)
Definition timer_fire (h : nat) (w : World) : World :=
  match sends w !! h with
  | Some sc =>
      match sc_timer sc with
      | Armed =>
          if (sc_deadline sc <=? now w)%Z then
            let w1 := upd_sends (alter (sc_set_timer Fired) h) w in
            let w2 := upd_sends
                        (alter (sc_settle (Rejected (TimedOutError (sc_command sc) (sc_id sc)))) h)
                        w1 in
            Map_delete (sc_id sc) ByTimeout w2
          else w
      | _ => w
      end
  | None => w
  end.

(** The callback [send] stored in [#pendingCommands], for activation [h]:
    [clearTimeout(t); resolve(payload)]. *)
Definition waiter (h : nat) (payload : JSValue) (w : World) : World :=
  let w1 := upd_sends (alter sc_clearTimeout h) w in
  upd_sends (alter (sc_settle (Resolved payload)) h) w1.

(** The text logged for a result: a base64 [data] field is replaced by its
    length. *)
Definition resultLog_of (data : string) (payload : JSValue) : ResultLog :=
  match get_prop payload "result" with
  | Ret (JObj fields) =>
      match own_property "data" fields with
      | Some (JStr d) =>
          if base64Regex_test d then
            Stringified
              (JObj (with_property "data"
                       (JStr ("Base64 string [" +:+ pretty (String.length d) +:+ " chars]"))
                       fields))
          else RawText data
      | _ => RawText data
      end
  | _ => RawText data
  end.

(** [#handleResponse(data)] *)
Definition handleResponse (data : string) : M unit :=
  try_catch
    (let* payload := lift (match JSON_parse P data with
                           | Some v => Ret v
                           | None => Throw (SyntaxError data)
                           end) in
     let* id := lift (get_prop payload "id") in
     if negb (truthy id) then ret tt
     else
       modify (write_log (LogBidiResult (resultLog_of data payload))) ;;
       modify (emit (bidiResult payload)) ;;
       let* resolve := gets (fun w => Map_get (_pendingCommands (core w)) id) in
       match resolve, id with
       | Some h, JNum n =>
           modify (Map_delete n ByResponse) ;;
           modify (waiter h payload)
       | _, _ => modify (write_log (LogCouldntResolve id))
       end)
    (fun err => modify (write_log (LogFailedParse err))).

(** ** Turns of the event loop *)

Inductive Event : Type :=
| EvAttachClient (c : nat)
| EvSetEnv (v : option string)
| EvConnect
| EvDns (h : nat) (a4 a6 : DnsAnswer)
| EvOpen (sid : nat)
| EvError (sid : nat) (err_message : string)
| EvMessage (sid : nat) (data : string)
| EvClose
| EvReconnect (webSocketUrl : string) (opts : option ClientOptions)
| EvSendAsync (command : CommandData)
| EvSend (command : CommandData)
| EvTimer (h : nat)
| EvElapse (ms : Z).

(** What the caller of the turn gets back. *)
Inductive Output : Type :=
| Nothing
| PromiseOfConnect (h : nat)
| PromiseOfSend (h : nat)
| Identifier (id : Z)
| Raised (e : JSError).

(** A ['message'] event on a socket calls each of its listeners; every
    listener this module adds is [#handleResponse]. *)
Definition on_message (sid : nat) (data : string) (w : World) : World :=
  match sockets w !! sid with
  | Some s => Nat.iter (message_listeners s) (fun w' => snd (handleResponse data w')) w
  | None => w
  end.

Definition step (ev : Event) (w : World) : Output * World :=
  match ev with
  | EvAttachClient c => (Nothing, attachClient c w)
  | EvSetEnv v => (Nothing, set_env v w)
  | EvConnect => let '(h, w1) := connect w in (PromiseOfConnect h, w1)
  | EvDns h a4 a6 => (Nothing, dns_settled h a4 a6 w)
  | EvOpen sid => (Nothing, on_open sid w)
  | EvError sid m => (Nothing, on_error sid m w)
  | EvMessage sid data => (Nothing, on_message sid data w)
  | EvClose => (Nothing, close w)
  | EvReconnect url opts => let '(h, w1) := reconnect url opts w in (PromiseOfConnect h, w1)
  | EvSendAsync command =>
      match sendAsync command w with
      | (Ret id, w1) => (Identifier id, w1)
      | (Throw e, w1) => (Raised e, w1)
      end
  | EvSend command =>
      match send command w with
      | (Ret h, w1) => (PromiseOfSend h, w1)
      | (Throw e, w1) => (Raised e, w1)
      end
  | EvTimer h => (Nothing, timer_fire h w)
  | EvElapse ms => (Nothing, set_now (now w + Z.max 0 ms)%Z w)
  end.

(** The identifier a turn handed out, if it did: the one [sendAsync]
    returned, or the one the activation of [send] holds. *)
Definition identifier_of (o : Output) (w : World) : list Z :=
  match o with
  | Identifier id => [id]
  | PromiseOfSend h => match sends w !! h with
                       | Some sc => [sc_id sc]
                       | None => []
                       end
  | _ => []
  end.

(** A run: the outputs of the turns, in order, and the world they leave. *)
Fixpoint run (evs : list Event) (w : World) : list Output * World :=
  match evs with
  | [] => ([], w)
  | ev :: rest =>
      let '(o, w1) := step ev w in
      let '(os, w2) := run rest w1 in
      (o :: os, w2)
  end.

(** The identifiers handed out during a run, in order. *)
Fixpoint identifiers (evs : list Event) (w : World) : list Z :=
  match evs with
  | [] => []
  | ev :: rest =>
      let '(o, w1) := step ev w in
      identifier_of o w1 ++ identifiers rest w1
  end.

End Methods.

(** ** A renderer to run examples on *)

Module SampleText.

Definition quoted (s : string) : string :=
  String "034"%char EmptyString +:+ s +:+ String "034"%char EmptyString.

(** A [JSON.stringify] for values whose strings need no escape, and the
    number of bytes of a text of ASCII characters. *)
Fixpoint stringify (v : JSValue) : option string :=
  match v with
  | JUndefined => None
  | JNull => Some "null"
  | JBool b => Some (if b then "true" else "false")
  | JNum n => Some (pretty n)
  | JFrac literal => Some literal
  | JStr s => Some (quoted s)
  | JArr items =>
      Some ("[" +:+ String.concat "," (map (fun i => default "null" (stringify i)) items)
            +:+ "]")
  | JObj fields =>
      Some ("{" +:+ String.concat ","
                      (flat_map (fun kv => match kv with
                                           | (k, x) =>
                                               match stringify x with
                                               | Some t => [quoted k +:+ ":" +:+ t]
                                               | None => []
                                               end
                                           end) fields)
            +:+ "}")
  end.

Definition renderer : Renderer :=
  {| TextEncoder_encode_length := fun v => match v with
                                           | JStr s => String.length s
                                           | _ => 0
                                           end;
     JSON_stringify := stringify |}.

End SampleText.

(** ** A platform to run examples on

    Readings of the four platform functions that agree with Node on the
    texts the examples below use: JSON without escapes, fractions or
    exponents; URLs of the form [scheme://host:port/path]; dotted-quad
    IPv4 addresses; [replace] with a replacement that has no [$]. *)
Module Sample.

Definition quote : ascii := "034"%char.

Definition is_space (c : ascii) : bool :=
  let n := nat_of_ascii c in (n =? 32) || (n =? 9) || (n =? 10) || (n =? 13).

Definition is_digit (c : ascii) : bool :=
  let n := nat_of_ascii c in (48 <=? n) && (n <=? 57).

Fixpoint skip_space (l : list ascii) : list ascii :=
  match l with
  | c :: rest => if is_space c then skip_space rest else l
  | [] => []
  end.

Fixpoint strip_prefix (p l : list ascii) : option (list ascii) :=
  match p, l with
  | [], _ => Some l
  | a :: p', b :: l' => if Ascii.eqb a b then strip_prefix p' l' else None
  | _ :: _, [] => None
  end.

(** The characters of a string literal up to its closing quote. *)
Fixpoint string_body (l : list ascii) : option (string * list ascii) :=
  match l with
  | [] => None
  | c :: rest =>
      if Ascii.eqb c quote then Some (EmptyString, rest)
      else if Ascii.eqb c "092"%char || (nat_of_ascii c <? 32) then None
      else match string_body rest with
           | Some (s, rest') => Some (String c s, rest')
           | None => None
           end
  end.

Fixpoint digits (acc : Z) (l : list ascii) : Z * list ascii :=
  match l with
  | c :: rest =>
      if is_digit c then digits (10 * acc + Z.of_nat (nat_of_ascii c - 48))%Z rest
      else (acc, l)
  | [] => (acc, [])
  end.

(** An integer literal: an optional minus, then [0] or a digit string that
    does not start with [0]; no fraction and no exponent may follow. *)
Definition integer (l : list ascii) : option (JSValue * list ascii) :=
  let '(negative, l1) := match l with
                         | c :: rest => if Ascii.eqb c "-"%char then (true, rest) else (false, l)
                         | [] => (false, l)
                         end in
  match l1 with
  | d :: rest =>
      if is_digit d then
        let '(n, l2) := if Ascii.eqb d "0"%char then (0%Z, rest) else digits 0 l1 in
        match l2 with
        | c :: _ =>
            if is_digit c || Ascii.eqb c "."%char || Ascii.eqb c "e"%char || Ascii.eqb c "E"%char
            then None
            else Some (JNum (if negative then - n else n)%Z, l2)
        | [] => Some (JNum (if negative then - n else n)%Z, l2)
        end
      else None
  | [] => None
  end.

Fixpoint value (fuel : nat) (l : list ascii) : option (JSValue * list ascii) :=
  match fuel with
  | O => None
  | S fuel' =>
      match skip_space l with
      | [] => None
      | c :: rest =>
          if Ascii.eqb c quote then
            match string_body rest with
            | Some (s, l1) => Some (JStr s, l1)
            | None => None
            end
          else if Ascii.eqb c "["%char then
            match skip_space rest with
            | c1 :: rest1 =>
                if Ascii.eqb c1 "]"%char then Some (JArr [], rest1)
                else match elements fuel' rest with
                     | Some (items, l1) => Some (JArr items, l1)
                     | None => None
                     end
            | [] => None
            end
          else if Ascii.eqb c "{"%char then
            match skip_space rest with
            | c1 :: rest1 =>
                if Ascii.eqb c1 "}"%char then Some (JObj [], rest1)
                else match members fuel' [] rest with
                     | Some (fields, l1) => Some (JObj fields, l1)
                     | None => None
                     end
            | [] => None
            end
          else match strip_prefix (list_ascii_of_string "null") (c :: rest) with
               | Some l1 => Some (JNull, l1)
               | None =>
               match strip_prefix (list_ascii_of_string "true") (c :: rest) with
               | Some l1 => Some (JBool true, l1)
               | None =>
               match strip_prefix (list_ascii_of_string "false") (c :: rest) with
               | Some l1 => Some (JBool false, l1)
               | None => integer (c :: rest)
               end end end
      end
  end
with elements (fuel : nat) (l : list ascii) : option (list JSValue * list ascii) :=
  match fuel with
  | O => None
  | S fuel' =>
      match value fuel' l with
      | Some (v, l1) =>
          match skip_space l1 with
          | c :: rest =>
              if Ascii.eqb c "]"%char then Some ([v], rest)
              else if Ascii.eqb c ","%char then
                match elements fuel' rest with
                | Some (vs, l2) => Some (v :: vs, l2)
                | None => None
                end
              else None
          | [] => None
          end
      | None => None
      end
  end
with members (fuel : nat) (acc : list (string * JSValue)) (l : list ascii)
  : option (list (string * JSValue) * list ascii) :=
  match fuel with
  | O => None
  | S fuel' =>
      match skip_space l with
      | c :: rest =>
          if Ascii.eqb c quote then
            match string_body rest with
            | Some (k, l1) =>
                match skip_space l1 with
                | c1 :: rest1 =>
                    if Ascii.eqb c1 ":"%char then
                      match value fuel' rest1 with
                      | Some (v, l2) =>
                          let acc' := with_property k v acc in
                          match skip_space l2 with
                          | c2 :: rest2 =>
                              if Ascii.eqb c2 "}"%char then Some (acc', rest2)
                              else if Ascii.eqb c2 ","%char then members fuel' acc' rest2
                              else None
                          | [] => None
                          end
                      | None => None
                      end
                    else None
                | [] => None
                end
            | None => None
            end
          else None
      | [] => None
      end
  end.

Definition parse (text : string) : option JSValue :=
  let l := list_ascii_of_string text in
  match value (S (length l)) l with
  | Some (v, rest) => match skip_space rest with [] => Some v | _ => None end
  | None => None
  end.

(** The host of [scheme://host...]: up to the first of [:], [/], [?], [#]. *)
Fixpoint host_chars (l : list ascii) : list ascii :=
  match l with
  | c :: rest =>
      if Ascii.eqb c ":"%char || Ascii.eqb c "/"%char || Ascii.eqb c "?"%char
         || Ascii.eqb c "#"%char
      then [] else c :: host_chars rest
  | [] => []
  end.

Fixpoint after_scheme (l : list ascii) : option (list ascii) :=
  match l with
  | c :: rest =>
      match strip_prefix (list_ascii_of_string "://") l with
      | Some l1 => Some l1
      | None => if Ascii.eqb c "/"%char then None else after_scheme rest
      end
  | [] => None
  end.

Definition hostname (url : string) : option string :=
  match after_scheme (list_ascii_of_string url) with
  | Some l => match host_chars l with
              | [] => None
              | h => Some (string_of_list_ascii h)
              end
  | None => None
  end.

(** One part of a dotted quad: 0 to 255, no leading zero. *)
Definition octet (l : list ascii) : bool :=
  forallb is_digit l
  && match l with
     | [] => false
     | [_] => true
     | c :: _ => negb (Ascii.eqb c "0"%char) && (fst (digits 0 l) <=? 255)%Z
     end
  && (length l <=? 3).

Definition ip_version (host : string) : Z :=
  match split_on "."%char host with
  | [a; b; c; d] =>
      if octet (list_ascii_of_string a) && octet (list_ascii_of_string b)
         && octet (list_ascii_of_string c) && octet (list_ascii_of_string d)
      then 4%Z else 0%Z
  | _ => 0%Z
  end.

(** [s.replace(pattern, replacement)]: the first occurrence only. *)
Fixpoint replace_first (pattern replacement s : list ascii) : list ascii :=
  match strip_prefix pattern s with
  | Some rest => replacement ++ rest
  | None => match s with
            | c :: s' => c :: replace_first pattern replacement s'
            | [] => []
            end
  end.

Definition replace (s pattern replacement : string) : string :=
  string_of_list_ascii
    (replace_first (list_ascii_of_string pattern) (list_ascii_of_string replacement)
                   (list_ascii_of_string s)).

Definition node : Platform :=
  {| JSON_parse := parse; URL_hostname := hostname; isIP := ip_version;
     String_replace := replace; renderer := SampleText.renderer |}.

(** [JSON.stringify] for the texts of the examples. *)
Definition quoted (s : string) : string :=
  String quote EmptyString +:+ s +:+ String quote EmptyString.

End Sample.

(** * Notions the properties are stated with *)

(** ** What the lifecycle methods leave alone

    The correlator's state: the counter, the table, the activations of
    [send], the deletions from the table, and the clock. *)
Definition correlator (w : World) : Z * gmap Z nat * list SendCall * list Deletion * Z :=
  (_id (core w), _pendingCommands (core w), sends w, deletions w, now w).

Arguments correlator : simpl never.

(** ** The invariant of the pending-commands table *)

(** The deletions from the table that name identifier [id]. *)
Definition removals (id : Z) (dels : list Deletion) : list Deletion :=
  filter (fun d => del_key d = id) dels.

(** Where the waiter of a [send] activation stands, by the state of its
    timer: still in the table; taken out by the response, which cleared the
    timer; or taken out by the timer. *)
Definition waiter_state (p : gmap Z nat) (dels : list Deletion) (t : Z)
    (h : nat) (sc : SendCall) : Prop :=
  match sc_timer sc with
  | Armed =>
      removals (sc_id sc) dels = []
      /\ p !! sc_id sc = Some h
      /\ sc_promise sc = Pending
      /\ (sc_deadline sc <= t + RESPONSE_TIMEOUT)%Z
  | Cleared =>
      removals (sc_id sc) dels
      = [{| del_key := sc_id sc; del_site := ByResponse; del_found := true |}]
      /\ p !! sc_id sc = None
      /\ exists payload,
           sc_promise sc = Resolved payload
           /\ get_prop payload "id" = Ret (JNum (sc_id sc))
  | Fired =>
      removals (sc_id sc) dels
      = [{| del_key := sc_id sc; del_site := ByTimeout; del_found := true |}]
      /\ p !! sc_id sc = None
      /\ sc_promise sc = Rejected (TimedOutError (sc_command sc) (sc_id sc))
      /\ (sc_deadline sc <= t)%Z
  end.

Record InvC (i : Z) (p : gmap Z nat) (s : list SendCall) (d : list Deletion) (t : Z)
  : Prop := {
  inv_counter : (0 <= i)%Z;
  inv_ids : forall h sc, s !! h = Some sc -> (1 <= sc_id sc <= i)%Z;
  inv_inj : forall h h' sc sc',
      s !! h = Some sc -> s !! h' = Some sc' -> sc_id sc = sc_id sc' -> h = h';
  inv_table : forall k h,
      p !! k = Some h -> exists sc, s !! h = Some sc /\ sc_id sc = k /\ sc_timer sc = Armed;
  inv_dels : Forall (fun x => (del_key x <= i)%Z) d;
  inv_state : forall h sc, s !! h = Some sc -> waiter_state p d t h sc
}.

Definition Inv (w : World) : Prop :=
  InvC (_id (core w)) (_pendingCommands (core w)) (sends w) (deletions w) (now w).

(** ** A race that every candidate loses *)

(** The warning for an ['error'] event [e] = (socket, message). *)
Definition warning_of (urls : list string) (w : World) (e : nat * string) : string :=
  errorMessage_of (default EmptyString (urls !! (fst e - length (sockets w)))) (snd e).

Definition race_after (urls : list string) (w : World) (errs : list (nat * string))
    (result : option bool) : Race :=
  {| candidateWebsockets := seq (length (sockets w)) (length urls);
     errorMessages := map (warning_of urls w) errs;
     firstWebsocketConnected := false;
     race_result := result |}.

(** Where the race stands after the errors [errs], some candidate still to
    come: every socket that reported is settled, no other one is. *)
Definition racing (urls : list string) (w : World) (errs : list (nat * string))
    (w' : World) : Prop :=
  _ws (core w') = None
  /\ _waitForConnected (core w') = OfRace (length (races w))
  /\ log w' = log w
  /\ races w' = races w ++ [race_after urls w errs None]
  /\ forall i url, urls !! i = Some url ->
       exists s, sockets w' !! (length (sockets w) + i) = Some s
                 /\ sock_url s = url /\ sock_race s = length (races w)
                 /\ once_error s = bool_decide (length (sockets w) + i ∉ errs.*1)
                 /\ connectPromise_settled s
                    = bool_decide (length (sockets w) + i ∈ errs.*1).

(** The race is over, lost. *)
Definition lost (urls : list string) (w : World) (errs : list (nat * string))
    (w' : World) : Prop :=
  _ws (core w') = None
  /\ _isConnected (core w') = false
  /\ _waitForConnected (core w') = OfRace (length (races w))
  /\ log w' = log w ++ map (fun e => LogWarn (warning_of urls w e)) errs
  /\ races w' = races w ++ [race_after urls w errs (Some false)].

(** ** Data of the examples *)

Definition literal_url : string := "ws://127.0.0.1:9222/session".

Definition domain_url : string := "ws://example.test:9222/session".

Definition create : CommandData :=
  {| method := "browsingContext.create"; params := JObj [] |}.

(** [{"id":1,"result":{}}] *)
Definition result_text : string :=
  "{" +:+ Sample.quoted "id" +:+ ":1," +:+ Sample.quoted "result" +:+ ":{}}".

(** [{"method":"log.entryAdded","params":{}}] *)
Definition event_text : string :=
  "{" +:+ Sample.quoted "method" +:+ ":" +:+ Sample.quoted "log.entryAdded" +:+ ","
  +:+ Sample.quoted "params" +:+ ":{}}".

(** [script.callFunction] with the parameters [{}]: no
    [functionDeclaration]. *)
Definition bad_call : CommandData :=
  {| method := "script.callFunction"; params := JObj [] |}.

(** An endpoint whose host is named as its scheme is. *)
Definition scheme_named_url : string := "ws://ws:9222/session".

(** A session connected to an IP-literal endpoint. *)
Definition connected : World :=
  snd (run Sample.node [EvConnect; EvOpen 0] (initial literal_url None None)).

(** A session connected to a domain endpoint, on its first candidate. *)
Definition connected_domain : World :=
  snd (run Sample.node
         [EvConnect; EvDns 0 (Addresses ["10.0.0.1"]) (Addresses []); EvOpen 0]
         (initial domain_url None None)).

(** The same with a client attached. *)
Definition observed : World := attachClient 7 connected.

(** Three commands: the first answered, the second timed out, the third
    still waiting. *)
Definition three_sends : list Event :=
  [EvConnect; EvOpen 0; EvSend create; EvSend create; EvMessage 0 result_text;
   EvElapse 60000; EvTimer 1; EvSend create].

(** The three candidates of [domain_url], all refused. *)
Definition lost_race : World :=
  snd (run Sample.node
         [EvConnect; EvDns 0 (Addresses ["10.0.0.1"; "10.0.0.2"]) (Addresses []);
          EvError 1 "ECONNREFUSED"; EvError 0 "ENOTFOUND"; EvError 2 "EHOSTUNREACH"]
         (initial domain_url None None)).

Definition three_candidates : list string :=
  ["ws://example.test:9222/session"; "ws://10.0.0.1:9222/session";
   "ws://10.0.0.2:9222/session"].

Definition three_errors : list (nat * string) :=
  [(1, "ECONNREFUSED"); (0, "ENOTFOUND"); (2, "EHOSTUNREACH")].

(** ** Events that end a connection *)

(** The turns that call [close]: [close()] itself and [reconnect]. *)
Definition closes (ev : Event) : bool :=
  match ev with
  | EvClose | EvReconnect _ _ => true
  | _ => false
  end.

(** The connection of the session: the active socket and the flag. *)
Definition connection (w : World) : option nat * bool :=
  (_ws (core w), _isConnected (core w)).

(** ** Shapes of texts *)

(** The last group of a base64 text when it is padded: three characters of
    the alphabet and [=], or two and [==]. *)
Definition padded_group (t : list ascii) : Prop :=
  exists a b c d,
    t = [a; b; c; d]
    /\ is_base64_char a = true /\ is_base64_char b = true
    /\ is_pad d = true
    /\ (is_base64_char c = true \/ is_pad c = true).

(** A text in which the character [c] does not occur. *)
Fixpoint without_char (c : ascii) (s : string) : Prop :=
  match s with
  | EmptyString => True
  | String c' rest => c' ≠ c /\ without_char c rest
  end.

(** The newline, [\n]. *)
Definition newline : ascii := "010"%char.

(** ** Frames on the wire *)

(** The frames written to each socket, socket by socket. *)
Definition traffic (w : World) : list (list Frame) := map sent (sockets w).

(** The identifiers of all the frames written, socket by socket. *)
Definition wire (w : World) : list Z := map frame_id (concat (traffic w)).

(** Later in the list means greater. *)
Definition ascending (l : list Z) : Prop :=
  forall i j a b, l !! i = Some a -> l !! j = Some b -> i < j -> (a < b)%Z.

(** From [w] to [w'] no frame was written and no identifier handed out:
    sockets may have been made, and the active socket is as before, unset,
    or one of the sockets. *)
Definition quiet (w w' : World) : Prop :=
  _id (core w') = _id (core w)
  /\ (exists k, traffic w' = traffic w ++ replicate k [])
  /\ (_ws (core w') = _ws (core w) \/ _ws (core w') = None
      \/ exists sid, _ws (core w') = Some sid /\ sid < length (sockets w')).

(** Every identifier handed out is on the wire once, in order on its
    socket, and the active socket is one of the sockets. *)
Definition Wired (w : World) : Prop :=
  (forall sid, _ws (core w) = Some sid -> sid < length (sockets w))
  /\ wire w ≡ₚ seqZ 1 (_id (core w))
  /\ Forall (fun fs => ascending (map frame_id fs)) (traffic w).

(** ** Commands and their texts *)

(** [t] does not occur in [s] at a place before [k]. *)
Definition nowhere_before (t s : string) (k : nat) : Prop :=
  forall p, p < k -> substring p (String.length t) s <> t.

(** The parameters are what the type of the command says, as far as
    [parseBidiCommand] reads them: for the two script commands an object
    whose [functionDeclaration] is a string. *)
Definition typed (command : CommandData) : bool :=
  if String.eqb (method command) "script.addPreloadScript"
     || String.eqb (method command) "script.callFunction"
  then match params command with
       | JObj param => match own_property "functionDeclaration" param with
                       | Some (JStr _) => true
                       | _ => false
                       end
       | _ => false
       end
  else true.

(** The parameters of a call whose declaration holds the function
    [getTitle] between the two marks. *)
Definition wrapped_call : list (string * JSValue) :=
  [("functionDeclaration",
    JStr ("function anonymous(...args) { return (" +:+ SCRIPT_PREFIX
          +:+ functionPrefix +:+ "getTitle" +:+ "(" +:+ ") { return document.title }"
          +:+ SCRIPT_SUFFIX +:+ ").apply(this, args) }"));
   ("awaitPromise", JBool true)].

(** ** Listeners *)

(** Of each socket: whether its ['open'] listener is still on, and the
    number of its ['message'] listeners. *)
Definition ears (w : World) : list (bool * nat) :=
  map (fun s => (once_open s, message_listeners s)) (sockets w).

(** From [w] to [w'] no listener was added or removed: sockets may have
    been made, and the active socket is as before or unset. *)
Definition calm (w w' : World) : Prop :=
  (exists k, ears w' = ears w ++ replicate k (true, 0))
  /\ (_ws (core w') = _ws (core w) \/ _ws (core w') = None).

(** No socket has more than one ['message'] listener, a socket that did not
    open has none, and the active socket has one. *)
Definition Listening (w : World) : Prop :=
  Forall (fun e => snd e <= 1 /\ (fst e = true -> snd e = 0)) (ears w)
  /\ (forall sid, _ws (core w) = Some sid -> exists b, ears w !! sid = Some (b, 1)).

(** ** Data of further examples *)

(** The socket of [connected], after its ['open'] event. *)
Definition open_socket : Socket :=
  sock_settle (sock_on_message (sock_fire_open (new_socket literal_url None 0))).

(** Two commands waiting for their responses. *)
Definition two_waiting : list Event :=
  [EvConnect; EvOpen 0; EvSend create; EvSend create].

Definition first_waiting : SendCall :=
  {| sc_id := 1; sc_command := create; sc_deadline := 60000;
     sc_timer := Armed; sc_promise := Pending |}.

Definition second_waiting : SendCall :=
  {| sc_id := 2; sc_command := create; sc_deadline := 60000;
     sc_timer := Armed; sc_promise := Pending |}.

(** [{"id":2,"result":{}}] *)
Definition second_result_text : string :=
  "{" +:+ Sample.quoted "id" +:+ ":2," +:+ Sample.quoted "result" +:+ ":{}}".

(** [{"id":9,"result":{}}] *)
Definition stale_text : string :=
  "{" +:+ Sample.quoted "id" +:+ ":9," +:+ Sample.quoted "result" +:+ ":{}}".

(** [{"id":1,"type":"error","error":"no such frame","message":"gone","stacktrace":"run@a.js:1"}] *)
Definition error_text : string :=
  "{" +:+ Sample.quoted "id" +:+ ":1," +:+ Sample.quoted "type" +:+ ":"
  +:+ Sample.quoted "error" +:+ "," +:+ Sample.quoted "error" +:+ ":"
  +:+ Sample.quoted "no such frame" +:+ "," +:+ Sample.quoted "message" +:+ ":"
  +:+ Sample.quoted "gone" +:+ "," +:+ Sample.quoted "stacktrace" +:+ ":"
  +:+ Sample.quoted "run@a.js:1" +:+ "}".

Definition error_payload : JSValue :=
  JObj [("id", JNum 1); ("type", JStr "error"); ("error", JStr "no such frame");
        ("message", JStr "gone"); ("stacktrace", JStr "run@a.js:1")].

(** [{"id":1,"result":{"data":"aGk="}}] *)
Definition screenshot_text : string :=
  "{" +:+ Sample.quoted "id" +:+ ":1," +:+ Sample.quoted "result" +:+ ":{"
  +:+ Sample.quoted "data" +:+ ":" +:+ Sample.quoted "aGk=" +:+ "}}".

(** Three connects, a reconnect and two sockets opened. *)
Definition reconnected : list Event :=
  [EvConnect; EvConnect; EvOpen 1; EvOpen 0; EvConnect; EvReconnect literal_url None;
   EvOpen 3; EvOpen 2].

(** * Properties *)

(** ** Frames *)

Lemma correlator_upd_sockets f w : correlator (upd_sockets f w) = correlator w.
Proof. reflexivity. Qed.

Lemma correlator_upd_races f w : correlator (upd_races f w) = correlator w.
Proof. reflexivity. Qed.

Lemma correlator_upd_connects f w : correlator (upd_connects f w) = correlator w.
Proof. reflexivity. Qed.

Lemma correlator_write_log e w : correlator (write_log e w) = correlator w.
Proof. reflexivity. Qed.

Lemma correlator_record_emit c e w : correlator (record_emit c e w) = correlator w.
Proof. reflexivity. Qed.

Lemma correlator_set_env v w : correlator (set_env v w) = correlator w.
Proof. reflexivity. Qed.

Lemma correlator_set_ws x w : correlator (upd_core (set_ws x) w) = correlator w.
Proof. reflexivity. Qed.

Lemma correlator_set_isConnected x w :
  correlator (upd_core (set_isConnected x) w) = correlator w.
Proof. reflexivity. Qed.

Lemma correlator_set_waitForConnected x w :
  correlator (upd_core (set_waitForConnected x) w) = correlator w.
Proof. reflexivity. Qed.

Lemma correlator_set_webSocketUrl x w :
  correlator (upd_core (set_webSocketUrl x) w) = correlator w.
Proof. reflexivity. Qed.

Lemma correlator_set_clientOptions x w :
  correlator (upd_core (set_clientOptions x) w) = correlator w.
Proof. reflexivity. Qed.

Lemma correlator_set_client x w : correlator (upd_core (set_client x) w) = correlator w.
Proof. reflexivity. Qed.

Create Rewrite HintDb frame.
#[local] Hint Rewrite correlator_upd_sockets correlator_upd_races correlator_upd_connects
  correlator_write_log correlator_record_emit correlator_set_env correlator_set_ws
  correlator_set_isConnected correlator_set_waitForConnected correlator_set_webSocketUrl
  correlator_set_clientOptions correlator_set_client : frame.

Lemma foldl_correlator {A} (f : World -> A -> World) (l : list A) (w : World) :
  (forall w' a, correlator (f w' a) = correlator w') ->
  correlator (foldl f w l) = correlator w.
Proof.
  intros Hf. revert w. induction l as [|a l IH]; intros w; simpl; [done|].
  rewrite IH. apply Hf.
Qed.

Lemma connectWebsocket_resume_correlator r w :
  correlator (connectWebsocket_resume r w) = correlator w.
Proof.
  unfold connectWebsocket_resume.
  destruct (races w !! r) as [race|]; [|done].
  destruct (_ws (core w)) as [active|]; simpl; autorewrite with frame;
    by apply foldl_correlator.
Qed.

Lemma settle_race_correlator r w : correlator (settle_race r w) = correlator w.
Proof.
  unfold settle_race.
  destruct (races w !! r) as [race|]; [|done].
  destruct (race_result race); [done|].
  destruct (firstWebsocketConnected race || all_settled race w); [|done].
  apply connectWebsocket_resume_correlator.
Qed.

#[local] Hint Rewrite settle_race_correlator : frame.

Lemma on_open_correlator sid w : correlator (on_open sid w) = correlator w.
Proof.
  unfold on_open.
  destruct (sockets w !! sid) as [s|]; [|done].
  destruct (once_open s); [|done].
  simpl. destruct (_ws (core w)); by autorewrite with frame.
Qed.

Lemma on_error_correlator sid m w : correlator (on_error sid m w) = correlator w.
Proof.
  unfold on_error.
  destruct (sockets w !! sid) as [s|]; [|done].
  destruct (once_error s); [|done].
  by autorewrite with frame.
Qed.

Lemma connect_resume_correlator urls w :
  correlator (snd (connect_resume urls w)) = correlator w.
Proof. unfold connect_resume, connectWebsocket. simpl. by autorewrite with frame. Qed.

Section Frames.

Context (P : Platform).

Lemma connect_body_correlator w : correlator (snd (connect_body P w)) = correlator w.
Proof.
  unfold connect_body.
  destruct (env_truthy (WDIO_UNIT_TESTS w)); [done|].
  destruct (listWebsocketCandidateUrls P _) as [[urls|host urls]|e]; [|done|done].
  by rewrite connect_resume_correlator.
Qed.

Lemma connect_correlator w : correlator (snd (connect P w)) = correlator w.
Proof.
  unfold connect.
  pose proof (connect_body_correlator w) as H.
  destruct (connect_body P w) as [call w1]. simpl in *. exact H.
Qed.

Lemma dns_settled_correlator h a4 a6 w :
  correlator (dns_settled P h a4 a6 w) = correlator w.
Proof.
  unfold dns_settled.
  destruct (connects w !! h) as [[|host urls|r|e]|]; try done.
  destruct (listWebsocketCandidateUrls_resume P host urls a4 a6 w) as [urls'|e]; [|done].
  pose proof (connect_resume_correlator urls' w) as H.
  destruct (connect_resume urls' w) as [call w1]. simpl in *. exact H.
Qed.

Lemma close_correlator w : correlator (close w) = correlator w.
Proof.
  unfold close.
  destruct (_isConnected (core w)); [|done]. simpl.
  by destruct (_ws (core w)).
Qed.

Lemma reconnect_correlator url opts w :
  correlator (snd (reconnect P url opts w)) = correlator w.
Proof.
  unfold reconnect. rewrite connect_correlator.
  autorewrite with frame. rewrite close_correlator. by autorewrite with frame.
Qed.

End Frames.

(** ** What the correlator's methods do to the correlator's state *)

Lemma correlator_emit e w : correlator (emit e w) = correlator w.
Proof. unfold emit. by destruct (client (core w)). Qed.

#[local] Hint Rewrite correlator_emit : frame.

(** A command whose parameters are what its type says is rendered. *)
Lemma typed_renders (R : Renderer) command :
  typed command = true -> exists rendering, parseBidiCommand R command = Ret rendering.
Proof.
  unfold typed, parseBidiCommand. intros Ht.
  destruct (String.eqb (method command) "script.addPreloadScript").
  - simpl in Ht. destruct (params command) as [| |b|z|l|s|items|param]; try done.
    simpl. by eexists.
  - destruct (String.eqb (method command) "script.callFunction"); [|by eexists].
    simpl in Ht. destruct (params command) as [| |b|z|l|s|items|param]; try done.
    destruct (own_property "functionDeclaration" param)
      as [[| |b|z|l|s|items|fs]|]; try done.
    simpl. unfold fnName. destruct (includes s SCRIPT_PREFIX);
      [destruct (String.prefix functionPrefix (internalFn s))|]; by eexists.
Qed.

Lemma sendAsync_cases (P : Platform) command w :
  (exists e,
     sendAsync P command w = (Throw e, w)
     /\ ((e = NotConnectedError
          /\ (_ws (core w) = None \/ _isConnected (core w) = false))
         \/ parseBidiCommand (renderer P) command = Throw e))
  \/ (exists sid w1,
        _ws (core w) = Some sid /\ _isConnected (core w) = true
        /\ sendAsync P command w = (Ret (_id (core w) + 1)%Z, w1)
        /\ correlator w1
           = ((_id (core w) + 1)%Z, _pendingCommands (core w), sends w, deletions w, now w)).
Proof.
  unfold sendAsync, bind, gets, modify, ret, throw, lift. simpl.
  destruct (_ws (core w)) as [sid|] eqn:Hws; [|left; eauto 10].
  destruct (_isConnected (core w)) eqn:Hc; [|left; eauto 10].
  destruct (parseBidiCommand (renderer P) command) as [rendering|e]; [|left; eauto 10].
  right. eexists sid, _. repeat split.
  autorewrite with frame. reflexivity.
Qed.

Lemma send_cases (P : Platform) command w :
  (exists e,
     send P command w = (Throw e, w)
     /\ ((e = NotConnectedError
          /\ (_ws (core w) = None \/ _isConnected (core w) = false))
         \/ parseBidiCommand (renderer P) command = Throw e))
  \/ (exists w1,
        send P command w = (Ret (length (sends w)), w1)
        /\ correlator w1
           = ((_id (core w) + 1)%Z,
              <[(_id (core w) + 1)%Z := length (sends w)]> (_pendingCommands (core w)),
              sends w ++ [{| sc_id := (_id (core w) + 1)%Z; sc_command := command;
                             sc_deadline := (now w + RESPONSE_TIMEOUT)%Z;
                             sc_timer := Armed; sc_promise := Pending |}],
              deletions w, now w)).
Proof.
  destruct (sendAsync_cases P command w) as [(e & Hs & Hn)|(sid & w1 & _ & _ & Hs & Hw1)].
  - left. exists e. split; [|done]. unfold send, bind. by rewrite Hs.
  - right. unfold send, bind, gets, modify, ret. rewrite Hs. simpl.
    unfold correlator in Hw1. injection Hw1 as Hi Hp Hsn Hd Ht.
    eexists. split; [by rewrite Hsn|].
    unfold correlator. simpl. by rewrite Hi, Hp, Hsn, Hd, Ht.
Qed.

Lemma timer_fire_cases h w :
  correlator (timer_fire h w) = correlator w
  \/ (exists sc,
        sends w !! h = Some sc /\ sc_timer sc = Armed /\ (sc_deadline sc <= now w)%Z
        /\ correlator (timer_fire h w)
           = (_id (core w), delete (sc_id sc) (_pendingCommands (core w)),
              alter (sc_settle (Rejected (TimedOutError (sc_command sc) (sc_id sc)))) h
                    (alter (sc_set_timer Fired) h (sends w)),
              deletions w
              ++ [{| del_key := sc_id sc; del_site := ByTimeout;
                     del_found := bool_decide (is_Some (_pendingCommands (core w) !! sc_id sc)) |}],
              now w)).
Proof.
  unfold timer_fire.
  destruct (sends w !! h) as [sc|] eqn:Hsc; [|by left].
  destruct (sc_timer sc) eqn:Ht; try by left.
  destruct (sc_deadline sc <=? now w)%Z eqn:Hd; [|by left].
  right. exists sc. split; [done|]. split; [done|]. split; [by apply Z.leb_le|].
  unfold Map_delete, correlator. simpl.
  reflexivity.
Qed.

Section Responses.

Context (P : Platform).

Lemma handleResponse_returns data w : fst (handleResponse P data w) = Ret tt.
Proof.
  unfold handleResponse, try_catch, bind, lift, gets, modify, ret.
  destruct (JSON_parse P data) as [payload|]; [|done].
  destruct (get_prop payload "id") as [id|]; [|done].
  destruct (truthy id); simpl; [|done].
  destruct (Map_get _ id) as [h|]; [|done].
  by destruct id.
Qed.

Lemma handleResponse_resolves data w payload n h :
  JSON_parse P data = Some payload -> get_prop payload "id" = Ret (JNum n) ->
  n ≠ 0%Z -> _pendingCommands (core w) !! n = Some h ->
  correlator (snd (handleResponse P data w))
  = (_id (core w), delete n (_pendingCommands (core w)),
     alter (sc_settle (Resolved payload)) h (alter sc_clearTimeout h (sends w)),
     deletions w ++ [{| del_key := n; del_site := ByResponse; del_found := true |}],
     now w).
Proof.
  intros Hp Hid Hn Hh.
  unfold handleResponse, try_catch, bind, lift, gets, modify, ret.
  rewrite Hp, Hid. simpl.
  destruct (n =? 0)%Z eqn:Hz; [lia|]. simpl.
  unfold waiter, Map_delete, emit, correlator. simpl.
  destruct (client (core w)); simpl; rewrite Hh; simpl; rewrite Hh;
    by rewrite bool_decide_true.
Qed.

Lemma handleResponse_cases data w :
  correlator (snd (handleResponse P data w)) = correlator w
  \/ (exists payload n h,
        JSON_parse P data = Some payload /\ get_prop payload "id" = Ret (JNum n)
        /\ n ≠ 0%Z /\ _pendingCommands (core w) !! n = Some h).
Proof.
  unfold handleResponse, try_catch, bind, lift, gets, modify, ret.
  destruct (JSON_parse P data) as [payload|] eqn:Hp; [|by left].
  destruct (get_prop payload "id") as [id|] eqn:Hid; [|by left].
  destruct (truthy id) eqn:Ht; simpl; [|by left].
  destruct (Map_get _ id) as [h|] eqn:Hg; simpl;
    [|left; by autorewrite with frame].
  destruct id as [| |b|n|l|s|items|fields]; simpl in Hg; try discriminate.
  right. exists payload, n, h.
  repeat split; try done.
  - simpl in Ht. intros ->. discriminate.
  - revert Hg. unfold emit. simpl. by destruct (client (core w)).
Qed.

End Responses.

(** ** The methods keep the invariant of the table *)

Lemma Inv_correlator w' i p s d t :
  correlator w' = (i, p, s, d, t) -> InvC i p s d t -> Inv w'.
Proof.
  unfold correlator, Inv. intros H. injection H as -> -> -> -> ->. done.
Qed.

Lemma Inv_frame w w' : correlator w' = correlator w -> Inv w -> Inv w'.
Proof. intros H Hw. eapply Inv_correlator; [exact H|exact Hw]. Qed.

Lemma removals_fresh id i d :
  Forall (fun x => (del_key x <= i)%Z) d -> (i < id)%Z -> removals id d = [].
Proof.
  unfold removals. induction 1 as [|x d Hx _ IH]; intros Hlt; [done|].
  rewrite filter_cons_False by lia. by apply IH.
Qed.

Lemma removals_snoc_eq id d x :
  del_key x = id -> removals id (d ++ [x]) = removals id d ++ [x].
Proof.
  intros Hx. unfold removals. rewrite filter_app.
  by rewrite (filter_cons_True _ x []) by done.
Qed.

Lemma removals_snoc_ne id d x :
  del_key x ≠ id -> removals id (d ++ [x]) = removals id d.
Proof.
  intros Hx. unfold removals. rewrite filter_app.
  rewrite (filter_cons_False _ x []) by done. by rewrite filter_nil, app_nil_r.
Qed.

Lemma list_alter_as_insert {A} (f : A -> A) (l : list A) i x :
  l !! i = Some x -> alter f i l = <[i := f x]> l.
Proof.
  intros Hx. apply list_eq. intros j. destruct (decide (i = j)) as [->|Hne].
  - rewrite list_lookup_alter_eq, Hx, list_lookup_insert_eq; [done|].
    by eapply lookup_lt_Some.
  - by rewrite list_lookup_alter_ne, list_lookup_insert_ne.
Qed.

Lemma InvC_sendAsync i p s d t : InvC i p s d t -> InvC (i + 1) p s d t.
Proof.
  intros [Hi Hids Hinj Htab Hdels Hst]. split; try done.
  - lia.
  - intros h sc Hsc. specialize (Hids h sc Hsc). lia.
  - eapply Forall_impl; [exact Hdels|]. simpl. intros; lia.
Qed.

Lemma InvC_send i p s d t command :
  InvC i p s d t ->
  InvC (i + 1) (<[(i + 1)%Z := length s]> p)
       (s ++ [{| sc_id := (i + 1)%Z; sc_command := command;
                 sc_deadline := (t + RESPONSE_TIMEOUT)%Z;
                 sc_timer := Armed; sc_promise := Pending |}])
       d t.
Proof.
  intros [Hi Hids Hinj Htab Hdels Hst]. split.
  - lia.
  - intros h sc [[_ Hsc]|[_ <-]]%lookup_snoc_Some; simpl; [|lia].
    specialize (Hids h sc Hsc). lia.
  - intros h h' sc sc' [[Hl Hsc]|[-> <-]]%lookup_snoc_Some
                       [[Hl' Hsc']|[-> <-]]%lookup_snoc_Some; simpl; intros Heq.
    + by eapply Hinj.
    + specialize (Hids h sc Hsc). lia.
    + specialize (Hids h' sc' Hsc'). lia.
    + done.
  - intros k h Hk. destruct (decide (k = (i + 1)%Z)) as [->|Hne].
    + rewrite lookup_insert_eq in Hk. injection Hk as <-.
      eexists. split; [rewrite lookup_app_r by done; by rewrite Nat.sub_diag|done].
    + rewrite lookup_insert_ne in Hk by done.
      destruct (Htab k h Hk) as (sc & Hsc & Hid & Harmed).
      exists sc. split; [|done]. by apply lookup_app_l_Some.
  - eapply Forall_impl; [exact Hdels|]. simpl. intros; lia.
  - intros h sc [[_ Hsc]|[-> <-]]%lookup_snoc_Some.
    + specialize (Hids h sc Hsc). specialize (Hst h sc Hsc).
      unfold waiter_state in *.
      rewrite lookup_insert_ne by lia. exact Hst.
    + unfold waiter_state. simpl. rewrite lookup_insert_eq.
      repeat split; [|lia]. eapply removals_fresh; [exact Hdels|lia].
Qed.

(** Taking a waiter out of the table, by either path. *)
Lemma InvC_remove i p s d t h sc0 sc1 site :
  InvC i p s d t ->
  s !! h = Some sc0 -> sc_timer sc0 = Armed ->
  sc_id sc1 = sc_id sc0 ->
  match sc_timer sc1 with
  | Armed => False
  | Cleared =>
      site = ByResponse
      /\ exists payload,
           sc_promise sc1 = Resolved payload
           /\ get_prop payload "id" = Ret (JNum (sc_id sc1))
  | Fired =>
      site = ByTimeout
      /\ sc_promise sc1 = Rejected (TimedOutError (sc_command sc1) (sc_id sc1))
      /\ (sc_deadline sc1 <= t)%Z
  end ->
  InvC i (delete (sc_id sc0) p) (<[h := sc1]> s)
       (d ++ [{| del_key := sc_id sc0; del_site := site; del_found := true |}]) t.
Proof.
  intros [Hi Hids Hinj Htab Hdels Hst] Hsc0 Harmed Hid Hnew.
  assert (h < length s) as Hlt by (by eapply lookup_lt_Some).
  pose proof (Hst h sc0 Hsc0) as Hst0. unfold waiter_state in Hst0.
  rewrite Harmed in Hst0. destruct Hst0 as (Hrem0 & Hp0 & Hpend0 & Hdl0).
  assert (forall h' sc, <[h := sc1]> s !! h' = Some sc ->
            (h' = h /\ sc = sc1) \/ (h' ≠ h /\ s !! h' = Some sc)) as Hlook.
  { intros h' sc Hsc. destruct (decide (h = h')) as [->|Hne].
    - rewrite list_lookup_insert_eq in Hsc by done. left. by injection Hsc as <-.
    - rewrite list_lookup_insert_ne in Hsc by done. right. auto. }
  split.
  - done.
  - intros h' sc [[-> ->]|[_ Hsc]]%Hlook.
    + rewrite Hid. by eapply Hids.
    + by eapply Hids.
  - intros h1 h2 sc sc' [[-> ->]|[Hn1 Hsc]]%Hlook [[-> ->]|[Hn2 Hsc']]%Hlook Heq.
    + done.
    + rewrite Hid in Heq. by eapply Hinj.
    + rewrite Hid in Heq. by eapply Hinj.
    + by eapply Hinj.
  - intros k h' Hk.
    apply lookup_delete_Some in Hk as [Hne Hk].
    destruct (Htab k h' Hk) as (sc & Hsc & Hidk & Harm).
    exists sc. split; [|done].
    rewrite list_lookup_insert_ne; [done|].
    intros ->. rewrite Hsc0 in Hsc. injection Hsc as <-. done.
  - apply Forall_app. split; [done|]. constructor; [|done]. simpl.
    specialize (Hids h sc0 Hsc0). lia.
  - intros h' sc [[-> ->]|[Hn Hsc]]%Hlook.
    + unfold waiter_state. rewrite Hid.
      rewrite removals_snoc_eq by done. rewrite Hrem0. simpl.
      rewrite lookup_delete_eq.
      destruct (sc_timer sc1); [done| |].
      * destruct Hnew as (-> & payload & Hres & Hpay). rewrite Hid in Hpay. eauto.
      * destruct Hnew as (-> & Hrej & Hdl). rewrite Hid in Hrej. by rewrite Hrej.
    + assert (sc_id sc ≠ sc_id sc0) as Hne.
      { intros Heq. apply Hn. by eapply Hinj. }
      specialize (Hst h' sc Hsc). unfold waiter_state in *.
      rewrite removals_snoc_ne by (simpl; congruence).
      rewrite lookup_delete_ne by congruence. exact Hst.
Qed.

Lemma InvC_elapse i p s d t t' :
  (t <= t')%Z -> InvC i p s d t -> InvC i p s d t'.
Proof.
  intros Hle [Hi Hids Hinj Htab Hdels Hst]. split; try done.
  intros h sc Hsc. specialize (Hst h sc Hsc). unfold waiter_state in *.
  destruct (sc_timer sc).
  - destruct Hst as (? & ? & ? & ?). repeat split; try done. lia.
  - done.
  - destruct Hst as (? & ? & ? & ?). repeat split; try done. lia.
Qed.

(** ** The invariant holds in every world a run can reach *)

Lemma Inv_initial url opts env : Inv (initial url opts env).
Proof.
  split; simpl; try done.
Qed.

Lemma Inv_timer_fire h w : Inv w -> Inv (timer_fire h w).
Proof.
  intros Hw.
  destruct (timer_fire_cases h w) as [Hf|(sc & Hsc & Harmed & Hdl & Hc)];
    [by eapply Inv_frame|].
  eapply Inv_correlator; [exact Hc|].
  pose proof (inv_state _ _ _ _ _ Hw h sc Hsc) as Hst.
  unfold waiter_state in Hst. rewrite Harmed in Hst.
  destruct Hst as (_ & Hp & Hpend & _).
  rewrite Hp, bool_decide_true by eauto.
  rewrite (list_alter_as_insert _ _ _ _ Hsc).
  erewrite list_alter_as_insert
    by (apply list_lookup_insert_eq; by eapply lookup_lt_Some).
  rewrite list_insert_insert_eq.
  eapply InvC_remove; [exact Hw|exact Hsc|exact Harmed|done|].
  simpl. rewrite Hpend. done.
Qed.

Section Reachable.

Context (P : Platform).

Lemma Inv_handleResponse data w : Inv w -> Inv (snd (handleResponse P data w)).
Proof.
  intros Hw.
  destruct (handleResponse_cases P data w) as [Hf|(payload & n & h & Hp & Hid & Hn & Hh)];
    [by eapply Inv_frame|].
  eapply Inv_correlator; [by eapply handleResponse_resolves|].
  destruct (inv_table _ _ _ _ _ Hw n h Hh) as (sc & Hsc & Hscid & Harmed).
  pose proof (inv_state _ _ _ _ _ Hw h sc Hsc) as Hst.
  unfold waiter_state in Hst. rewrite Harmed in Hst.
  destruct Hst as (_ & _ & Hpend & _).
  rewrite (list_alter_as_insert _ _ _ _ Hsc).
  erewrite list_alter_as_insert
    by (apply list_lookup_insert_eq; by eapply lookup_lt_Some).
  rewrite list_insert_insert_eq. subst n.
  eapply InvC_remove; [exact Hw|exact Hsc|exact Harmed| |].
  - unfold sc_clearTimeout. by rewrite Harmed.
  - unfold sc_clearTimeout. rewrite Harmed. simpl. rewrite Hpend.
    split; [done|]. by exists payload.
Qed.

Lemma Inv_on_message sid data w : Inv w -> Inv (on_message P sid data w).
Proof.
  intros Hw. unfold on_message.
  destruct (sockets w !! sid) as [s|]; [|done].
  induction (message_listeners s) as [|n IH]; simpl; [done|].
  by apply Inv_handleResponse.
Qed.

Lemma Inv_step ev w : Inv w -> Inv (snd (step P ev w)).
Proof.
  intros Hw. destruct ev as [c|v| |h a4 a6|sid|sid m|sid data| |url opts|cmd|cmd|h|ms];
    simpl.
  - by eapply Inv_frame.
  - by eapply Inv_frame.
  - pose proof (connect_correlator P w) as H.
    destruct (connect P w) as [h w1]. by eapply Inv_frame.
  - eapply Inv_frame; [apply dns_settled_correlator|done].
  - eapply Inv_frame; [apply on_open_correlator|done].
  - eapply Inv_frame; [apply on_error_correlator|done].
  - by apply Inv_on_message.
  - eapply Inv_frame; [apply close_correlator|done].
  - pose proof (reconnect_correlator P url opts w) as H.
    destruct (reconnect P url opts w) as [h w1]. by eapply Inv_frame.
  - destruct (sendAsync_cases P cmd w) as [(e & -> & _)|(sid & w1 & _ & _ & -> & Hc)]; [done|].
    simpl. eapply Inv_correlator; [exact Hc|]. by apply InvC_sendAsync.
  - destruct (send_cases P cmd w) as [(e & -> & _)|(w1 & -> & Hc)]; [done|].
    simpl. eapply Inv_correlator; [exact Hc|]. by apply InvC_send.
  - by apply Inv_timer_fire.
  - eapply InvC_elapse; [|exact Hw]. simpl. lia.
Qed.

Lemma run_cons ev evs w :
  snd (run P (ev :: evs) w) = snd (run P evs (snd (step P ev w))).
Proof.
  simpl. destruct (step P ev w) as [o w1]. simpl.
  by destruct (run P evs w1).
Qed.

Lemma run_app evs1 evs2 w :
  snd (run P (evs1 ++ evs2) w) = snd (run P evs2 (snd (run P evs1 w))).
Proof.
  revert w. induction evs1 as [|ev evs1 IH]; intros w; [done|].
  rewrite <- app_comm_cons, !run_cons. apply IH.
Qed.

Lemma Inv_run evs w : Inv w -> Inv (snd (run P evs w)).
Proof.
  revert w. induction evs as [|ev evs IH]; intros w Hw; [done|].
  rewrite run_cons. apply IH. by apply Inv_step.
Qed.

End Reachable.

(** ** The pending-commands table *)

Lemma removals_at_most_one p d t h sc :
  waiter_state p d t h sc -> length (removals (sc_id sc) d) <= 1.
Proof.
  unfold waiter_state. destruct (sc_timer sc); intros [-> _]; simpl; lia.
Qed.

(** C1. For every command sent with [send] while the session is connected,
    in every world a run reaches: the waiter is in exactly one of three
    states (in the table with its timer set and due within the 60 seconds of
    [RESPONSE_TIMEOUT]; taken out once by the response with its identifier,
    which resolved the promise with that payload and cleared the timer; taken
    out once by the timer, which rejected the promise), so the table entry is
    deleted at most once; and while it is in the table each of the two paths
    takes it out: the timer once the 60 seconds have passed, and a response
    that carries its identifier. *)
Theorem pending_waiter_removed_exactly_once (P : Platform) url opts env evs h sc :
  let w := snd (run P evs (initial url opts env)) in
  sends w !! h = Some sc ->
  waiter_state (_pendingCommands (core w)) (deletions w) (now w) h sc
  /\ length (removals (sc_id sc) (deletions w)) <= 1
  /\ (sc_timer sc = Armed ->
      (let w' := snd (run P [EvElapse RESPONSE_TIMEOUT; EvTimer h] w) in
       removals (sc_id sc) (deletions w')
       = [{| del_key := sc_id sc; del_site := ByTimeout; del_found := true |}]
       /\ _pendingCommands (core w') !! sc_id sc = None
       /\ send_promise h w' = RejectedWith (TimedOutError (sc_command sc) (sc_id sc)))
      /\ (forall data payload,
            JSON_parse P data = Some payload ->
            get_prop payload "id" = Ret (JNum (sc_id sc)) ->
            let w' := snd (handleResponse P data w) in
            removals (sc_id sc) (deletions w')
            = [{| del_key := sc_id sc; del_site := ByResponse; del_found := true |}]
            /\ _pendingCommands (core w') !! sc_id sc = None
            /\ exists sc', sends w' !! h = Some sc' /\ sc_timer sc' = Cleared
                           /\ sc_promise sc' = Resolved payload)).
Proof.
  intros w Hsc.
  assert (Inv w) as Hw by apply Inv_run, Inv_initial.
  pose proof (inv_state _ _ _ _ _ Hw h sc Hsc) as Hst.
  split; [exact Hst|]. split; [by eapply removals_at_most_one|].
  intros Harmed. pose proof Hst as Hst'.
  unfold waiter_state in Hst'. rewrite Harmed in Hst'.
  destruct Hst' as (Hrem & Hp & Hpend & Hdl).
  split.
  - intros w'.
    assert (Inv w') as Hw' by by apply Inv_run.
    assert (sends w' !! h
            = Some (sc_settle (Rejected (TimedOutError (sc_command sc) (sc_id sc)))
                              (sc_set_timer Fired sc))) as Hsc'.
    { subst w'. simpl. unfold timer_fire. simpl. rewrite Hsc, Harmed.
      destruct (Z.leb_spec (sc_deadline sc) (now w + Z.max 0 RESPONSE_TIMEOUT)) as [_|Hlt].
      - simpl. by rewrite !list_lookup_alter_eq, Hsc.
      - unfold RESPONSE_TIMEOUT in *. lia. }
    pose proof (inv_state _ _ _ _ _ Hw' h _ Hsc') as Hf.
    unfold waiter_state in Hf. simpl in Hf.
    destruct Hf as (Hrem' & Hp' & _ & _).
    split; [exact Hrem'|]. split; [exact Hp'|].
    unfold send_promise. rewrite Hsc'. simpl. by rewrite Hpend.
  - intros data payload Hparse Hid w'.
    assert (sc_id sc ≠ 0%Z) as Hnz.
    { pose proof (inv_ids _ _ _ _ _ Hw h sc Hsc). lia. }
    assert (Inv w') as Hw' by by apply Inv_handleResponse.
    pose proof (handleResponse_resolves P data w payload _ h Hparse Hid Hnz Hp) as Hc.
    fold w' in Hc. unfold correlator in Hc. injection Hc as _ _ Hs _ _.
    assert (sends w' !! h
            = Some (sc_settle (Resolved payload) (sc_clearTimeout sc))) as Hsc'.
    { by rewrite Hs, !list_lookup_alter_eq, Hsc. }
    pose proof (inv_state _ _ _ _ _ Hw' h _ Hsc') as Hf.
    unfold waiter_state, sc_clearTimeout in Hf. rewrite Harmed in Hf. simpl in Hf.
    destruct Hf as (Hrem' & Hp' & _).
    split; [exact Hrem'|]. split; [exact Hp'|].
    eexists. split; [exact Hsc'|].
    unfold sc_clearTimeout. rewrite Harmed. simpl. by rewrite Hpend.
Qed.

(** ** Identifiers *)

Lemma correlator_id w w' : correlator w' = correlator w -> _id (core w') = _id (core w).
Proof. unfold correlator. intros H. by injection H. Qed.

Lemma timer_fire_id h w : _id (core (timer_fire h w)) = _id (core w).
Proof.
  destruct (timer_fire_cases h w) as [Hf|(sc & _ & _ & _ & Hc)].
  - by apply correlator_id.
  - unfold correlator in Hc. by injection Hc.
Qed.

Section Identifiers.

Context (P : Platform).

Lemma handleResponse_id data w :
  _id (core (snd (handleResponse P data w))) = _id (core w).
Proof.
  destruct (handleResponse_cases P data w) as [Hf|(payload & n & h & Hp & Hid & Hn & Hh)].
  - by apply correlator_id.
  - pose proof (handleResponse_resolves P data w payload n h Hp Hid Hn Hh) as Hc.
    unfold correlator in Hc. by injection Hc.
Qed.

Lemma on_message_id sid data w : _id (core (on_message P sid data w)) = _id (core w).
Proof.
  unfold on_message. destruct (sockets w !! sid) as [s|]; [|done].
  induction (message_listeners s) as [|n IH]; simpl; [done|].
  by rewrite handleResponse_id.
Qed.

(** A turn hands out no identifier and leaves the counter, or hands out the
    counter's next value and leaves the counter there. *)
Lemma step_identifier ev w :
  (identifier_of (fst (step P ev w)) (snd (step P ev w)) = []
   /\ _id (core (snd (step P ev w))) = _id (core w))
  \/ (identifier_of (fst (step P ev w)) (snd (step P ev w)) = [(_id (core w) + 1)%Z]
      /\ _id (core (snd (step P ev w))) = (_id (core w) + 1)%Z).
Proof.
  destruct ev as [c|v| |h a4 a6|sid|sid m|sid data| |url opts|cmd|cmd|h|ms]; simpl.
  - by left.
  - by left.
  - left. pose proof (connect_correlator P w) as H.
    destruct (connect P w) as [h w1]. split; [done|]. by apply correlator_id.
  - left. split; [done|]. apply correlator_id, dns_settled_correlator.
  - left. split; [done|]. apply correlator_id, on_open_correlator.
  - left. split; [done|]. apply correlator_id, on_error_correlator.
  - left. split; [done|]. apply on_message_id.
  - left. split; [done|]. apply correlator_id, close_correlator.
  - left. pose proof (reconnect_correlator P url opts w) as H.
    destruct (reconnect P url opts w) as [h w1]. split; [done|]. by apply correlator_id.
  - destruct (sendAsync_cases P cmd w) as [(e & -> & _)|(sid & w1 & _ & _ & -> & Hc)];
      [by left|right]. simpl. split; [done|].
    unfold correlator in Hc. by injection Hc.
  - destruct (send_cases P cmd w) as [(e & -> & _)|(w1 & -> & Hc)]; [by left|right]. simpl.
    unfold correlator in Hc. injection Hc as Hi _ Hs _ _.
    split; [|done]. rewrite Hs, lookup_app_r by done. by rewrite Nat.sub_diag.
  - left. split; [done|]. apply timer_fire_id.
  - by left.
Qed.

Lemma identifiers_cons ev evs w :
  identifiers P (ev :: evs) w
  = identifier_of (fst (step P ev w)) (snd (step P ev w))
    ++ identifiers P evs (snd (step P ev w)).
Proof. simpl. by destruct (step P ev w). Qed.

Lemma identifiers_app evs1 evs2 w :
  identifiers P (evs1 ++ evs2) w
  = identifiers P evs1 w ++ identifiers P evs2 (snd (run P evs1 w)).
Proof.
  revert w. induction evs1 as [|ev evs1 IH]; intros w; [done|].
  rewrite <- app_comm_cons, !identifiers_cons, run_cons, IH. by rewrite app_assoc.
Qed.

(** The identifiers of a run count up from the counter, and the counter
    ends on the last of them. *)
Lemma identifiers_count_up evs w :
  identifiers P evs w
  = seqZ (_id (core w) + 1) (Z.of_nat (length (identifiers P evs w)))
  /\ _id (core (snd (run P evs w)))
     = (_id (core w) + Z.of_nat (length (identifiers P evs w)))%Z.
Proof.
  revert w. induction evs as [|ev evs IH]; intros w.
  - simpl. split; [done|lia].
  - rewrite identifiers_cons, run_cons.
    destruct (IH (snd (step P ev w))) as [IH1 IH2].
    destruct (step_identifier ev w) as [[-> Hi]|[-> Hi]]; rewrite Hi in *; simpl.
    + done.
    + split.
      * rewrite seqZ_cons by lia. f_equal.
        rewrite IH1 at 1. f_equal; lia.
      * lia.
Qed.

End Identifiers.

Lemma sendAsync_keeps_connection (P : Platform) command w id w1 :
  sendAsync P command w = (Ret id, w1) ->
  _ws (core w1) = _ws (core w) /\ _isConnected (core w1) = _isConnected (core w).
Proof.
  unfold sendAsync, bind, gets, modify, ret, throw, lift, emit. simpl.
  destruct (_ws (core w)) as [sid|] eqn:Hws; [|done].
  destruct (_isConnected (core w)) eqn:Hc; [|done].
  destruct (parseBidiCommand (renderer P) command) as [rendering|e]; [|done].
  intros H. injection H as _ <-. by destruct (client (core w)).
Qed.

Lemma send_keeps_connection (P : Platform) command w h w1 :
  send P command w = (Ret h, w1) ->
  _ws (core w1) = _ws (core w) /\ _isConnected (core w1) = _isConnected (core w).
Proof.
  unfold send. unfold bind at 1.
  destruct (sendAsync P command w) as [[id|e] w0] eqn:Hs; [|done].
  apply sendAsync_keeps_connection in Hs.
  unfold bind, gets, modify, ret. simpl. intros H. injection H as _ <-. exact Hs.
Qed.

Section Counting.

Context (P : Platform).

(** On a connected session a typed command is not refused. *)
Lemma sendAsync_accepts c w e :
  is_Some (_ws (core w)) -> _isConnected (core w) = true -> typed c = true ->
  (e = NotConnectedError /\ (_ws (core w) = None \/ _isConnected (core w) = false))
  \/ parseBidiCommand (renderer P) c = Throw e ->
  False.
Proof.
  intros Hws Hc Ht [[_ [Hn|Hn]]|Hp].
  - rewrite Hn in Hws. by destruct Hws.
  - congruence.
  - destruct (typed_renders (renderer P) c Ht) as [r Hr]. congruence.
Qed.

Lemma identifiers_sendAsync cs w :
  is_Some (_ws (core w)) -> _isConnected (core w) = true ->
  Forall (fun c => typed c = true) cs ->
  identifiers P (map EvSendAsync cs) w
  = seqZ (_id (core w) + 1) (Z.of_nat (length cs)).
Proof.
  revert w. induction cs as [|c cs IH]; intros w Hws Hc Hty; [done|].
  apply Forall_cons in Hty as [Ht Hty].
  simpl map. rewrite identifiers_cons. simpl step.
  destruct (sendAsync_cases P c w) as [(e & _ & Hn)|(sid & w1 & _ & _ & Hs & Hcorr)].
  - by destruct (sendAsync_accepts c w e).
  - rewrite Hs. simpl.
    destruct (sendAsync_keeps_connection P c w _ w1 Hs) as [Hws1 Hc1].
    rewrite IH by (by rewrite ?Hws1, ?Hc1).
    unfold correlator in Hcorr. injection Hcorr as Hi _ _ _ _. rewrite Hi.
    rewrite (seqZ_cons _ (Z.of_nat (S (length cs)))) by lia.
    f_equal. f_equal; lia.
Qed.

Lemma identifiers_send cs w :
  is_Some (_ws (core w)) -> _isConnected (core w) = true ->
  Forall (fun c => typed c = true) cs ->
  identifiers P (map EvSend cs) w
  = seqZ (_id (core w) + 1) (Z.of_nat (length cs)).
Proof.
  revert w. induction cs as [|c cs IH]; intros w Hws Hc Hty; [done|].
  apply Forall_cons in Hty as [Ht Hty].
  simpl map. rewrite identifiers_cons.
  destruct (step_identifier P (EvSend c) w) as [[Hnone Hi]|[-> Hi]].
  - exfalso. revert Hnone. simpl.
    destruct (send_cases P c w) as [(e & _ & Hn)|(w1 & -> & Hcorr)].
    + by destruct (sendAsync_accepts c w e).
    + simpl. unfold correlator in Hcorr. injection Hcorr as _ _ Hs _ _.
      rewrite Hs, lookup_app_r by done. by rewrite Nat.sub_diag.
  - assert (_ws (core (snd (step P (EvSend c) w))) = _ws (core w)
            /\ _isConnected (core (snd (step P (EvSend c) w))) = _isConnected (core w))
      as [Hws1 Hc1].
    { simpl. destruct (send_cases P c w) as [(e & -> & _)|(w1 & Hs & _)]; [done|].
      rewrite Hs. simpl. by apply send_keeps_connection in Hs. }
    rewrite IH by (by rewrite ?Hws1, ?Hc1). rewrite Hi.
    rewrite (seqZ_cons _ (Z.of_nat (S (length cs)))) by lia.
    simpl. f_equal. f_equal; lia.
Qed.

End Counting.

(** C6. Identifiers start at 1 and count up by one, so they are strictly
    increasing and never used twice: the identifiers handed out along any
    run of a new BidiCore are 1, 2, ..., N in the order of the sends that
    were given one (a send that throws, for want of a connection or because
    its command cannot be rendered for the log, is given none and uses
    none up); and N commands sent on a connected session, by [send] or by
    [sendAsync], each with the parameters its type asks for, get the N
    values that follow the counter, which are 1, 2, ..., N when the counter
    stands at 0. *)
Theorem identifiers_count_from_one (P : Platform) url opts env evs cs w :
  identifiers P evs (initial url opts env)
  = seqZ 1 (Z.of_nat (length (identifiers P evs (initial url opts env))))
  /\ (is_Some (_ws (core w)) -> _isConnected (core w) = true ->
      Forall (fun c => typed c = true) cs ->
      identifiers P (map EvSend cs) w = seqZ (_id (core w) + 1) (Z.of_nat (length cs))
      /\ identifiers P (map EvSendAsync cs) w
         = seqZ (_id (core w) + 1) (Z.of_nat (length cs))).
Proof.
  split.
  - apply (identifiers_count_up P evs (initial url opts env)).
  - intros Hws Hc Hty. split.
    + by apply identifiers_send.
    + by apply identifiers_sendAsync.
Qed.

(** C10. Neither [close] nor [reconnect] touches the counter; along any run
    of a BidiCore, every identifier handed out after a [reconnect] is greater
    than every identifier handed out before it. *)
Theorem identifiers_increase_across_reconnect (P : Platform)
    url opts env evs1 url' opts' evs2 w :
  _id (core (close w)) = _id (core w)
  /\ _id (core (snd (reconnect P url' opts' w))) = _id (core w)
  /\ Forall (fun a =>
       Forall (fun b => (a < b)%Z)
              (identifiers P (EvReconnect url' opts' :: evs2)
                           (snd (run P evs1 (initial url opts env)))))
       (identifiers P evs1 (initial url opts env)).
Proof.
  split; [apply correlator_id, close_correlator|].
  split; [apply correlator_id, reconnect_correlator|].
  destruct (identifiers_count_up P evs1 (initial url opts env)) as [Hb Hid].
  destruct (identifiers_count_up P (EvReconnect url' opts' :: evs2)
              (snd (run P evs1 (initial url opts env)))) as [Ha _].
  rewrite Hid in Ha. rewrite Hb, Ha. simpl.
  apply Forall_forall. intros a Ha'%elem_of_seqZ.
  apply Forall_forall. intros b Hb'%elem_of_seqZ. lia.
Qed.

(** ** Sending without a connection *)

(** C7. When the session has no socket or is not connected, [sendAsync]
    throws the not-connected error and [send] is rejected with it, and the
    world is as it was: nothing is written to any socket, the counter keeps
    its value, the table gets no entry and no timer is set. *)
Lemma sendAsync_not_connected (P : Platform) command w :
  _ws (core w) = None \/ _isConnected (core w) = false ->
  sendAsync P command w = (Throw NotConnectedError, w).
Proof.
  unfold sendAsync, bind, gets, throw. simpl.
  intros [Hn|Hn]; rewrite Hn; [done|]. by destruct (_ws (core w)).
Qed.

Theorem send_not_connected (P : Platform) command w :
  _ws (core w) = None \/ _isConnected (core w) = false ->
  sendAsync P command w = (Throw NotConnectedError, w)
  /\ send P command w = (Throw NotConnectedError, w).
Proof.
  intros Hn.
  pose proof (sendAsync_not_connected P command w Hn) as Hs.
  split; [exact Hs|]. unfold send, bind. by rewrite Hs.
Qed.

(** ** Inbound messages *)

(** C8. A message whose text [JSON.parse] rejects: the handler returns
    (nothing is thrown out of it), writes the failure to the log, and leaves
    the table, the [send] activations (no promise is resolved or rejected, no
    timer is cleared), the deletions and the client alone. *)
Theorem handleResponse_malformed (P : Platform) data w :
  JSON_parse P data = None ->
  let w' := snd (handleResponse P data w) in
  fst (handleResponse P data w) = Ret tt
  /\ log w' = log w ++ [LogFailedParse (SyntaxError data)]
  /\ _pendingCommands (core w') = _pendingCommands (core w)
  /\ sends w' = sends w
  /\ deletions w' = deletions w
  /\ emitted w' = emitted w.
Proof.
  intros Hp. unfold handleResponse, try_catch, bind, lift, modify.
  rewrite Hp. simpl. done.
Qed.

(** C4, as the code has it. A message that parses to a value whose [id] is
    missing or falsy: the handler returns at once and the world is as it
    was. Nothing is sent to the attached client, nothing is logged, and the
    table is not touched. *)
Theorem handleResponse_without_id (P : Platform) data payload id w :
  JSON_parse P data = Some payload ->
  get_prop payload "id" = Ret id ->
  truthy id = false ->
  handleResponse P data w = (Ret tt, w).
Proof.
  intros Hp Hid Ht. unfold handleResponse, try_catch, bind, lift, ret.
  by rewrite Hp, Hid, Ht.
Qed.

(** ** Test mode *)

(** C9. With [WDIO_UNIT_TESTS] set, [connect] marks the session connected
    and makes no socket and no race; it leaves [#waitForConnected] as it
    was, so [waitForConnected()] gives what it gave before, which for a
    BidiCore that never really connected is the initial promise, resolved
    with [false]. *)
Theorem connect_in_test_mode (P : Platform) w :
  env_truthy (WDIO_UNIT_TESTS w) = true ->
  let w' := snd (connect P w) in
  isConnected w' = true
  /\ sockets w' = sockets w
  /\ races w' = races w
  /\ _waitForConnected (core w') = _waitForConnected (core w)
  /\ waitForConnected w' = waitForConnected w
  /\ (_waitForConnected (core w) = ResolvedFalse ->
      waitForConnected w' = FulfilledWith false).
Proof.
  intros Henv. unfold connect, connect_body. rewrite Henv. simpl.
  repeat split.
  intros Hw. unfold waitForConnected. simpl. by rewrite Hw.
Qed.

(** ** Connecting *)

(** With a candidate to wait for, [#connectWebsocket] makes its sockets and
    suspends. *)
Lemma connectWebsocket_suspends urls w :
  urls ≠ [] ->
  connectWebsocket urls w
  = (length (races w),
     upd_races (fun l => l ++ [{| candidateWebsockets := seq (length (sockets w)) (length urls);
                                  errorMessages := [];
                                  firstWebsocketConnected := false;
                                  race_result := None |}])
       (upd_sockets (fun l => l ++ map (fun url => new_socket url (_clientOptions (core w))
                                                     (length (races w))) urls) w)).
Proof.
  intros Hne. unfold connectWebsocket. f_equal.
  unfold settle_race. simpl.
  rewrite lookup_app_r by done. rewrite Nat.sub_diag. simpl.
  destruct urls as [|url urls]; [done|]. unfold all_settled. simpl.
  rewrite lookup_app_r by done. rewrite Nat.sub_diag. done.
Qed.

(** C5, as the code has it. [connect] on a connected session, the test-mode
    flag not set: the active socket and the connected flag stay as they are,
    but the call does not return early. It logs and reads the candidates.
    A text that is no URL: the promise is rejected, nothing else changes.
    A host that [isIP] accepts: one new socket is made for the URL in the
    same turn and [#waitForConnected] is replaced by the promise of the new
    race, which is pending. Any other host: the call waits for the two DNS
    lookups, with no socket made and [#waitForConnected] as it was; when
    the lookups are answered, either both gave addresses, and one new socket
    is made per candidate and [#waitForConnected] is replaced by the pending
    promise of the new race, or one of them failed, and the promise of
    [connect] is rejected, no socket is made and [#waitForConnected] is
    kept. The active socket and the flag are as they were after the
    lookups too. *)
Theorem connect_when_connected (P : Platform) w s :
  _ws (core w) = Some s ->
  _isConnected (core w) = true ->
  env_truthy (WDIO_UNIT_TESTS w) = false ->
  let h := fst (connect P w) in
  let w' := snd (connect P w) in
  _ws (core w') = Some s
  /\ _isConnected (core w') = true
  /\ log w' = log w ++ [LogConnecting (_webSocketUrl (core w))]
  /\ match listWebsocketCandidateUrls P w with
     | Ret (CandidatesReady candidateUrls) =>
         sockets w'
         = sockets w ++ map (fun url => new_socket url (_clientOptions (core w))
                                          (length (races w))) candidateUrls
         /\ candidateUrls = [_webSocketUrl (core w)]
         /\ _waitForConnected (core w') = OfRace (length (races w))
         /\ connect_promise h w' = Unsettled
     | Ret (DnsLookup hostname candidateUrls) =>
         connects w' !! h = Some (AwaitingDns hostname candidateUrls)
         /\ sockets w' = sockets w
         /\ _waitForConnected (core w') = _waitForConnected (core w)
         /\ candidateUrls = [_webSocketUrl (core w)]
         /\ forall a4 a6,
              let w'' := dns_settled P h a4 a6 w' in
              _ws (core w'') = Some s
              /\ _isConnected (core w'') = true
              /\ log w'' = log w'
              /\ match listWebsocketCandidateUrls_resume P hostname candidateUrls a4 a6 w
                 with
                 | Ret urls =>
                     sockets w''
                     = sockets w ++ map (fun url => new_socket url (_clientOptions (core w))
                                                      (length (races w))) urls
                     /\ _waitForConnected (core w'') = OfRace (length (races w))
                     /\ connect_promise h w'' = Unsettled
                 | Throw e =>
                     connect_promise h w'' = RejectedWith e
                     /\ sockets w'' = sockets w
                     /\ _waitForConnected (core w'') = _waitForConnected (core w)
                 end
     | Throw e =>
         connect_promise h w' = RejectedWith e
         /\ sockets w' = sockets w
         /\ _waitForConnected (core w') = _waitForConnected (core w)
     end.
Proof.
  intros Hws Hc Henv. unfold connect, connect_body. rewrite Henv.
  change (listWebsocketCandidateUrls P (write_log _ w))
    with (listWebsocketCandidateUrls P w).
  destruct (listWebsocketCandidateUrls P w) as [[urls|host urls]|e] eqn:Hl.
  - assert (urls = [_webSocketUrl (core w)]) as ->.
    { revert Hl. unfold listWebsocketCandidateUrls.
      destruct (URL_hostname P _); [|done].
      destruct (isIP P _ =? 0)%Z; congruence. }
    unfold connect_resume. rewrite connectWebsocket_suspends by done. simpl.
    repeat split; try done.
    unfold connect_promise. simpl.
    rewrite lookup_app_r by done. rewrite Nat.sub_diag. simpl.
    rewrite lookup_app_r by done. by rewrite Nat.sub_diag.
  - assert (urls = [_webSocketUrl (core w)]) as ->.
    { revert Hl. unfold listWebsocketCandidateUrls.
      destruct (URL_hostname P _); [|done].
      destruct (isIP P _ =? 0)%Z; congruence. }
    cbn [fst snd].
    split; [done|]. split; [done|]. split; [done|].
    split; [cbn; rewrite lookup_app_r by done; by rewrite Nat.sub_diag|].
    split; [done|]. split; [done|]. split; [done|].
    intros a4 a6. cbv zeta. unfold dns_settled.
    cbn [connects upd_connects write_log].
    rewrite lookup_app_r by done. rewrite Nat.sub_diag. cbn [lookup list_lookup].
    change (listWebsocketCandidateUrls_resume P host [_webSocketUrl (core w)] a4 a6
              (upd_connects _ (write_log _ w)))
      with (listWebsocketCandidateUrls_resume P host [_webSocketUrl (core w)] a4 a6 w).
    destruct (listWebsocketCandidateUrls_resume P host [_webSocketUrl (core w)] a4 a6 w)
      as [urls'|e] eqn:Hr.
    + assert (urls' ≠ []) as Hne.
      { revert Hr. unfold listWebsocketCandidateUrls_resume.
        destruct (Promise_all a4 a6); [|done].
        destruct (1 <? _); intros [= <-]; done. }
      unfold connect_resume. rewrite connectWebsocket_suspends by done. simpl.
      repeat split; try done.
      unfold connect_promise. simpl.
      rewrite list_lookup_insert_eq by (rewrite length_app; simpl; lia). simpl.
      rewrite lookup_app_r by done. by rewrite Nat.sub_diag.
    + simpl. repeat split; try done.
      unfold connect_promise. simpl.
      by rewrite list_lookup_insert_eq by (rewrite length_app; simpl; lia).
  - simpl. repeat split; try done.
    unfold connect_promise. simpl.
    rewrite lookup_app_r by done. by rewrite Nat.sub_diag.
Qed.


(** ** Losing a race *)

Lemma foldl_warn_log l w :
  log (foldl (fun w' m => write_log (LogWarn m) w') w l) = log w ++ map LogWarn l.
Proof.
  revert w. induction l as [|m l IH]; intros w; simpl.
  - by rewrite app_nil_r.
  - rewrite IH. simpl. by rewrite <- app_assoc.
Qed.

Lemma foldl_warn_rest l w :
  core (foldl (fun w' m => write_log (LogWarn m) w') w l) = core w
  /\ races (foldl (fun w' m => write_log (LogWarn m) w') w l) = races w
  /\ sockets (foldl (fun w' m => write_log (LogWarn m) w') w l) = sockets w.
Proof.
  revert w. induction l as [|m l IH]; intros w; simpl; [done|].
  destruct (IH (write_log (LogWarn m) w)) as (-> & -> & ->). done.
Qed.

Lemma forallb_false_elem {A} (f : A -> bool) (l : list A) x :
  x ∈ l -> f x = false -> forallb f l = false.
Proof.
  intros Hx Hf. destruct (forallb f l) eqn:Hall; [|done].
  rewrite forallb_forall in Hall.
  rewrite <- Hf. symmetry. apply Hall. by apply list_elem_of_In.
Qed.

Section LostRace.

Context (urls : list string) (w : World).

(** The first socket of the race, and the race. *)
Local Abbreviation first := (length (sockets w)).
Local Abbreviation rid := (length (races w)).

Lemma racing_start :
  urls ≠ [] -> _ws (core w) = None -> racing urls w [] (snd (connect_resume urls w)).
Proof.
  intros Hne Hws. unfold connect_resume.
  rewrite connectWebsocket_suspends by done. simpl.
  repeat split; try done.
  intros i url Hi. eexists. split.
  - simpl. rewrite lookup_app_r by lia.
    replace (first + i - first) with i by lia.
    change (map ?f urls) with (f <$> urls).
    rewrite list_lookup_fmap, Hi. reflexivity.
  - simpl. repeat split.
Qed.

(** The listener of ['error'] on a candidate that has not reported yet, up
    to the check of the race. *)
Lemma on_error_racing errs w' i url m :
  racing urls w errs w' -> urls !! i = Some url -> first + i ∉ errs.*1 ->
  exists w2,
    on_error (first + i) m w' = settle_race rid w2
    /\ racing urls w (errs ++ [(first + i, m)]) w2.
Proof.
  intros (Hws & Hwait & Hlog & Hraces & Hsocks) Hi Hnew.
  destruct (Hsocks i url Hi) as (s & Hs & Hurl & Hrace & Honce & Hset).
  rewrite bool_decide_true in Honce by done.
  unfold on_error. rewrite Hs, Honce, Hrace, Hurl.
  eexists. split; [reflexivity|].
  repeat split; simpl; try done.
  - rewrite Hraces.
    replace rid with (rid + 0) at 1 by lia.
    rewrite alter_app_r. simpl. f_equal. unfold race_after, race_push_error. simpl.
    f_equal. f_equal. change (map ?f ?l) with (f <$> l). rewrite fmap_app. simpl.
    f_equal. unfold warning_of. simpl.
    replace (first + i - first) with i by lia.
    by rewrite Hi.
  - intros j url' Hj.
    destruct (Hsocks j url' Hj) as (s' & Hs' & Hurl' & Hrace' & Honce' & Hset').
    destruct (decide (j = i)) as [->|Hne].
    + rewrite Hs in Hs'. injection Hs' as <-.
      exists (sock_settle (sock_fire_error s)). split.
      * by rewrite !list_lookup_alter_eq, Hs.
      * simpl. rewrite fmap_app. simpl.
        repeat split; try done.
        -- symmetry. apply bool_decide_false. intros Hn. apply Hn.
           apply elem_of_app. right. by apply list_elem_of_singleton.
        -- symmetry. apply bool_decide_true.
           apply elem_of_app. right. by apply list_elem_of_singleton.
    + exists s'. split.
      * rewrite !list_lookup_alter_ne by lia. done.
      * rewrite fmap_app. simpl. repeat split; try done.
        -- rewrite Honce'. apply bool_decide_ext.
           rewrite elem_of_app, list_elem_of_singleton. split; [|tauto].
           intros Hn [Hin|Heq]; [tauto|lia].
        -- rewrite Hset'. apply bool_decide_ext.
           rewrite elem_of_app, list_elem_of_singleton. split; [tauto|].
           intros [Hin|Heq]; [tauto|lia].
Qed.

Lemma settle_race_waiting errs w' j url :
  racing urls w errs w' -> urls !! j = Some url -> first + j ∉ errs.*1 ->
  settle_race rid w' = w'.
Proof.
  intros (Hws & Hwait & Hlog & Hraces & Hsocks) Hj Hnew.
  unfold settle_race. rewrite Hraces.
  rewrite lookup_app_r by lia.
  replace (rid - rid) with 0 by lia. simpl.
  destruct (Hsocks j url Hj) as (s & Hs & _ & _ & _ & Hset).
  rewrite bool_decide_false in Hset by done.
  unfold all_settled. simpl.
  rewrite (forallb_false_elem _ _ (first + j)); [done| |by rewrite Hs].
  apply elem_of_seq. apply lookup_lt_Some in Hj. lia.
Qed.

Lemma settle_race_lost errs w' :
  racing urls w errs w' ->
  (forall j url, urls !! j = Some url -> first + j ∈ errs.*1) ->
  lost urls w errs (settle_race rid w').
Proof.
  intros (Hws & Hwait & Hlog & Hraces & Hsocks) Hall.
  assert (races w' !! rid = Some (race_after urls w errs None)) as Hr.
  { rewrite Hraces. rewrite lookup_app_r by lia.
    by replace (rid - rid) with 0 by lia. }
  unfold settle_race. rewrite Hr. simpl.
  assert (all_settled (race_after urls w errs None) w' = true) as ->.
  { unfold all_settled. apply forallb_forall. intros sid Hsid%list_elem_of_In.
    apply elem_of_seq in Hsid.
    assert (sid - first < length urls) as Hlt by lia.
    apply lookup_lt_is_Some_2 in Hlt as [url Hurl].
    destruct (Hsocks _ url Hurl) as (s & Hs & _ & _ & _ & Hset).
    replace (first + (sid - first)) with sid in * by lia.
    rewrite Hs, Hset. apply bool_decide_true.
    rewrite <- (Nat.sub_add first sid) by lia.
    rewrite Nat.add_comm. by eapply Hall. }
  unfold connectWebsocket_resume. rewrite Hr, Hws.
  cbn [errorMessages race_after].
  destruct (foldl_warn_rest (map (warning_of urls w) errs) w') as (Hc & Hrs & Hss).
  repeat split; simpl.
  - by rewrite Hc.
  - by rewrite Hc.
  - rewrite foldl_warn_log, Hlog. simpl. by rewrite map_map.
  - rewrite Hrs, Hraces.
    replace rid with (rid + 0) at 1 by lia.
    by rewrite alter_app_r.
Qed.

Lemma errors_lose_race todo errs w' :
  racing urls w errs w' ->
  NoDup ((errs ++ todo).*1) ->
  (forall sid, sid ∈ (errs ++ todo).*1 <-> first <= sid < first + length urls) ->
  todo ≠ [] ->
  lost urls w (errs ++ todo) (foldl (fun w'' e => on_error (fst e) (snd e) w'') w' todo).
Proof.
  revert errs w'. induction todo as [|[sid m] todo IH]; intros errs w' Hr Hnd Hin Hne;
    [done|].
  assert (exists i, sid = first + i /\ i < length urls) as (i & -> & Hlt).
  { exists (sid - first).
    assert (first <= sid < first + length urls); [|lia].
    apply Hin. rewrite fmap_app. apply elem_of_app. right. simpl. left. }
  assert (first + i ∉ errs.*1) as Hnew.
  { rewrite fmap_app in Hnd. apply NoDup_app in Hnd as (_ & Hd & _).
    intros Hs. apply (Hd _ Hs). simpl. left. }
  apply lookup_lt_is_Some_2 in Hlt as [url Hurl].
  destruct (on_error_racing errs w' _ url m Hr Hurl Hnew) as (w2 & Hstep & Hr2).
  simpl foldl. rewrite Hstep.
  replace (errs ++ (first + i, m) :: todo)
    with ((errs ++ [(first + i, m)]) ++ todo) in *
    by (by rewrite <- app_assoc).
  destruct todo as [|[sid' m'] todo].
  - simpl. rewrite app_nil_r in *. apply settle_race_lost; [done|].
    intros j url' Hj. apply Hin. apply lookup_lt_Some in Hj. lia.
  - assert (exists j, sid' = first + j /\ j < length urls) as (j & -> & Hlt').
    { exists (sid' - first).
      assert (first <= sid' < first + length urls); [|lia].
      apply Hin. rewrite fmap_app. apply elem_of_app. right. simpl. left. }
    assert (first + j ∉ (errs ++ [(first + i, m)]).*1) as Hnew'.
    { rewrite fmap_app in Hnd. apply NoDup_app in Hnd as (_ & Hd & _).
      intros Hs. apply (Hd _ Hs). simpl. left. }
    apply lookup_lt_is_Some_2 in Hlt' as [url' Hurl'].
    rewrite (settle_race_waiting (errs ++ [(first + i, m)]) w2 j url'); try done.
    by apply IH.
Qed.

End LostRace.

(** C2, as the code has it. A race started with no active socket in which
    every one of the K candidates reports an error and none opens, the
    errors coming in any order: [#connectWebsocket] resolves with [false],
    and with it [#waitForConnected] and the promise of the [connect] call
    that started the race (it is fulfilled, not rejected); the session is
    not connected and has no socket; and the K causes, one message per
    candidate naming its URL and its error, are written to the log as
    warnings in the order the errors came. They are held by the race and
    given to the logger only; the caller gets [false]. *)
Theorem all_candidates_fail urls w (errs : list (nat * string)) :
  _ws (core w) = None ->
  urls ≠ [] ->
  map fst errs ≡ₚ seq (length (sockets w)) (length urls) ->
  let w1 := snd (connect_resume urls w) in
  let w2 := foldl (fun w' e => on_error (fst e) (snd e) w') w1 errs in
  fst (connect_resume urls w) = Racing (length (races w))
  /\ races w2 !! length (races w) = Some (race_after urls w errs (Some false))
  /\ waitForConnected w2 = FulfilledWith false
  /\ (forall h, connects w2 !! h = Some (Racing (length (races w))) ->
                connect_promise h w2 = FulfilledWith (Some false))
  /\ isConnected w2 = false
  /\ socket w2 = None
  /\ log w2 = log w ++ map (fun e => LogWarn (warning_of urls w e)) errs.
Proof.
  intros Hws Hne Hperm w1 w2.
  change (map fst errs) with (errs.*1) in Hperm.
  assert (lost urls w errs w2) as (Hws2 & Hc2 & Hwait2 & Hlog2 & Hraces2).
  { apply (errors_lose_race urls w errs [] w1).
    - by apply racing_start.
    - simpl. rewrite Hperm. apply NoDup_seq.
    - intros sid. simpl. rewrite Hperm. rewrite elem_of_seq. lia.
    - intros ->. apply Permutation_length in Hperm.
      rewrite length_seq in Hperm. simpl in Hperm. by destruct urls. }
  assert (races w2 !! length (races w) = Some (race_after urls w errs (Some false)))
    as Hr.
  { rewrite Hraces2, lookup_app_r by done. by rewrite Nat.sub_diag. }
  split; [done|]. split; [exact Hr|].
  split; [unfold waitForConnected; by rewrite Hwait2, Hr|].
  split; [intros h Hh; unfold connect_promise; by rewrite Hh, Hr|].
  done.
Qed.

(** * Examples *)

Example three_sends_outcomes :
  let w := snd (run Sample.node three_sends (initial literal_url None None)) in
  map sc_timer (sends w) = [Cleared; Fired; Armed]
  /\ deletions w = [{| del_key := 1; del_site := ByResponse; del_found := true |};
                    {| del_key := 2; del_site := ByTimeout; del_found := true |}]
  /\ map_to_list (_pendingCommands (core w)) = [(3%Z, 2)]
  /\ send_promise 0 w = FulfilledWith (JObj [("id", JNum 1); ("result", JObj [])])
  /\ send_promise 1 w = RejectedWith (TimedOutError create 2)
  /\ send_promise 2 w = Unsettled.
Proof. vm_compute. repeat split. Qed.

(** C1 at the first of the three commands. *)
Lemma waiter_state_of_answered_send :
  waiter_state
    (_pendingCommands (core (snd (run Sample.node three_sends (initial literal_url None None)))))
    (deletions (snd (run Sample.node three_sends (initial literal_url None None))))
    (now (snd (run Sample.node three_sends (initial literal_url None None))))
    0
    {| sc_id := 1; sc_command := create; sc_deadline := 60000; sc_timer := Cleared;
       sc_promise := Resolved (JObj [("id", JNum 1); ("result", JObj [])]) |}.
Proof.
  refine (proj1 (pending_waiter_removed_exactly_once Sample.node literal_url None None
                   three_sends 0 _ _)).
  vm_compute. reflexivity.
Defined.

(** C6 at three commands on the connected session. *)
Lemma three_sends_on_connected_session :
  identifiers Sample.node (map EvSend [create; create; create]) connected = [1; 2; 3]%Z
  /\ identifiers Sample.node (map EvSendAsync [create; create; create]) connected
     = [1; 2; 3]%Z.
Proof.
  refine (proj2 (identifiers_count_from_one Sample.node literal_url None None []
                   [create; create; create] connected) _ _ _).
  - exists 0. vm_compute. reflexivity.
  - vm_compute. reflexivity.
  - repeat constructor.
Defined.

(** A command that cannot be rendered is given no identifier and uses none
    up: [script.callFunction] without a [functionDeclaration] throws in
    [parseBidiCommand], before the counter is touched. *)
Example identifiers_skip_a_refused_command :
  identifiers Sample.node (map EvSendAsync [create; bad_call; create]) connected
  = [1; 2]%Z
  /\ fst (run Sample.node (map EvSendAsync [create; bad_call; create]) connected)
     = [Identifier 1; Raised TypeError; Identifier 2].
Proof. vm_compute. repeat split. Qed.

Example identifiers_after_reconnect :
  identifiers Sample.node
    [EvConnect; EvOpen 0; EvSend create; EvSendAsync create;
     EvReconnect literal_url None; EvOpen 1; EvSend create; EvClose; EvSendAsync create]
    (initial literal_url None None)
  = [1; 2; 3]%Z.
Proof. vm_compute. reflexivity. Qed.

(** C7 at a BidiCore that never connected. *)
Lemma send_before_connect :
  sendAsync Sample.node create (initial literal_url None None)
  = (Throw NotConnectedError, initial literal_url None None)
  /\ send Sample.node create (initial literal_url None None)
     = (Throw NotConnectedError, initial literal_url None None).
Proof.
  apply (send_not_connected Sample.node create (initial literal_url None None)).
  left. reflexivity.
Defined.

(** C8 at a text that is no JSON. *)
Lemma malformed_message_example :
  fst (handleResponse Sample.node "not json" connected) = Ret tt
  /\ log (snd (handleResponse Sample.node "not json" connected))
     = log connected ++ [LogFailedParse (SyntaxError "not json")]
  /\ _pendingCommands (core (snd (handleResponse Sample.node "not json" connected)))
     = _pendingCommands (core connected)
  /\ sends (snd (handleResponse Sample.node "not json" connected)) = sends connected
  /\ deletions (snd (handleResponse Sample.node "not json" connected))
     = deletions connected
  /\ emitted (snd (handleResponse Sample.node "not json" connected)) = emitted connected.
Proof.
  apply (handleResponse_malformed Sample.node "not json" connected).
  vm_compute. reflexivity.
Defined.

(** C4 as stated does not hold: a client is attached, the message
    parses and has no [id], and the handler sends the client nothing. *)
Lemma event_message_is_not_forwarded :
  JSON_parse Sample.node event_text
  = Some (JObj [("method", JStr "log.entryAdded"); ("params", JObj [])])
  /\ client (core observed) = Some 7
  /\ emitted (snd (handleResponse Sample.node event_text observed)) = [].
Proof. vm_compute. repeat split. Qed.

(** The handler at the same message, as the code has it. *)
Lemma event_message_example :
  handleResponse Sample.node event_text observed = (Ret tt, observed).
Proof.
  apply (handleResponse_without_id Sample.node event_text
           (JObj [("method", JStr "log.entryAdded"); ("params", JObj [])]) JUndefined).
  - vm_compute. reflexivity.
  - reflexivity.
  - reflexivity.
Defined.

(** C9 at a new BidiCore with [WDIO_UNIT_TESTS=1]. *)
Lemma test_mode_example :
  isConnected (snd (connect Sample.node (initial literal_url None (Some "1")))) = true
  /\ sockets (snd (connect Sample.node (initial literal_url None (Some "1")))) = []
  /\ waitForConnected (snd (connect Sample.node (initial literal_url None (Some "1"))))
     = FulfilledWith false.
Proof.
  destruct (connect_in_test_mode Sample.node (initial literal_url None (Some "1")) eq_refl)
    as (H1 & H2 & _ & _ & _ & H3).
  split; [exact H1|]. split; [exact H2|]. apply H3. reflexivity.
Defined.

(** C5 as stated does not hold: [connect] on the connected session
    makes a second socket and puts a new, unsettled promise in
    [#waitForConnected]. *)
Lemma connect_again_opens_a_socket :
  isConnected connected = true
  /\ socket connected = Some 0
  /\ length (sockets connected) = 1
  /\ length (sockets (snd (connect Sample.node connected))) = 2
  /\ waitForConnected connected = FulfilledWith true
  /\ waitForConnected (snd (connect Sample.node connected)) = Unsettled.
Proof. vm_compute. repeat split. Qed.

(** [connect] on the connected session, as the code has it; and on a
    session connected to a domain endpoint, where the sockets are made when
    the lookups are answered, or none is when a lookup fails. *)
Lemma connect_again_example :
  _ws (core (snd (connect Sample.node connected))) = Some 0
  /\ _isConnected (core (snd (connect Sample.node connected))) = true
  /\ log (snd (connect Sample.node connected))
     = log connected ++ [LogConnecting literal_url]
  /\ length (sockets (snd (connect Sample.node connected_domain)))
     = length (sockets connected_domain)
  /\ map sock_url
       (sockets (dns_settled Sample.node 1 (Addresses ["10.0.0.1"; "10.0.0.2"])
                   (Addresses []) (snd (connect Sample.node connected_domain))))
     = domain_url :: three_candidates
  /\ socket (dns_settled Sample.node 1 (Addresses ["10.0.0.1"; "10.0.0.2"])
               (Addresses []) (snd (connect Sample.node connected_domain)))
     = Some 0
  /\ connect_promise 1
       (dns_settled Sample.node 1 (Addresses ["10.0.0.1"; "10.0.0.2"])
          (DnsFailure "ENODATA") (snd (connect Sample.node connected_domain)))
     = RejectedWith (DnsRejected "ENODATA")
  /\ sockets (dns_settled Sample.node 1 (Addresses ["10.0.0.1"; "10.0.0.2"])
                (DnsFailure "ENODATA") (snd (connect Sample.node connected_domain)))
     = sockets connected_domain.
Proof.
  assert (_ws (core connected) = Some 0) as Hws by (vm_compute; reflexivity).
  assert (_isConnected (core connected) = true) as Hc by (vm_compute; reflexivity).
  assert (env_truthy (WDIO_UNIT_TESTS connected) = false) as He
    by (vm_compute; reflexivity).
  destruct (connect_when_connected Sample.node connected 0 Hws Hc He)
    as (H1 & H2 & H3 & _).
  split; [exact H1|]. split; [exact H2|]. split; [exact H3|].
  assert (_ws (core connected_domain) = Some 0) as Hws' by (vm_compute; reflexivity).
  assert (_isConnected (core connected_domain) = true) as Hc'
    by (vm_compute; reflexivity).
  assert (env_truthy (WDIO_UNIT_TESTS connected_domain) = false) as He'
    by (vm_compute; reflexivity).
  pose proof (connect_when_connected Sample.node connected_domain 0 Hws' Hc' He') as H.
  cbv zeta in H. destruct H as (_ & _ & _ & H4).
  assert (listWebsocketCandidateUrls Sample.node connected_domain
          = Ret (DnsLookup "example.test" [domain_url])) as Hl
    by (vm_compute; reflexivity).
  rewrite Hl in H4. destruct H4 as (_ & H5 & _ & _ & H6).
  split; [by rewrite H5|].
  pose proof (H6 (Addresses ["10.0.0.1"; "10.0.0.2"]) (Addresses [])) as Hok.
  pose proof (H6 (Addresses ["10.0.0.1"; "10.0.0.2"]) (DnsFailure "ENODATA")) as Hko.
  cbv zeta in Hok, Hko.
  assert (listWebsocketCandidateUrls_resume Sample.node "example.test" [domain_url]
            (Addresses ["10.0.0.1"; "10.0.0.2"]) (Addresses []) connected_domain
          = Ret three_candidates) as Hr1 by (vm_compute; reflexivity).
  assert (listWebsocketCandidateUrls_resume Sample.node "example.test" [domain_url]
            (Addresses ["10.0.0.1"; "10.0.0.2"]) (DnsFailure "ENODATA") connected_domain
          = Throw (DnsRejected "ENODATA")) as Hr2 by (vm_compute; reflexivity).
  rewrite Hr1 in Hok. rewrite Hr2 in Hko.
  destruct Hok as (Hws1 & _ & _ & Hs1 & _).
  destruct Hko as (_ & _ & _ & Hp2 & Hs2 & _).
  split.
  { change (fst (connect Sample.node connected_domain)) with 1 in Hs1.
    rewrite Hs1. vm_compute. reflexivity. }
  split; [exact Hws1|]. split; [exact Hp2|exact Hs2].
Defined.



(** C2 as stated does not hold: all three candidates fail, and the
    promise of [connect] is fulfilled with [false]; the three causes are in
    the log. *)
Lemma failed_race_resolves_false :
  connect_promise 0 lost_race = FulfilledWith (Some false)
  /\ log lost_race
     = [LogConnecting "ws://example.test:9222/session";
        LogWarn "Couldn't connect to Bidi protocol at ws://10.0.0.1:9222/session: ECONNREFUSED";
        LogWarn "Couldn't connect to Bidi protocol at ws://example.test:9222/session: ENOTFOUND";
        LogWarn "Couldn't connect to Bidi protocol at ws://10.0.0.2:9222/session: EHOSTUNREACH"].
Proof. vm_compute. repeat split. Qed.

(** The lost race of three candidates, as the code has it. *)
Lemma failed_race_example :
  waitForConnected
    (foldl (fun w' e => on_error (fst e) (snd e) w')
           (snd (connect_resume three_candidates (initial domain_url None None)))
           three_errors)
  = FulfilledWith false
  /\ log (foldl (fun w' e => on_error (fst e) (snd e) w')
                (snd (connect_resume three_candidates (initial domain_url None None)))
                three_errors)
     = [LogWarn "Couldn't connect to Bidi protocol at ws://10.0.0.1:9222/session: ECONNREFUSED";
        LogWarn "Couldn't connect to Bidi protocol at ws://example.test:9222/session: ENOTFOUND";
        LogWarn "Couldn't connect to Bidi protocol at ws://10.0.0.2:9222/session: EHOSTUNREACH"].
Proof.
  assert (map fst three_errors
          ≡ₚ seq (length (sockets (initial domain_url None None))) (length three_candidates))
    as Hperm by apply perm_swap.
  assert (three_candidates ≠ []) as Hne by discriminate.
  destruct (all_candidates_fail three_candidates (initial domain_url None None)
              three_errors eq_refl Hne Hperm)
    as (_ & _ & H1 & _ & _ & _ & H2).
  split; [exact H1|exact H2].
Defined.

(** * Further properties of the code *)

(** ** The active socket *)

Lemma foldl_keeps {A B} (proj : World -> B) (f : World -> A -> World) (l : list A) w :
  (forall w' a, proj (f w' a) = proj w') -> proj (foldl f w l) = proj w.
Proof.
  intros Hf. revert w. induction l as [|a l IH]; intros w; simpl; [done|].
  rewrite IH. apply Hf.
Qed.

Lemma connectWebsocket_resume_ws r w :
  _ws (core (connectWebsocket_resume r w)) = _ws (core w).
Proof.
  unfold connectWebsocket_resume.
  destruct (races w !! r) as [race|]; [|done].
  destruct (_ws (core w)) as [active|] eqn:Hws; simpl.
  - rewrite (foldl_keeps (fun w => _ws (core w))); done.
  - rewrite (foldl_keeps (fun w => _ws (core w))); done.
Qed.

Lemma connectWebsocket_resume_connected r w a :
  _ws (core w) = Some a -> _isConnected (core w) = true ->
  _isConnected (core (connectWebsocket_resume r w)) = true.
Proof.
  intros Hws Hc. unfold connectWebsocket_resume.
  destruct (races w !! r) as [race|]; [|done].
  rewrite Hws. done.
Qed.

Lemma settle_race_ws r w : _ws (core (settle_race r w)) = _ws (core w).
Proof.
  unfold settle_race.
  destruct (races w !! r) as [race|]; [|done].
  destruct (race_result race); [done|].
  destruct (firstWebsocketConnected race || all_settled race w); [|done].
  apply connectWebsocket_resume_ws.
Qed.

Lemma settle_race_connected r w a :
  _ws (core w) = Some a -> _isConnected (core w) = true ->
  _isConnected (core (settle_race r w)) = true.
Proof.
  intros Hws Hc. unfold settle_race.
  destruct (races w !! r) as [race|]; [|done].
  destruct (race_result race); [done|].
  destruct (firstWebsocketConnected race || all_settled race w); [|done].
  by eapply connectWebsocket_resume_connected.
Qed.

Lemma settle_race_connection r w a :
  connection w = (Some a, true) -> connection (settle_race r w) = (Some a, true).
Proof.
  unfold connection. intros H. injection H as Hws Hc.
  by rewrite settle_race_ws, (settle_race_connected r w a), Hws.
Qed.

Lemma on_open_connection sid w a :
  connection w = (Some a, true) -> connection (on_open sid w) = (Some a, true).
Proof.
  intros H. unfold on_open.
  destruct (sockets w !! sid) as [s|]; [|done].
  destruct (once_open s); [|done].
  apply settle_race_connection.
  unfold connection in *. injection H as Hws Hc. simpl. rewrite Hws. simpl.
  by rewrite Hws, Hc.
Qed.

Lemma on_error_connection sid m w a :
  connection w = (Some a, true) -> connection (on_error sid m w) = (Some a, true).
Proof.
  intros H. unfold on_error.
  destruct (sockets w !! sid) as [s|]; [|done].
  destruct (once_error s); [|done].
  by apply settle_race_connection.
Qed.

Lemma connect_resume_connection urls w a :
  connection w = (Some a, true) ->
  connection (snd (connect_resume urls w)) = (Some a, true).
Proof.
  intros H. unfold connection in *. injection H as Hws Hc.
  unfold connect_resume, connectWebsocket. simpl.
  rewrite settle_race_ws. simpl.
  rewrite (settle_race_connected _ _ a); [by rewrite Hws|done|done].
Qed.

Lemma timer_fire_connection h w : connection (timer_fire h w) = connection w.
Proof.
  unfold timer_fire.
  destruct (sends w !! h) as [sc|]; [|done].
  destruct (sc_timer sc); try done.
  by destruct (sc_deadline sc <=? now w)%Z.
Qed.

Section Connection.

Context (P : Platform).

Lemma handleResponse_connection data w :
  connection (snd (handleResponse P data w)) = connection w.
Proof.
  unfold handleResponse, try_catch, bind, lift, gets, modify, ret.
  destruct (JSON_parse P data) as [payload|]; [|done].
  destruct (get_prop payload "id") as [id|]; [|done].
  destruct (truthy id); simpl; [|done].
  unfold emit. simpl.
  destruct (client (core w)); simpl;
    (destruct (Map_get _ id) as [h|]; [|done]); by destruct id.
Qed.

Lemma on_message_connection sid data w :
  connection (on_message P sid data w) = connection w.
Proof.
  unfold on_message. destruct (sockets w !! sid) as [s|]; [|done].
  induction (message_listeners s) as [|n IH]; simpl; [done|].
  by rewrite handleResponse_connection.
Qed.

Lemma connect_connection w a :
  connection w = (Some a, true) -> connection (snd (connect P w)) = (Some a, true).
Proof.
  intros H. unfold connect, connect_body.
  destruct (env_truthy (WDIO_UNIT_TESTS w)).
  - unfold connection in *. simpl. by injection H as -> _.
  - destruct (listWebsocketCandidateUrls P _) as [[urls|host urls]|e]; try done.
    pose proof (connect_resume_connection urls
                  (write_log (LogConnecting (_webSocketUrl (core w))) w) a H) as Hc.
    by destruct (connect_resume urls _).
Qed.

Lemma dns_settled_connection h a4 a6 w a :
  connection w = (Some a, true) ->
  connection (dns_settled P h a4 a6 w) = (Some a, true).
Proof.
  intros H. unfold dns_settled.
  destruct (connects w !! h) as [[|host urls|r|e]|]; try done.
  destruct (listWebsocketCandidateUrls_resume P host urls a4 a6 w) as [urls'|e]; [|done].
  pose proof (connect_resume_connection urls' w a H) as Hc.
  by destruct (connect_resume urls' w).
Qed.

End Connection.

(** X1. A connected session stays connected, on the same socket, through
    every turn that is not [close] or [reconnect]: further [connect] calls,
    DNS answers, ['open'] and ['error'] events of any socket (also of the
    active one), messages, sends and timers all leave [#ws] and the
    connected flag as they are. The code never marks the session
    disconnected by itself. *)
Theorem connection_kept_until_close (P : Platform) ev w a :
  _ws (core w) = Some a ->
  _isConnected (core w) = true ->
  closes ev = false ->
  _ws (core (snd (step P ev w))) = Some a
  /\ _isConnected (core (snd (step P ev w))) = true.
Proof.
  intros Hws Hc Hev.
  assert (connection w = (Some a, true)) as H by (unfold connection; by rewrite Hws, Hc).
  assert (connection (snd (step P ev w)) = (Some a, true)) as H'.
  { destruct ev as [c|v| |h a4 a6|sid|sid m|sid data| |url opts|cmd|cmd|h|ms];
      simpl; try done.
    - pose proof (connect_connection P w a H) as Hcc.
      by destruct (connect P w).
    - by apply dns_settled_connection.
    - by apply on_open_connection.
    - by apply on_error_connection.
    - by rewrite on_message_connection.
    - destruct (sendAsync_cases P cmd w) as [(e & -> & _)|(sid & w1 & _ & _ & Hs & _)]; [done|].
      rewrite Hs. simpl. apply sendAsync_keeps_connection in Hs as [H1 H2].
      unfold connection. by rewrite H1, H2, Hws, Hc.
    - destruct (send_cases P cmd w) as [(e & -> & _)|(w1 & Hs & _)]; [done|].
      rewrite Hs. simpl. apply send_keeps_connection in Hs as [H1 H2].
      unfold connection. by rewrite H1, H2, Hws, Hc.
    - by rewrite timer_fire_connection. }
  unfold connection in H'. by injection H' as -> ->.
Qed.

(** ** Closing *)

Lemma close_disconnected w : _isConnected (core w) = false -> close w = w.
Proof. intros H. unfold close. by rewrite H. Qed.

Lemma close_unfold w sid :
  _isConnected (core w) = true -> _ws (core w) = Some sid ->
  close w
  = upd_core (set_ws None)
      (upd_sockets (alter sock_terminate sid)
         (upd_sockets (alter sock_close sid)
            (upd_core (set_isConnected false)
               (write_log (LogClose (_webSocketUrl (core w))) w)))).
Proof. intros Hc Hws. unfold close. rewrite Hc. simpl. by rewrite Hws. Qed.

Lemma close_clears_flag w : _isConnected (core (close w)) = false.
Proof.
  unfold close. destruct (_isConnected (core w)) eqn:Hc; simpl; [|done].
  by destruct (_ws (core w)).
Qed.

(** X2. [close] on a connected session with an active socket: the flag is
    cleared and [#ws] unset, the socket gets one [close()] and one
    [terminate()] and keeps its ['message'] listener (the [off] call removes
    nothing), every other socket is untouched, one line is logged; the
    pending-commands table and the [send] activations with their timers are
    left as they are, and the counter too. Closing again changes nothing. *)
Theorem close_connected w sid s :
  _isConnected (core w) = true ->
  _ws (core w) = Some sid ->
  sockets w !! sid = Some s ->
  isConnected (close w) = false
  /\ socket (close w) = None
  /\ sockets (close w) = <[sid := sock_terminate (sock_close s)]> (sockets w)
  /\ message_listeners (sock_terminate (sock_close s)) = message_listeners s
  /\ log (close w) = log w ++ [LogClose (_webSocketUrl (core w))]
  /\ correlator (close w) = correlator w
  /\ close (close w) = close w.
Proof.
  intros Hc Hws Hs.
  assert (close w
          = upd_core (set_ws None)
              (upd_sockets (alter sock_terminate sid)
                 (upd_sockets (alter sock_close sid)
                    (upd_core (set_isConnected false)
                       (write_log (LogClose (_webSocketUrl (core w))) w))))) as Heq.
  { unfold close. rewrite Hc. simpl. by rewrite Hws. }
  assert (close (close w) = close w) as Hidem
    by apply close_disconnected, close_clears_flag.
  rewrite Hidem, Heq. unfold isConnected, socket. simpl.
  repeat split.
  rewrite (list_alter_as_insert _ _ _ _ Hs).
  erewrite list_alter_as_insert
    by (apply list_lookup_insert_eq; by eapply lookup_lt_Some).
  by rewrite list_insert_insert_eq.
Qed.

(** X3. After [close], whatever the session was, [sendAsync] throws the
    not-connected error and [send] is rejected with it, and neither changes
    anything. *)
Theorem send_after_close (P : Platform) command w :
  sendAsync P command (close w) = (Throw NotConnectedError, close w)
  /\ send P command (close w) = (Throw NotConnectedError, close w).
Proof.
  assert (sendAsync P command (close w) = (Throw NotConnectedError, close w)) as Hs.
  { apply sendAsync_not_connected. right. apply close_clears_flag. }
  split; [exact Hs|]. unfold send, bind. by rewrite Hs.
Qed.

(** X4. Test mode does not make a session that can send: after [connect]
    under [WDIO_UNIT_TESTS] on a BidiCore without a socket, [isConnected] is
    true and yet [sendAsync] throws the not-connected error and [send] is
    rejected with it, because [#ws] is still unset. *)
Theorem send_in_test_mode (P : Platform) command w :
  env_truthy (WDIO_UNIT_TESTS w) = true ->
  _ws (core w) = None ->
  isConnected (snd (connect P w)) = true
  /\ sendAsync P command (snd (connect P w)) = (Throw NotConnectedError, snd (connect P w))
  /\ send P command (snd (connect P w)) = (Throw NotConnectedError, snd (connect P w)).
Proof.
  intros Henv Hws.
  assert (_ws (core (snd (connect P w))) = None) as Hws'.
  { unfold connect, connect_body. rewrite Henv. simpl. exact Hws. }
  split; [unfold connect, connect_body; by rewrite Henv|].
  assert (sendAsync P command (snd (connect P w))
          = (Throw NotConnectedError, snd (connect P w))) as Hs.
  { apply sendAsync_not_connected. by left. }
  split; [exact Hs|]. unfold send, bind. by rewrite Hs.
Qed.

(** ** Reconnecting *)


(** ** Winning a race *)

Lemma foldl_close_sockets l w k :
  NoDup l ->
  sockets (foldl (fun w' sid => upd_sockets (alter sock_close sid) w') w l) !! k
  = if decide (k ∈ l) then sock_close <$> sockets w !! k else sockets w !! k.
Proof.
  revert w. induction l as [|x l IH]; intros w Hnd.
  - destruct (decide (k ∈ [])) as [Hin|_]; [|done]. by apply not_elem_of_nil in Hin.
  - apply NoDup_cons in Hnd as [Hx Hnd].
    cbn [foldl]. rewrite IH by done. cbn [sockets upd_sockets].
    destruct (decide (k = x)) as [->|Hne].
    + destruct (decide (x ∈ l)); [done|].
      destruct (decide (x ∈ x :: l)) as [_|Hn]; [|exfalso; apply Hn; left].
      by rewrite list_lookup_alter_eq.
    + rewrite list_lookup_alter_ne by done.
      destruct (decide (k ∈ l)) as [Hin|Hnin];
        destruct (decide (k ∈ x :: l)) as [Hin'|Hnin']; try done.
      * exfalso. apply Hnin'. by right.
      * by apply elem_of_cons in Hin' as [?|?].
Qed.

(** X6. The first candidate to open wins the race. In a race started with
    no active socket, when candidate [i] of K is the first to emit ['open']:
    it becomes the active socket and gets the ['message'] listener, the
    connection is logged with its URL, every other candidate of the race gets
    one [close()] (the winner none) and no listener, the sockets made before
    the race are untouched, the session is connected, and
    [waitForConnected()] resolves with [true]. *)
Theorem first_open_wins urls w i url :
  _ws (core w) = None ->
  urls !! i = Some url ->
  let w2 := on_open (length (sockets w) + i) (snd (connect_resume urls w)) in
  socket w2 = Some (length (sockets w) + i)
  /\ isConnected w2 = true
  /\ waitForConnected w2 = FulfilledWith true
  /\ log w2 = log w ++ [LogConnected url]
  /\ (forall j u, urls !! j = Some u ->
        exists s, sockets w2 !! (length (sockets w) + j) = Some s
                  /\ sock_url s = u
                  /\ close_calls s = (if decide (j = i) then 0 else 1)
                  /\ message_listeners s = (if decide (j = i) then 1 else 0))
  /\ (forall k, k < length (sockets w) -> sockets w2 !! k = sockets w !! k).
Proof.
  intros Hws Hi w2.
  assert (urls ≠ []) as Hne by (intros ->; done).
  subst w2. unfold connect_resume. rewrite connectWebsocket_suspends by done.
  cbn [snd].
  set (n := length (sockets w) + i).
  set (r := length (races w)).
  set (made := map (fun u => new_socket u (_clientOptions (core w)) r) urls).
  assert (forall j u, urls !! j = Some u ->
            (sockets w ++ made) !! (length (sockets w) + j)
            = Some (new_socket u (_clientOptions (core w)) r)) as Hmade.
  { intros j u Hj. rewrite lookup_app_r by lia.
    replace (length (sockets w) + j - length (sockets w)) with j by lia.
    subst made. change (map ?f urls) with (f <$> urls).
    by rewrite list_lookup_fmap, Hj. }
  pose proof (Hmade i url Hi) as Hn. fold n in Hn.
  unfold on_open. simpl. fold made. rewrite Hn. simpl. rewrite Hws.
  unfold settle_race. simpl.
  rewrite list_lookup_alter_eq, lookup_app_r by done. rewrite Nat.sub_diag. simpl.
  unfold connectWebsocket_resume. simpl.
  rewrite list_lookup_alter_eq, lookup_app_r by done. rewrite Nat.sub_diag. simpl.
  fold n r.
  set (others := filter (fun sid => sid ≠ n) (seq (length (sockets w)) (length urls))).
  assert (NoDup others) as Hnd by apply NoDup_filter, NoDup_seq.
  unfold socket, isConnected, waitForConnected. simpl.
  rewrite (foldl_keeps (fun w => _waitForConnected (core w))) by done.
  rewrite (foldl_keeps (fun w => _ws (core w))) by done.
  rewrite (foldl_keeps log) by done.
  rewrite (foldl_keeps races) by done. simpl.
  split; [done|]. split; [done|].
  split.
  { subst r. rewrite list_lookup_alter_eq, list_lookup_alter_eq, lookup_app_r by done.
    by rewrite Nat.sub_diag. }
  split; [done|].
  split.
  - intros j u Hj. rewrite foldl_close_sockets by done. simpl.
    assert (length (sockets w) + j ∈ others <-> j ≠ i) as Hin.
    { subst others. rewrite list_elem_of_filter, elem_of_seq.
      apply lookup_lt_Some in Hj. subst n. split; [intros [? _]; lia|intros; lia]. }
    destruct (decide (j = i)) as [->|Hji].
    + rewrite decide_False by (rewrite Hin; tauto).
      fold n. rewrite !list_lookup_alter_eq, Hn. simpl.
      eexists. split; [reflexivity|]. simpl.
      rewrite Hi in Hj. by injection Hj as ->.
    + rewrite decide_True by (by rewrite Hin).
      rewrite !list_lookup_alter_ne by (subst n; lia).
      rewrite (Hmade j u Hj). simpl.
      eexists. split; [reflexivity|]. done.
  - intros k Hk. rewrite foldl_close_sockets by done. simpl.
    rewrite decide_False.
    + rewrite !list_lookup_alter_ne by (subst n; lia).
      by rewrite lookup_app_l.
    + subst others. rewrite list_elem_of_filter, elem_of_seq. lia.
Qed.

(** ** The candidates of an endpoint *)

Lemma connect_resume_suspends urls w :
  urls ≠ [] ->
  connect_resume urls w
  = (Racing (length (races w)),
     upd_core (set_waitForConnected (OfRace (length (races w))))
       (upd_races (fun l => l ++ [{| candidateWebsockets :=
                                       seq (length (sockets w)) (length urls);
                                     errorMessages := [];
                                     firstWebsocketConnected := false;
                                     race_result := None |}])
          (upd_sockets (fun l => l ++ map (fun url => new_socket url (_clientOptions (core w))
                                                        (length (races w))) urls) w))).
Proof.
  intros Hne. unfold connect_resume. by rewrite connectWebsocket_suspends.
Qed.

(** X7. The candidates of an endpoint that is looked up. [connect] to a URL
    whose hostname [isIP] does not accept (its result is 0), both lookups
    resolving: one socket is made per candidate, in this order: first the
    URL as it is, then, only when the two lookups give two or more addresses
    in all, for each address what [url.replace(hostname, address)] returns,
    IPv4 answers before IPv6 answers, duplicates kept. What [replace]
    rewrites is up to [String.prototype.replace]: the first place the text
    of the hostname is found in the URL, which need not be the host. With no
    address or one address the URL as it is is the only candidate. All
    sockets get the current options, and [#waitForConnected] becomes the
    promise of this race. *)
Theorem candidates_of_domain (P : Platform) w hostname l4 l6 :
  env_truthy (WDIO_UNIT_TESTS w) = false ->
  URL_hostname P (_webSocketUrl (core w)) = Some hostname ->
  isIP P hostname = 0%Z ->
  let url := _webSocketUrl (core w) in
  let h := fst (connect P w) in
  let w' := dns_settled P h (Addresses l4) (Addresses l6) (snd (connect P w)) in
  sockets w'
  = sockets w
    ++ map (fun u => new_socket u (_clientOptions (core w)) (length (races w)))
           (url :: (if 1 <? length (l4 ++ l6)
                    then map (fun ip => String_replace P url hostname ip) (l4 ++ l6)
                    else []))
  /\ _waitForConnected (core w') = OfRace (length (races w))
  /\ connects w' !! h = Some (Racing (length (races w)))
  /\ connect_promise h w' = Unsettled.
Proof.
  intros Henv Hhost Hip url h w'.
  assert (connect P w
          = (length (connects w),
             upd_connects (fun l => l ++ [AwaitingDns hostname [url]])
               (write_log (LogConnecting url) w))) as Hconnect.
  { unfold connect, connect_body, listWebsocketCandidateUrls. rewrite Henv. simpl.
    by rewrite Hhost, Hip. }
  subst h w'. rewrite Hconnect. cbn [fst snd].
  assert (length (connects w) < length (connects w ++ [AwaitingDns hostname [url]]))
    as Hlt by (rewrite length_app; simpl; lia).
  unfold dns_settled. cbn [connects upd_connects write_log].
  rewrite lookup_app_r by done. rewrite Nat.sub_diag. cbn [lookup list_lookup].
  unfold listWebsocketCandidateUrls_resume. cbn [Promise_all concat].
  rewrite app_nil_r.
  destruct (1 <? length (l4 ++ l6)).
  - rewrite connect_resume_suspends by done. simpl.
    split; [done|]. split; [done|].
    split; [by apply list_lookup_insert_eq|].
    unfold connect_promise. simpl. rewrite list_lookup_insert_eq by done.
    rewrite lookup_app_r by done. by rewrite Nat.sub_diag.
  - rewrite connect_resume_suspends by done. simpl.
    split; [done|]. split; [done|].
    split; [by apply list_lookup_insert_eq|].
    unfold connect_promise. simpl. rewrite list_lookup_insert_eq by done.
    rewrite lookup_app_r by done. by rewrite Nat.sub_diag.
Qed.

(** X8. The candidate of an endpoint that is not looked up. [connect] to a
    URL whose hostname [isIP] accepts (its result is not 0) makes exactly
    one socket, for the URL as it is, in the same turn and without a lookup;
    a DNS answer delivered to that activation afterwards changes nothing. *)
Theorem candidate_of_ip_literal (P : Platform) w hostname a4 a6 :
  env_truthy (WDIO_UNIT_TESTS w) = false ->
  URL_hostname P (_webSocketUrl (core w)) = Some hostname ->
  isIP P hostname ≠ 0%Z ->
  let h := fst (connect P w) in
  let w' := snd (connect P w) in
  sockets w'
  = sockets w ++ [new_socket (_webSocketUrl (core w)) (_clientOptions (core w))
                             (length (races w))]
  /\ connects w' !! h = Some (Racing (length (races w)))
  /\ dns_settled P h a4 a6 w' = w'.
Proof.
  intros Henv Hhost Hip h w'. subst h w'.
  unfold connect, connect_body, listWebsocketCandidateUrls. rewrite Henv. simpl.
  rewrite Hhost. destruct (Z.eqb_spec (isIP P hostname) 0) as [|_]; [done|].
  unfold connect_resume. rewrite connectWebsocket_suspends by done. simpl.
  split; [done|].
  assert ((connects w ++ [Racing (length (races w))]) !! length (connects w)
          = Some (Racing (length (races w)))) as Hl.
  { rewrite lookup_app_r by done. by rewrite Nat.sub_diag. }
  split; [exact Hl|].
  unfold dns_settled. simpl. by rewrite Hl.
Qed.

(** ** Responses and waiters *)

Lemma emitted_emit e w :
  emitted (emit e w)
  = emitted w ++ match client (core w) with
                 | Some c => [(c, e)]
                 | None => []
                 end.
Proof. unfold emit. destruct (client (core w)); simpl; [done|by rewrite app_nil_r]. Qed.

(** X9. A response whose identifier has no waiter (a stale, repeated or
    unknown identifier, or one that is not a number): the handler logs the
    result and then that it could not resolve the command, still hands the
    payload to the attached client as [bidiResult], and leaves the counter,
    the table, every [send] activation and the deletions as they were. *)
Theorem response_without_waiter (P : Platform) data payload id w :
  JSON_parse P data = Some payload ->
  get_prop payload "id" = Ret id ->
  truthy id = true ->
  Map_get (_pendingCommands (core w)) id = None ->
  let w' := snd (handleResponse P data w) in
  fst (handleResponse P data w) = Ret tt
  /\ log w' = log w ++ [LogBidiResult (resultLog_of data payload); LogCouldntResolve id]
  /\ emitted w' = emitted w ++ match client (core w) with
                               | Some c => [(c, bidiResult payload)]
                               | None => []
                               end
  /\ correlator w' = correlator w.
Proof.
  intros Hp Hid Ht Hg.
  unfold handleResponse, try_catch, bind, lift, gets, modify, ret.
  rewrite Hp, Hid, Ht. simpl.
  assert (Map_get (_pendingCommands (core (emit (bidiResult payload)
            (write_log (LogBidiResult (resultLog_of data payload)) w)))) id = None) as ->.
  { unfold emit. simpl. by destruct (client (core w)). }
  simpl. split; [done|]. split.
  - unfold emit. simpl. destruct (client (core w)); simpl; by rewrite <- app_assoc.
  - split; [by rewrite emitted_emit|]. by autorewrite with frame.
Qed.

Section Waiters.

Context (P : Platform).

(** The response for an identifier leaves the waiters of other identifiers
    alone. *)
Lemma handleResponse_other data w h' sc' :
  Inv w ->
  sends w !! h' = Some sc' ->
  (forall payload, JSON_parse P data = Some payload ->
                   get_prop payload "id" ≠ Ret (JNum (sc_id sc'))) ->
  sends (snd (handleResponse P data w)) !! h' = Some sc'
  /\ _pendingCommands (core (snd (handleResponse P data w))) !! sc_id sc'
     = _pendingCommands (core w) !! sc_id sc'.
Proof.
  intros Hw Hsc' Hother.
  destruct (handleResponse_cases P data w) as [Hf|(payload & n & h & Hp & Hid & Hn & Hh)].
  - unfold correlator in Hf. injection Hf as _ Hpend Hs _ _. by rewrite Hs, Hpend.
  - pose proof (handleResponse_resolves P data w payload n h Hp Hid Hn Hh) as Hc.
    unfold correlator in Hc. injection Hc as _ Hpend Hs _ _.
    destruct (inv_table _ _ _ _ _ Hw n h Hh) as (sc & Hsc & Hscid & _).
    assert (n ≠ sc_id sc') as Hne.
    { intros ->. by apply (Hother payload Hp). }
    assert (h ≠ h') as Hhne.
    { intros ->. rewrite Hsc in Hsc'. injection Hsc' as ->. done. }
    rewrite Hs, Hpend. split.
    + by rewrite !list_lookup_alter_ne.
    + by rewrite lookup_delete_ne.
Qed.

(** The response for the identifier of a waiting command settles it. *)
Lemma handleResponse_armed data payload w h sc :
  Inv w ->
  sends w !! h = Some sc -> sc_timer sc = Armed ->
  JSON_parse P data = Some payload ->
  get_prop payload "id" = Ret (JNum (sc_id sc)) ->
  sends (snd (handleResponse P data w)) !! h
  = Some {| sc_id := sc_id sc; sc_command := sc_command sc;
            sc_deadline := sc_deadline sc; sc_timer := Cleared;
            sc_promise := Resolved payload |}
  /\ _pendingCommands (core (snd (handleResponse P data w))) !! sc_id sc = None.
Proof.
  intros Hw Hsc Harmed Hp Hid.
  pose proof (inv_state _ _ _ _ _ Hw h sc Hsc) as Hst.
  unfold waiter_state in Hst. rewrite Harmed in Hst.
  destruct Hst as (_ & Hh & Hpend & _).
  assert (sc_id sc ≠ 0%Z) as Hnz.
  { pose proof (inv_ids _ _ _ _ _ Hw h sc Hsc). lia. }
  pose proof (handleResponse_resolves P data w payload _ h Hp Hid Hnz Hh) as Hc.
  unfold correlator in Hc. injection Hc as _ Hpd Hs _ _.
  rewrite Hs, Hpd, !list_lookup_alter_eq, Hsc, lookup_delete_eq. simpl.
  split; [|done]. f_equal.
  unfold sc_clearTimeout. rewrite Harmed. unfold sc_settle, sc_set_timer. simpl.
  by rewrite Hpend.
Qed.

End Waiters.

(** The timer of one command leaves the waiters of the other commands
    alone. *)
Lemma timer_fire_other h w h' sc' :
  Inv w ->
  sends w !! h' = Some sc' -> h ≠ h' ->
  sends (timer_fire h w) !! h' = Some sc'
  /\ _pendingCommands (core (timer_fire h w)) !! sc_id sc'
     = _pendingCommands (core w) !! sc_id sc'.
Proof.
  intros Hw Hsc' Hne.
  destruct (timer_fire_cases h w) as [Hf|(sc & Hsc & _ & _ & Hc)].
  - unfold correlator in Hf. injection Hf as _ Hpend Hs _ _. by rewrite Hs, Hpend.
  - unfold correlator in Hc. injection Hc as _ Hpend Hs _ _.
    rewrite Hs, Hpend. split.
    + by rewrite !list_lookup_alter_ne.
    + rewrite lookup_delete_ne; [done|].
      intros Heq. apply Hne. by eapply (inv_inj _ _ _ _ _ Hw).
Qed.

(** X10. Settling one command touches no other. In every world a run
    reaches, a message whose identifier is not the one of a given [send]
    activation, and the timer of any other activation, leave that
    activation (its timer, its promise) and its entry in the table exactly
    as they were. *)
Theorem other_waiters_untouched (P : Platform) url opts env evs data h h' sc' :
  let w := snd (run P evs (initial url opts env)) in
  sends w !! h' = Some sc' ->
  ((forall payload, JSON_parse P data = Some payload ->
                    get_prop payload "id" ≠ Ret (JNum (sc_id sc'))) ->
   sends (snd (handleResponse P data w)) !! h' = Some sc'
   /\ _pendingCommands (core (snd (handleResponse P data w))) !! sc_id sc'
      = _pendingCommands (core w) !! sc_id sc')
  /\ (h ≠ h' ->
      sends (timer_fire h w) !! h' = Some sc'
      /\ _pendingCommands (core (timer_fire h w)) !! sc_id sc'
         = _pendingCommands (core w) !! sc_id sc').
Proof.
  intros w Hsc'.
  assert (Inv w) as Hw by apply Inv_run, Inv_initial.
  split.
  - intros Hother. by apply handleResponse_other.
  - intros Hne. by apply timer_fire_other.
Qed.

(** X11. Responses may come in any order. In every world a run reaches,
    with two commands waiting, the response of the second delivered before
    the response of the first: each promise is resolved with the payload that
    carries its own identifier, both timers are cleared and both entries are
    out of the table. *)
Theorem out_of_order_responses (P : Platform) url opts env evs
    h1 h2 sc1 sc2 data1 data2 payload1 payload2 :
  let w := snd (run P evs (initial url opts env)) in
  sends w !! h1 = Some sc1 -> sc_timer sc1 = Armed ->
  sends w !! h2 = Some sc2 -> sc_timer sc2 = Armed ->
  h1 ≠ h2 ->
  JSON_parse P data1 = Some payload1 ->
  get_prop payload1 "id" = Ret (JNum (sc_id sc1)) ->
  JSON_parse P data2 = Some payload2 ->
  get_prop payload2 "id" = Ret (JNum (sc_id sc2)) ->
  let w' := snd (handleResponse P data1 (snd (handleResponse P data2 w))) in
  sends w' !! h1
  = Some {| sc_id := sc_id sc1; sc_command := sc_command sc1;
            sc_deadline := sc_deadline sc1; sc_timer := Cleared;
            sc_promise := Resolved payload1 |}
  /\ sends w' !! h2
     = Some {| sc_id := sc_id sc2; sc_command := sc_command sc2;
               sc_deadline := sc_deadline sc2; sc_timer := Cleared;
               sc_promise := Resolved payload2 |}
  /\ _pendingCommands (core w') !! sc_id sc1 = None
  /\ _pendingCommands (core w') !! sc_id sc2 = None.
Proof.
  intros w Hsc1 Ha1 Hsc2 Ha2 Hne Hp1 Hid1 Hp2 Hid2 w'.
  assert (Inv w) as Hw by apply Inv_run, Inv_initial.
  assert (sc_id sc1 ≠ sc_id sc2) as Hids.
  { intros Heq. apply Hne. by eapply (inv_inj _ _ _ _ _ Hw). }
  set (wa := snd (handleResponse P data2 w)) in *.
  assert (Inv wa) as Hwa by by apply Inv_handleResponse.
  destruct (handleResponse_armed P data2 payload2 w h2 sc2 Hw Hsc2 Ha2 Hp2 Hid2)
    as [Hs2 Hp2'].
  destruct (handleResponse_other P data2 w h1 sc1 Hw Hsc1) as [Hs1 _].
  { intros payload Hp. rewrite Hp2 in Hp. injection Hp as <-. rewrite Hid2.
    intros Heq. injection Heq as Heq. congruence. }
  fold wa in Hs2, Hp2', Hs1.
  destruct (handleResponse_armed P data1 payload1 wa h1 sc1 Hwa Hs1 Ha1 Hp1 Hid1)
    as [Hs1' Hp1'].
  destruct (handleResponse_other P data1 wa h2 _ Hwa Hs2) as [Hs2' Hp2''].
  { simpl. intros payload Hp. rewrite Hp1 in Hp. injection Hp as <-. rewrite Hid1.
    intros Heq. injection Heq as Heq. congruence. }
  simpl in Hp2''. subst w'.
  split; [exact Hs1'|]. split; [exact Hs2'|]. split; [exact Hp1'|].
  by rewrite Hp2''.
Qed.

(** X12. What [send] gives its caller. In every world a run reaches, when
    the response with the identifier of a waiting command arrives: the
    promise of [send] is rejected with the command-failed error, naming the
    method and carrying the payload's [error], [message] and reformatted
    [stacktrace], when the payload has an [error] key or [type] equal to
    ["error"]; otherwise it is fulfilled with the payload as it was parsed. *)
Theorem send_settles_with_response (P : Platform) url opts env evs h sc data payload :
  let w := snd (run P evs (initial url opts env)) in
  sends w !! h = Some sc -> sc_timer sc = Armed ->
  JSON_parse P data = Some payload ->
  get_prop payload "id" = Ret (JNum (sc_id sc)) ->
  send_promise h (snd (handleResponse P data w))
  = if is_error_payload payload
    then RejectedWith
           (CommandFailedError (method (sc_command sc))
              (read payload "error") (read payload "message")
              (match read payload "stacktrace" with
               | JStr (String c rest) => Some (driverStack_of (String c rest))
               | _ => None
               end))
    else FulfilledWith payload.
Proof.
  intros w Hsc Harmed Hp Hid.
  assert (Inv w) as Hw by apply Inv_run, Inv_initial.
  destruct (handleResponse_armed P data payload w h sc Hw Hsc Harmed Hp Hid) as [Hs _].
  unfold send_promise. rewrite Hs. simpl. unfold send_completion.
  by destruct (is_error_payload payload).
Qed.

(** ** What is logged for a result *)

Lemma own_property_with_property_eq k v fields :
  own_property k (with_property k v fields) = Some v.
Proof.
  induction fields as [|[k' v'] rest IH]; simpl.
  - by rewrite String.eqb_refl.
  - destruct (String.eqb k k') eqn:Hk; simpl; by rewrite Hk.
Qed.

Lemma own_property_with_property_ne k k' v fields :
  k' ≠ k -> own_property k' (with_property k v fields) = own_property k' fields.
Proof.
  intros Hne. induction fields as [|[k0 v0] rest IH]; simpl.
  - by apply String.eqb_neq in Hne as ->.
  - destruct (String.eqb k k0) eqn:Hk; simpl.
    + apply String.eqb_eq in Hk as <-. by apply String.eqb_neq in Hne as ->.
    + by rewrite IH.
Qed.

Section ResultLog.

Context (P : Platform).

Lemma handleResponse_resolves_log data w payload n h :
  JSON_parse P data = Some payload -> get_prop payload "id" = Ret (JNum n) ->
  n ≠ 0%Z -> _pendingCommands (core w) !! n = Some h ->
  log (snd (handleResponse P data w))
  = log w ++ [LogBidiResult (resultLog_of data payload)]
  /\ emitted (snd (handleResponse P data w))
     = emitted w ++ match client (core w) with
                    | Some c => [(c, bidiResult payload)]
                    | None => []
                    end.
Proof.
  intros Hp Hid Hn Hh.
  unfold handleResponse, try_catch, bind, lift, gets, modify, ret.
  rewrite Hp, Hid. simpl.
  destruct (n =? 0)%Z eqn:Hz; [lia|]. simpl.
  unfold waiter, Map_delete, emit. simpl.
  destruct (client (core w)); simpl; rewrite Hh; simpl; [done|].
  by rewrite app_nil_r.
Qed.

End ResultLog.

(** X13. A base64 result is summarized in the log only. In every world a
    run reaches, when the response of a waiting command has a [result]
    object whose [data] is a string that [base64Regex] accepts: the line
    logged is the [result] record with [data] replaced by
    [Base64 string [N chars]], N the length of the string, every other field
    of the record as it was; the promise of the command is resolved with the
    payload as parsed, [data] in full, and the client is handed the same
    full payload. *)
Theorem base64_result_summarized_in_log_only (P : Platform) url opts env evs
    h sc data payload fields d :
  let w := snd (run P evs (initial url opts env)) in
  sends w !! h = Some sc -> sc_timer sc = Armed ->
  JSON_parse P data = Some payload ->
  get_prop payload "id" = Ret (JNum (sc_id sc)) ->
  get_prop payload "result" = Ret (JObj fields) ->
  own_property "data" fields = Some (JStr d) ->
  base64Regex_test d = true ->
  let w' := snd (handleResponse P data w) in
  let summary := JStr ("Base64 string [" +:+ pretty (String.length d) +:+ " chars]") in
  log w' = log w ++ [LogBidiResult (Stringified (JObj (with_property "data" summary fields)))]
  /\ own_property "data" (with_property "data" summary fields) = Some summary
  /\ (forall k, k ≠ "data" ->
                own_property k (with_property "data" summary fields) = own_property k fields)
  /\ sends w' !! h
     = Some {| sc_id := sc_id sc; sc_command := sc_command sc;
               sc_deadline := sc_deadline sc; sc_timer := Cleared;
               sc_promise := Resolved payload |}
  /\ emitted w' = emitted w ++ match client (core w) with
                               | Some c => [(c, bidiResult payload)]
                               | None => []
                               end.
Proof.
  intros w Hsc Harmed Hp Hid Hres Hdata Hb64 w' summary.
  assert (Inv w) as Hw by apply Inv_run, Inv_initial.
  pose proof (inv_state _ _ _ _ _ Hw h sc Hsc) as Hst.
  unfold waiter_state in Hst. rewrite Harmed in Hst.
  destruct Hst as (_ & Hh & _ & _).
  assert (sc_id sc ≠ 0%Z) as Hnz.
  { pose proof (inv_ids _ _ _ _ _ Hw h sc Hsc). lia. }
  destruct (handleResponse_resolves_log P data w payload _ h Hp Hid Hnz Hh) as [Hlog Hem].
  destruct (handleResponse_armed P data payload w h sc Hw Hsc Harmed Hp Hid) as [Hs _].
  split.
  - subst w'. rewrite Hlog. unfold resultLog_of. by rewrite Hres, Hdata, Hb64.
  - split; [apply own_property_with_property_eq|].
    split; [intros k Hk; by apply own_property_with_property_ne|].
    split; [exact Hs|exact Hem].
Qed.

(** ** The base64 test *)

Lemma is_pad_not_base64 c : is_pad c = true -> is_base64_char c = false.
Proof.
  unfold is_pad, is_base64_char. intros H%Nat.eqb_eq. by rewrite H.
Qed.

Lemma base64_groups_accepts body tail :
  Forall (fun c => is_base64_char c = true) body ->
  Nat.divide 4 (length body) ->
  tail = [] \/ padded_group tail ->
  base64_groups (body ++ tail) = true.
Proof.
  intros Hbody [k Hk]. revert body Hbody Hk.
  induction k as [|k IH]; intros body Hbody Hk Htail.
  - destruct body; [|done]. simpl.
    destruct Htail as [->|(a & b & c & d & -> & Ha & Hb & Hd & Hc)]; [done|].
    simpl. rewrite Ha, Hb, Hd, (is_pad_not_base64 d Hd). simpl.
    rewrite andb_false_r. simpl.
    destruct Hc as [->| ->]; [done|]. by rewrite orb_true_r.
  - destruct body as [|a [|b [|c [|d body]]]]; simpl in Hk; try lia.
    apply Forall_cons in Hbody as [Ha Hbody]. apply Forall_cons in Hbody as [Hb Hbody].
    apply Forall_cons in Hbody as [Hc Hbody]. apply Forall_cons in Hbody as [Hd Hbody].
    simpl. rewrite Ha, Hb, Hc, Hd. simpl. apply IH; [done|lia|done].
Qed.

Lemma base64_groups_accepted n l :
  length l <= n ->
  base64_groups l = true ->
  exists body tail,
    l = body ++ tail
    /\ Forall (fun c => is_base64_char c = true) body
    /\ Nat.divide 4 (length body)
    /\ (tail = [] \/ padded_group tail).
Proof.
  revert l. induction n as [|n IH]; intros l Hlen Hl.
  - destruct l; [|simpl in Hlen; lia].
    exists [], []. repeat split; [done|by exists 0|by left].
  - destruct l as [|a [|b [|c [|d rest]]]]; try done.
    + exists [], []. repeat split; [done|by exists 0|by left].
    + simpl in Hl.
      destruct (is_base64_char a && is_base64_char b && is_base64_char c
                && is_base64_char d) eqn:Hfour.
      * apply andb_prop in Hfour as [Hfour Hd]. apply andb_prop in Hfour as [Hfour Hc].
        apply andb_prop in Hfour as [Ha Hb].
        destruct (IH rest) as (body & tail & -> & Hbody & [k Hk] & Htail);
          [simpl in Hlen; lia|done|].
        exists (a :: b :: c :: d :: body), tail.
        repeat split; [by repeat constructor|exists (S k); simpl; lia|done].
      * destruct rest; [|done].
        apply andb_prop in Hl as [Hab Hl]. apply andb_prop in Hab as [Ha Hb].
        exists [], [a; b; c; d]. repeat split; [done|by exists 0|].
        right. exists a, b, c, d. repeat split; try done.
        -- apply orb_prop in Hl as [H|H]; by apply andb_prop in H as [_ ?].
        -- apply orb_prop in Hl as [H|H]; apply andb_prop in H as [? _]; auto.
Qed.

(** X14. What [base64Regex] accepts. A text passes the test exactly when it
    is a run of characters of the base64 alphabet whose length is a multiple
    of four, followed by nothing or by one padded group (three characters and
    [=], or two and [==]). So the empty text passes, and a text whose length
    is not a multiple of four never does. *)
Theorem base64Regex_accepts_exactly s :
  base64Regex_test s = true
  <-> exists body tail,
        list_ascii_of_string s = body ++ tail
        /\ Forall (fun c => is_base64_char c = true) body
        /\ Nat.divide 4 (length body)
        /\ (tail = [] \/ padded_group tail).
Proof.
  unfold base64Regex_test. split.
  - intros H. by eapply base64_groups_accepted.
  - intros (body & tail & -> & Hbody & Hdiv & Htail). by apply base64_groups_accepts.
Qed.

(** ** The driver stack *)

Lemma split_on_line sep x :
  without_char sep x -> split_on sep x = [x].
Proof.
  induction x as [|c x IH]; intros Hx; simpl; [done|].
  destruct Hx as [Hc Hx]. apply Ascii.eqb_neq in Hc as ->. by rewrite IH.
Qed.

Lemma split_on_first_line sep x rest :
  without_char sep x ->
  split_on sep (x +:+ String sep rest) = x :: split_on sep rest.
Proof.
  induction x as [|c x IH]; intros Hx; simpl.
  - by rewrite Ascii.eqb_refl.
  - destruct Hx as [Hc Hx]. apply Ascii.eqb_neq in Hc as ->. by rewrite IH.
Qed.

Lemma split_on_concat sep line lines :
  Forall (without_char sep) (line :: lines) ->
  split_on sep (String.concat (String sep EmptyString) (line :: lines)) = line :: lines.
Proof.
  revert line. induction lines as [|l lines IH]; intros line Hall.
  - apply Forall_cons in Hall as [Hl _]. simpl. by apply split_on_line.
  - apply Forall_cons in Hall as [Hl Hall].
    change (String.concat (String sep EmptyString) (line :: l :: lines))
      with (line +:+ String sep (String.concat (String sep EmptyString) (l :: lines))).
    rewrite split_on_first_line by done. by rewrite IH.
Qed.

(** X15. The driver stack of a remote stack trace. For a stack trace made
    of lines joined by newlines, the lines that [send] appends to its error
    are those lines in order, each behind [    at ], the empty lines
    dropped. *)
Theorem driverStack_of_lines line lines :
  Forall (without_char newline) (line :: lines) ->
  driverStack_of (String.concat (String newline EmptyString) (line :: lines))
  = map (fun l => "    at " +:+ l)
        (List.filter (fun l => match l with EmptyString => false | _ => true end)
                     (line :: lines)).
Proof.
  intros Hall. unfold driverStack_of.
  change "010"%char with newline. by rewrite split_on_concat.
Qed.

(** ** Accounting of the table *)

(** The table holds one entry per [send] activation that was not taken out,
    and no deletion missed its key. *)
Lemma accounted_frame w w' :
  correlator w' = correlator w ->
  size (_pendingCommands (core w)) + length (deletions w) = length (sends w)
  /\ Forall (fun d => del_found d = true) (deletions w) ->
  size (_pendingCommands (core w')) + length (deletions w') = length (sends w')
  /\ Forall (fun d => del_found d = true) (deletions w').
Proof.
  unfold correlator. intros H. injection H as _ -> -> -> _. done.
Qed.

Lemma accounted_timer_fire h w :
  Inv w ->
  size (_pendingCommands (core w)) + length (deletions w) = length (sends w)
  /\ Forall (fun d => del_found d = true) (deletions w) ->
  size (_pendingCommands (core (timer_fire h w))) + length (deletions (timer_fire h w))
  = length (sends (timer_fire h w))
  /\ Forall (fun d => del_found d = true) (deletions (timer_fire h w)).
Proof.
  intros Hw [Hsize Hfound].
  destruct (timer_fire_cases h w) as [Hf|(sc & Hsc & Harmed & _ & Hc)];
    [by eapply accounted_frame|].
  pose proof (inv_state _ _ _ _ _ Hw h sc Hsc) as Hst.
  unfold waiter_state in Hst. rewrite Harmed in Hst. destruct Hst as (_ & Hp & _).
  unfold correlator in Hc. injection Hc as _ -> -> -> _.
  rewrite !length_alter, length_app. simpl.
  pose proof (map_size_delete_Some (sc_id sc) (_pendingCommands (core w)) (ltac:(eauto)))
    as Hd.
  assert (size (_pendingCommands (core w)) ≠ 0) as Hnz.
  { intros Hz. apply map_size_empty_iff in Hz. rewrite Hz in Hp. done. }
  split; [lia|].
  apply Forall_app. split; [done|]. constructor; [|done]. simpl.
  apply bool_decide_true. eauto.
Qed.

Section Accounting.

Context (P : Platform).

Lemma accounted_handleResponse data w :
  Inv w ->
  size (_pendingCommands (core w)) + length (deletions w) = length (sends w)
  /\ Forall (fun d => del_found d = true) (deletions w) ->
  let w' := snd (handleResponse P data w) in
  size (_pendingCommands (core w')) + length (deletions w') = length (sends w')
  /\ Forall (fun d => del_found d = true) (deletions w').
Proof.
  intros Hw [Hsize Hfound] w'. subst w'.
  destruct (handleResponse_cases P data w) as [Hf|(payload & n & h & Hp & Hid & Hn & Hh)];
    [by eapply accounted_frame|].
  pose proof (handleResponse_resolves P data w payload n h Hp Hid Hn Hh) as Hc.
  unfold correlator in Hc. injection Hc as _ -> -> -> _.
  rewrite !length_alter, length_app. simpl.
  pose proof (map_size_delete_Some n (_pendingCommands (core w)) (ltac:(eauto))) as Hd.
  assert (size (_pendingCommands (core w)) ≠ 0) as Hnz.
  { intros Hz. apply map_size_empty_iff in Hz. rewrite Hz in Hh. done. }
  split; [lia|].
  apply Forall_app. split; [done|]. by constructor.
Qed.

Lemma accounted_step ev w :
  Inv w ->
  size (_pendingCommands (core w)) + length (deletions w) = length (sends w)
  /\ Forall (fun d => del_found d = true) (deletions w) ->
  let w' := snd (step P ev w) in
  size (_pendingCommands (core w')) + length (deletions w') = length (sends w')
  /\ Forall (fun d => del_found d = true) (deletions w').
Proof.
  intros Hw Hacc w'. subst w'.
  destruct ev as [c|v| |h a4 a6|sid|sid m|sid data| |url opts|cmd|cmd|h|ms]; simpl;
    try done.
  - pose proof (connect_correlator P w) as H.
    destruct (connect P w) as [h w1]. by eapply accounted_frame.
  - eapply accounted_frame; [apply dns_settled_correlator|done].
  - eapply accounted_frame; [apply on_open_correlator|done].
  - eapply accounted_frame; [apply on_error_correlator|done].
  - unfold on_message. destruct (sockets w !! sid) as [s|]; [|done].
    enough (Inv (Nat.iter (message_listeners s)
                   (fun w' => snd (handleResponse P data w')) w)
            /\ (size (_pendingCommands (core (Nat.iter (message_listeners s)
                   (fun w' => snd (handleResponse P data w')) w)))
                + length (deletions (Nat.iter (message_listeners s)
                   (fun w' => snd (handleResponse P data w')) w))
                = length (sends (Nat.iter (message_listeners s)
                   (fun w' => snd (handleResponse P data w')) w))
                /\ Forall (fun d => del_found d = true)
                     (deletions (Nat.iter (message_listeners s)
                        (fun w' => snd (handleResponse P data w')) w))))
      as [_ H] by exact H.
    induction (message_listeners s) as [|n [IHi IHa]]; simpl; [done|].
    split; [by apply Inv_handleResponse|by apply accounted_handleResponse].
  - eapply accounted_frame; [apply close_correlator|done].
  - pose proof (reconnect_correlator P url opts w) as H.
    destruct (reconnect P url opts w) as [h w1]. by eapply accounted_frame.
  - destruct (sendAsync_cases P cmd w) as [(e & -> & _)|(sid & w1 & _ & _ & -> & Hc)]; [done|].
    simpl. unfold correlator in Hc. by injection Hc as _ -> -> -> _.
  - destruct (send_cases P cmd w) as [(e & -> & _)|(w1 & -> & Hc)]; [done|].
    simpl. unfold correlator in Hc. injection Hc as _ -> -> -> _.
    destruct Hacc as [Hsize Hfound]. split; [|done].
    rewrite map_size_insert_None, length_app; [simpl; lia|].
    destruct (_pendingCommands (core w) !! (_id (core w) + 1)%Z) as [h|] eqn:Hl; [|done].
    destruct (inv_table _ _ _ _ _ Hw _ h Hl) as (sc & Hsc & Hid & _).
    pose proof (inv_ids _ _ _ _ _ Hw h sc Hsc). lia.
  - by apply accounted_timer_fire.
Qed.

Lemma accounted_run evs w :
  Inv w ->
  size (_pendingCommands (core w)) + length (deletions w) = length (sends w)
  /\ Forall (fun d => del_found d = true) (deletions w) ->
  let w' := snd (run P evs w) in
  size (_pendingCommands (core w')) + length (deletions w') = length (sends w')
  /\ Forall (fun d => del_found d = true) (deletions w').
Proof.
  revert w. induction evs as [|ev evs IH]; intros w Hw Hacc; [done|].
  cbv zeta. rewrite run_cons. apply IH; [by apply Inv_step|by apply accounted_step].
Qed.

End Accounting.

(** X16. The size of the table. In every world a run reaches, the number
    of entries in the pending-commands table is the number of commands sent
    with [send] minus the number of deletions made by responses and timers,
    and every deletion found its key: nothing is deleted twice, nothing that
    is absent is deleted, and no entry is lost otherwise. *)
Theorem table_size_accounted (P : Platform) url opts env evs :
  let w := snd (run P evs (initial url opts env)) in
  size (_pendingCommands (core w)) + length (deletions w) = length (sends w)
  /\ Forall (fun d => del_found d = true) (deletions w).
Proof.
  apply accounted_run; [apply Inv_initial|]. simpl. split; [|done].
  by rewrite map_size_empty.
Qed.

(** ** The handler and odd messages *)

Lemma handleResponse_sockets (P : Platform) data w :
  sockets (snd (handleResponse P data w)) = sockets w.
Proof.
  unfold handleResponse, try_catch, bind, lift, gets, modify, ret.
  destruct (JSON_parse P data) as [payload|]; [|done].
  destruct (get_prop payload "id") as [id|]; [|done].
  destruct (truthy id); simpl; [|done].
  unfold emit. simpl.
  destruct (client (core w)); simpl;
    (destruct (Map_get _ id) as [h|]; [|done]); by destruct id.
Qed.

(** X17. No message makes the handler throw, whatever [JSON.parse] does
    with it, and no message makes it write to a socket, open or close one,
    change the counter of identifiers or the connection; and the message
    [null], which parses, is reported as a parse failure: reading [id] of it
    throws a [TypeError], the [catch] logs it, and nothing else happens. *)
Theorem handler_never_throws (P : Platform) data w :
  fst (handleResponse P data w) = Ret tt
  /\ sockets (snd (handleResponse P data w)) = sockets w
  /\ _id (core (snd (handleResponse P data w))) = _id (core w)
  /\ connection (snd (handleResponse P data w)) = connection w
  /\ (JSON_parse P data = Some JNull ->
      snd (handleResponse P data w) = write_log (LogFailedParse TypeError) w).
Proof.
  split; [apply handleResponse_returns|].
  split; [apply handleResponse_sockets|].
  split; [apply handleResponse_id|split; [apply handleResponse_connection|]].
  intros Hp. unfold handleResponse, try_catch, bind, lift, modify.
  by rewrite Hp.
Qed.

(** ** What a send puts on the wire *)

Lemma sendAsync_connected (P : Platform) command w sid rendering :
  _ws (core w) = Some sid -> _isConnected (core w) = true ->
  parseBidiCommand (renderer P) command = Ret rendering ->
  sendAsync P command w
  = (Ret (_id (core w) + 1)%Z,
     upd_sockets
       (alter (sock_send {| frame_id := (_id (core w) + 1)%Z;
                            frame_method := method command;
                            frame_params := params command |}) sid)
       (emit (bidiCommand command)
          (upd_core (set_id (_id (core w) + 1)%Z)
             (write_log (LogBidiCommand rendering) w)))).
Proof.
  intros Hws Hc Hr. unfold sendAsync, bind, gets, modify, ret, lift. simpl.
  by rewrite Hws, Hc, Hr.
Qed.

Lemma sendAsync_refused (P : Platform) command w sid e :
  _ws (core w) = Some sid -> _isConnected (core w) = true ->
  parseBidiCommand (renderer P) command = Throw e ->
  sendAsync P command w = (Throw e, w).
Proof.
  intros Hws Hc Hr. unfold sendAsync, bind, gets, modify, ret, lift. simpl.
  by rewrite Hws, Hc, Hr.
Qed.

(** What [sendAsync] does, in full: it throws and leaves the world as it
    was, or it returns the next identifier and leaves the world below. *)
Lemma sendAsync_outcome (P : Platform) command w :
  (exists e, sendAsync P command w = (Throw e, w))
  \/ (exists sid rendering,
        _ws (core w) = Some sid /\ _isConnected (core w) = true
        /\ sendAsync P command w
           = (Ret (_id (core w) + 1)%Z,
              upd_sockets
                (alter (sock_send {| frame_id := (_id (core w) + 1)%Z;
                                     frame_method := method command;
                                     frame_params := params command |}) sid)
                (emit (bidiCommand command)
                   (upd_core (set_id (_id (core w) + 1)%Z)
                      (write_log (LogBidiCommand rendering) w))))).
Proof.
  destruct (_ws (core w)) as [sid|] eqn:Hws;
    [|left; exists NotConnectedError; apply sendAsync_not_connected; by left].
  destruct (_isConnected (core w)) eqn:Hc;
    [|left; exists NotConnectedError; apply sendAsync_not_connected; by right].
  destruct (parseBidiCommand (renderer P) command) as [rendering|e] eqn:Hr.
  - right. exists sid, rendering. repeat split. by apply sendAsync_connected.
  - left. exists e. by eapply sendAsync_refused.
Qed.

(** X18. [sendAsync] on a connected session, in every world a run reaches.
    The command is rendered for the log first. When [parseBidiCommand]
    throws, [sendAsync] throws that error and [send] is rejected with it,
    and nothing has happened: no identifier is used up, nothing is logged,
    written or registered. When it returns, [sendAsync] returns the
    counter's next value, writes one frame with that identifier and the
    command's method and parameters to the active socket and to no other,
    hands the command to the attached client as [bidiCommand], logs the
    rendering, and registers no waiter, so no entry for the new identifier
    is in the table; [send] with the same command writes the same frame,
    and adds the waiter whose timer is due [RESPONSE_TIMEOUT] milliseconds
    from now. *)
Theorem sendAsync_writes_one_frame (P : Platform) url opts env evs command sid :
  let w := snd (run P evs (initial url opts env)) in
  _ws (core w) = Some sid ->
  _isConnected (core w) = true ->
  let id := (_id (core w) + 1)%Z in
  let frame := {| frame_id := id; frame_method := method command;
                  frame_params := params command |} in
  (forall e, parseBidiCommand (renderer P) command = Throw e ->
             sendAsync P command w = (Throw e, w)
             /\ send P command w = (Throw e, w))
  /\ (forall rendering, parseBidiCommand (renderer P) command = Ret rendering ->
      fst (sendAsync P command w) = Ret id
      /\ sockets (snd (sendAsync P command w)) = alter (sock_send frame) sid (sockets w)
      /\ emitted (snd (sendAsync P command w))
         = emitted w ++ match client (core w) with
                        | Some c => [(c, bidiCommand command)]
                        | None => []
                        end
      /\ log (snd (sendAsync P command w)) = log w ++ [LogBidiCommand rendering]
      /\ _pendingCommands (core (snd (sendAsync P command w))) !! id = None
      /\ sends (snd (sendAsync P command w)) = sends w
      /\ fst (send P command w) = Ret (length (sends w))
      /\ sockets (snd (send P command w)) = alter (sock_send frame) sid (sockets w)
      /\ _pendingCommands (core (snd (send P command w))) !! id
         = Some (length (sends w))
      /\ sends (snd (send P command w))
         = sends w ++ [{| sc_id := id; sc_command := command;
                          sc_deadline := (now w + RESPONSE_TIMEOUT)%Z;
                          sc_timer := Armed; sc_promise := Pending |}]).
Proof.
  intros w Hws Hc id frame. split.
  { intros e Hr.
    pose proof (sendAsync_refused P command w sid e Hws Hc Hr) as Hs.
    split; [exact Hs|]. unfold send, bind. by rewrite Hs. }
  intros rendering Hr.
  assert (Inv w) as Hw by apply Inv_run, Inv_initial.
  assert (_pendingCommands (core w) !! id = None) as Hfresh.
  { destruct (_pendingCommands (core w) !! id) as [h|] eqn:Hl; [|done].
    destruct (inv_table _ _ _ _ _ Hw _ h Hl) as (sc & Hsc & Hid & _).
    pose proof (inv_ids _ _ _ _ _ Hw h sc Hsc). subst id. lia. }
  assert (sendAsync P command w
          = (Ret id,
             upd_sockets (alter (sock_send frame) sid)
               (emit (bidiCommand command)
                  (upd_core (set_id id) (write_log (LogBidiCommand rendering) w)))))
    as Hs.
  { by apply sendAsync_connected. }
  assert (send P command w
          = (Ret (length (sends w)),
             upd_core (fun c => set_pendingCommands
                                  (<[id := length (sends w)]> (_pendingCommands c)) c)
               (upd_sends (fun l => l ++ [{| sc_id := id; sc_command := command;
                                             sc_deadline := (now w + RESPONSE_TIMEOUT)%Z;
                                             sc_timer := Armed; sc_promise := Pending |}])
                  (upd_sockets (alter (sock_send frame) sid)
                     (emit (bidiCommand command)
                        (upd_core (set_id id) (write_log (LogBidiCommand rendering) w)))))))
    as Hsend.
  { unfold send, bind, gets, modify, ret. rewrite Hs. simpl.
    unfold emit. simpl. by destruct (client (core w)). }
  rewrite Hs, Hsend. simpl. unfold emit. simpl.
  destruct (client (core w)); simpl; rewrite ?app_nil_r, ?lookup_insert_eq; done.
Qed.

(** ** Frames on the wire *)

Lemma map_sent_alter f i (l : list Socket) :
  (forall s, sent (f s) = sent s) -> map sent (alter f i l) = map sent l.
Proof.
  intros Hf. revert i. induction l as [|s l IH]; intros [|i]; simpl; try done.
  - by rewrite Hf.
  - f_equal. apply IH.
Qed.

Lemma map_sent_send f i (l : list Socket) :
  map sent (alter (sock_send f) i l) = alter (fun fs => fs ++ [f]) i (map sent l).
Proof.
  revert i. induction l as [|s l IH]; intros [|i]; simpl; try done.
  f_equal. apply IH.
Qed.

Lemma concat_alter_snoc {A} (f : A) i (l : list (list A)) :
  i < length l -> concat (alter (fun fs => fs ++ [f]) i l) ≡ₚ concat l ++ [f].
Proof.
  revert i. induction l as [|fs l IH]; intros [|i] Hi; simpl in *; try lia.
  - rewrite <- !app_assoc. apply Permutation_app_head, Permutation_app_comm.
  - rewrite <- app_assoc. apply Permutation_app_head, IH. lia.
Qed.

Lemma concat_replicate_nil {A} k : concat (replicate k (@nil A)) = [].
Proof. induction k as [|k IH]; simpl; done. Qed.

Lemma ascending_snoc l x :
  ascending l -> (forall a, a ∈ l -> (a < x)%Z) -> ascending (l ++ [x]).
Proof.
  intros Hl Hx i j a b Hi Hj Hij.
  assert (i < length l) as Hil.
  { apply lookup_lt_Some in Hj. rewrite length_app in Hj. simpl in Hj. lia. }
  rewrite lookup_app_l in Hi by done.
  destruct (decide (j < length l)) as [Hjl|Hjl].
  - rewrite lookup_app_l in Hj by done. by eapply Hl.
  - rewrite lookup_app_r in Hj by lia.
    destruct (j - length l) as [|n]; simpl in Hj; [|done].
    injection Hj as <-. apply Hx. by eapply list_elem_of_lookup_2.
Qed.

Lemma quiet_refl w : quiet w w.
Proof.
  split; [done|]. split; [|by left]. exists 0. simpl. by rewrite app_nil_r.
Qed.

Lemma quiet_same w w' :
  _id (core w') = _id (core w) -> traffic w' = traffic w ->
  _ws (core w') = _ws (core w) -> quiet w w'.
Proof.
  intros Hi Ht Hws. split; [done|]. split; [|by left].
  exists 0. simpl. by rewrite app_nil_r.
Qed.

Lemma quiet_trans w1 w2 w3 : quiet w1 w2 -> quiet w2 w3 -> quiet w1 w3.
Proof.
  intros (Hi1 & [k1 Ht1] & Hw1) (Hi2 & [k2 Ht2] & Hw2).
  split; [congruence|]. split.
  - exists (k1 + k2). by rewrite Ht2, Ht1, replicate_add, app_assoc.
  - destruct Hw2 as [Heq|[Hn|Hv]]; [|by right; left|by right; right].
    rewrite Heq. destruct Hw1 as [Heq1|[Hn|(sid & Hs & Hlt)]];
      [by left|by right; left|].
    right; right. exists sid. split; [done|].
    assert (length (traffic w3) = length (traffic w2) + k2) as Hl
      by (by rewrite Ht2, length_app, length_replicate).
    unfold traffic in Hl. rewrite !length_map in Hl. lia.
Qed.

Lemma quiet_settle_race r w : quiet w (settle_race r w).
Proof.
  apply quiet_same.
  - pose proof (settle_race_correlator r w) as H. unfold correlator in H.
    by injection H.
  - unfold traffic, settle_race, connectWebsocket_resume.
    destruct (races w !! r) as [race|]; [|done].
    destruct (race_result race); [done|].
    destruct (firstWebsocketConnected race || all_settled race w); [|done].
    destruct (_ws (core w)); simpl.
    + apply (foldl_keeps (fun w => map sent (sockets w))). intros w' a. simpl.
      by apply map_sent_alter.
    + by apply (foldl_keeps (fun w => map sent (sockets w))).
  - apply settle_race_ws.
Qed.

Lemma quiet_on_open sid w : quiet w (on_open sid w).
Proof.
  unfold on_open. destruct (sockets w !! sid) as [s|] eqn:Hs; [|apply quiet_refl].
  destruct (once_open s); [|apply quiet_refl].
  eapply quiet_trans; [|apply quiet_settle_race].
  split; [simpl; by destruct (_ws (core w))|]. split.
  - exists 0. rewrite app_nil_r. unfold traffic. simpl.
    destruct (_ws (core w)); simpl; by rewrite !map_sent_alter.
  - simpl. destruct (_ws (core w)) eqn:Hws; simpl; [left; by rewrite Hws|].
    right; right. exists sid. split; [done|].
    rewrite !length_alter. by eapply lookup_lt_Some.
Qed.

Lemma quiet_on_error sid m w : quiet w (on_error sid m w).
Proof.
  unfold on_error. destruct (sockets w !! sid) as [s|] eqn:Hs; [|apply quiet_refl].
  destruct (once_error s); [|apply quiet_refl].
  eapply quiet_trans; [|apply quiet_settle_race].
  apply quiet_same; [done| |done].
  unfold traffic. simpl. by rewrite !map_sent_alter.
Qed.

Lemma quiet_connect_resume urls w : quiet w (snd (connect_resume urls w)).
Proof.
  unfold connect_resume, connectWebsocket. simpl.
  eapply quiet_trans; [|eapply quiet_trans; [apply quiet_settle_race|by apply quiet_same]].
  split; [done|]. split; [|by left].
  exists (length urls). unfold traffic. simpl. rewrite map_app. f_equal.
  induction urls as [|u urls IH]; simpl; [done|]. by rewrite IH.
Qed.

Lemma quiet_close w : quiet w (close w).
Proof.
  unfold close. destruct (_isConnected (core w)); simpl; [|apply quiet_refl].
  destruct (_ws (core w)) eqn:Hws; simpl; [|by apply quiet_same].
  split; [done|]. split; [|by right; left].
  exists 0. rewrite app_nil_r. unfold traffic. simpl. by rewrite !map_sent_alter.
Qed.

Lemma quiet_timer_fire h w : quiet w (timer_fire h w).
Proof.
  unfold timer_fire.
  destruct (sends w !! h) as [sc|]; [|apply quiet_refl].
  destruct (sc_timer sc); try apply quiet_refl.
  destruct (sc_deadline sc <=? now w)%Z; [|apply quiet_refl].
  by apply quiet_same.
Qed.

Section Wire.

Context (P : Platform).

Lemma quiet_connect w : quiet w (snd (connect P w)).
Proof.
  unfold connect, connect_body.
  destruct (env_truthy (WDIO_UNIT_TESTS w)); [by apply quiet_same|].
  destruct (listWebsocketCandidateUrls P _) as [[urls|host urls]|e];
    try by apply quiet_same.
  pose proof (quiet_connect_resume urls
                (write_log (LogConnecting (_webSocketUrl (core w))) w)) as H.
  destruct (connect_resume urls _) as [c w1]. simpl in *.
  eapply quiet_trans; [|eapply quiet_trans; [exact H|by apply quiet_same]].
  by apply quiet_same.
Qed.

Lemma quiet_dns_settled h a4 a6 w : quiet w (dns_settled P h a4 a6 w).
Proof.
  unfold dns_settled.
  destruct (connects w !! h) as [[|host urls|r|e]|]; try apply quiet_refl.
  destruct (listWebsocketCandidateUrls_resume P host urls a4 a6 w) as [urls'|e];
    [|by apply quiet_same].
  pose proof (quiet_connect_resume urls' w) as H.
  destruct (connect_resume urls' w) as [c w1]. simpl in *.
  eapply quiet_trans; [exact H|by apply quiet_same].
Qed.

Lemma quiet_reconnect url opts w : quiet w (snd (reconnect P url opts w)).
Proof.
  unfold reconnect.
  eapply quiet_trans; [|apply quiet_connect].
  eapply quiet_trans; [|eapply quiet_trans; [apply quiet_close|by apply quiet_same]].
  by apply quiet_same.
Qed.

Lemma quiet_handleResponse data w : quiet w (snd (handleResponse P data w)).
Proof.
  apply quiet_same.
  - apply handleResponse_id.
  - unfold traffic. by rewrite handleResponse_sockets.
  - pose proof (handleResponse_connection P data w) as H. unfold connection in H.
    by injection H.
Qed.

Lemma quiet_on_message sid data w : quiet w (on_message P sid data w).
Proof.
  unfold on_message. destruct (sockets w !! sid) as [s|]; [|apply quiet_refl].
  induction (message_listeners s) as [|n IH]; simpl; [apply quiet_refl|].
  eapply quiet_trans; [exact IH|apply quiet_handleResponse].
Qed.

Lemma Wired_quiet w w' : quiet w w' -> Wired w -> Wired w'.
Proof.
  intros (Hi & [k Ht] & Hws) (Hv & Hp & Hs).
  assert (length (sockets w) <= length (sockets w')) as Hlen.
  { assert (length (traffic w') = length (traffic w) + k) as Hl
      by (by rewrite Ht, length_app, length_replicate).
    unfold traffic in Hl. rewrite !length_map in Hl. lia. }
  split; [|split].
  - intros sid Hsid. destruct Hws as [Heq|[Hn|(sid' & Hs' & Hlt)]].
    + rewrite Heq in Hsid. apply Hv in Hsid. lia.
    + congruence.
    + congruence.
  - unfold wire. by rewrite Ht, Hi, concat_app, concat_replicate_nil, app_nil_r.
  - rewrite Ht. apply Forall_app. split; [done|].
    apply Forall_replicate. intros i j a b Hi'. done.
Qed.

Lemma Wired_sendAsync command w :
  (0 <= _id (core w))%Z -> Wired w -> Wired (snd (sendAsync P command w)).
Proof.
  intros Hpos Hw.
  destruct (sendAsync_outcome P command w)
    as [[e ->]|(sid & rendering & Hws & Hc & ->)]; [done|]. simpl.
  destruct Hw as (Hv & Hp & Hs).
  pose proof (Hv sid Hws) as Hsid.
  assert (forall w0, sockets (emit (bidiCommand command) w0) = sockets w0) as He
    by (intros w0; unfold emit; by destruct (client (core w0))).
  assert (forall w0, core (emit (bidiCommand command) w0) = core w0) as Hco
    by (intros w0; unfold emit; by destruct (client (core w0))).
  split; [|split].
  - intros sid'. simpl. rewrite Hco. simpl. rewrite Hws. intros [= <-].
    rewrite length_alter, He. done.
  - unfold wire, traffic. simpl. rewrite Hco, He. simpl.
    rewrite map_sent_send, concat_alter_snoc by (by rewrite length_map).
    rewrite map_app. simpl.
    rewrite seqZ_app by lia. simpl.
    apply Permutation_app; [exact Hp|].
    by rewrite Z.add_comm.
  - unfold traffic. simpl. rewrite He. simpl. rewrite map_sent_send.
    apply Forall_alter; [exact Hs|].
    intros fs Hfs Hasc. rewrite map_app. simpl.
    apply ascending_snoc; [done|].
    intros a Ha.
    assert (a ∈ wire w) as Hin.
    { unfold wire. apply list_elem_of_fmap in Ha as (f & -> & Hf).
      apply list_elem_of_fmap. exists f. split; [done|].
      apply list_elem_of_In, in_concat. exists fs.
      split; apply list_elem_of_In; [by eapply list_elem_of_lookup_2|done]. }
    rewrite Hp in Hin. apply elem_of_seqZ in Hin. lia.
Qed.

Lemma Wired_step ev w : Inv w -> Wired w -> Wired (snd (step P ev w)).
Proof.
  intros Hinv Hw.
  pose proof (inv_counter _ _ _ _ _ Hinv) as Hpos.
  destruct ev as [c|v| |h a4 a6|sid|sid m|sid data| |url opts|cmd|cmd|h|ms]; simpl.
  - eapply Wired_quiet; [|exact Hw]. by apply quiet_same.
  - eapply Wired_quiet; [|exact Hw]. by apply quiet_same.
  - pose proof (quiet_connect w) as H. destruct (connect P w) as [h w1].
    by eapply Wired_quiet.
  - eapply Wired_quiet; [apply quiet_dns_settled|done].
  - eapply Wired_quiet; [apply quiet_on_open|done].
  - eapply Wired_quiet; [apply quiet_on_error|done].
  - eapply Wired_quiet; [apply quiet_on_message|done].
  - eapply Wired_quiet; [apply quiet_close|done].
  - pose proof (quiet_reconnect url opts w) as H.
    destruct (reconnect P url opts w) as [h w1]. by eapply Wired_quiet.
  - pose proof (Wired_sendAsync cmd w Hpos Hw) as H.
    by destruct (sendAsync P cmd w) as [[id|e] w1].
  - pose proof (Wired_sendAsync cmd w Hpos Hw) as H.
    unfold send, bind, gets, modify, ret.
    destruct (sendAsync P cmd w) as [[id|e] w1]; simpl in *; [|done].
    eapply Wired_quiet; [|exact H]. by apply quiet_same.
  - eapply Wired_quiet; [apply quiet_timer_fire|done].
  - eapply Wired_quiet; [|exact Hw]. by apply quiet_same.
Qed.

Lemma Wired_run evs w : Inv w -> Wired w -> Wired (snd (run P evs w)).
Proof.
  revert w. induction evs as [|ev evs IH]; intros w Hinv Hw; [done|].
  rewrite run_cons. apply IH; [by apply Inv_step|by apply Wired_step].
Qed.

End Wire.

(** X19. Every identifier handed out is on the wire exactly once. In every
    world a run reaches, the identifiers of the frames written to the
    sockets, taken together, are the values 1 up to the counter, each once:
    no command is written twice, to two sockets, or with the identifier of
    another; and on each socket the frames are in increasing order of their
    identifiers, also across [close] and [reconnect]. *)
Theorem frames_carry_each_identifier_once (P : Platform) url opts env evs :
  let w := snd (run P evs (initial url opts env)) in
  wire w ≡ₚ seqZ 1 (_id (core w))
  /\ NoDup (wire w)
  /\ (forall sid s, sockets w !! sid = Some s -> ascending (map frame_id (sent s)))
  /\ (forall sid, socket w = Some sid -> is_Some (sockets w !! sid)).
Proof.
  intros w.
  assert (Wired w) as (Hv & Hp & Hs).
  { apply Wired_run; [apply Inv_initial|]. split; [done|]. split; [done|].
    by constructor. }
  split; [done|]. split; [|split].
  - rewrite Hp. apply NoDup_seqZ.
  - intros sid s Hsid. rewrite Forall_forall in Hs. apply Hs.
    unfold traffic. apply list_elem_of_In, in_map, list_elem_of_In.
    by eapply list_elem_of_lookup_2.
  - intros sid Hsid. apply lookup_lt_is_Some. by apply Hv.
Qed.

(** ** The text logged for a command *)

Lemma append_String c (a b : string) : String c a +:+ b = String c (a +:+ b).
Proof. reflexivity. Qed.

Lemma append_Empty (b : string) : EmptyString +:+ b = b.
Proof. reflexivity. Qed.

Lemma length_append (a b : string) :
  String.length (a +:+ b) = String.length a + String.length b.
Proof.
  induction a as [|c a IH]; [done|]. rewrite append_String. simpl. by rewrite IH.
Qed.

Lemma append_assoc (a b c : string) : (a +:+ b) +:+ c = a +:+ (b +:+ c).
Proof.
  induction a as [|x a IH]; [done|]. rewrite !append_String. by rewrite IH.
Qed.

Lemma substring_append_skip (a b : string) n m :
  substring (String.length a + n) m (a +:+ b) = substring n m b.
Proof. induction a as [|c a IH]; [done|]. rewrite append_String. simpl. apply IH. Qed.

Lemma substring_zero (s : string) : substring 0 0 s = EmptyString.
Proof. by destruct s. Qed.

Lemma substring_append_take (a b : string) m :
  substring 0 (String.length a + m) (a +:+ b) = a +:+ substring 0 m b.
Proof.
  induction a as [|c a IH]; [done|]. rewrite !append_String. simpl. by rewrite IH.
Qed.

Lemma substring_whole (a b : string) :
  substring 0 (String.length a) (a +:+ b) = a.
Proof.
  induction a as [|c a IH]; [apply substring_zero|].
  rewrite append_String. simpl. by rewrite IH.
Qed.

Lemma index_found t s k :
  t <> EmptyString ->
  substring k (String.length t) s = t -> nowhere_before t s k ->
  index 0 t s = Some k.
Proof.
  intros Ht Hk Hbefore.
  destruct (index 0 t s) as [m|] eqn:Hi.
  - f_equal. destruct (Nat.lt_trichotomy m k) as [Hlt|[->|Hgt]]; [|done|].
    + exfalso. apply (Hbefore m Hlt). by eapply index_correct1.
    + exfalso. by apply (index_correct2 0 m t s Hi k); [lia| |].
  - exfalso. by apply (index_correct3 0 k t s Hi Ht); [lia|].
Qed.

Lemma index_nowhere_before t s k : index 0 t s = Some k -> nowhere_before t s k.
Proof. intros Hi p Hp. apply (index_correct2 0 k t s Hi); lia. Qed.

Lemma index_char_skip c (a r : string) :
  index 0 (String c EmptyString) a = None ->
  index 0 (String c EmptyString) (a +:+ String c r) = Some (String.length a).
Proof.
  induction a as [|x a IH]; [rewrite append_Empty|rewrite append_String]; simpl.
  - intros _. destruct (ascii_dec c c); [|done]. by destruct r.
  - destruct (ascii_dec c x) as [->|Hne].
    + by destruct a.
    + destruct (index 0 (String c EmptyString) a) as [n|] eqn:Hi; [done|].
      intros _. by rewrite IH.
Qed.

Lemma slice_within (s : string) (i j : nat) :
  i <= j -> j <= String.length s ->
  slice s (Z.of_nat i) (Z.of_nat j) = substring i (j - i) s.
Proof.
  intros Hij Hj. unfold slice.
  destruct (Z.ltb_spec (Z.of_nat i) 0); [lia|].
  destruct (Z.ltb_spec (Z.of_nat j) 0); [lia|].
  f_equal; lia.
Qed.

Lemma slice_between (a b c : string) :
  slice (a +:+ b +:+ c) (Z.of_nat (String.length a))
        (Z.of_nat (String.length a + String.length b)) = b.
Proof.
  rewrite slice_within; [|lia|rewrite !length_append; lia].
  replace (String.length a + String.length b - String.length a)
    with (String.length b) by lia.
  rewrite <- (Nat.add_0_r (String.length a)), substring_append_skip.
  apply substring_whole.
Qed.

Lemma index_char_absent c (a b : string) :
  index 0 (String c EmptyString) a = None ->
  index 0 (String c EmptyString) b = None ->
  index 0 (String c EmptyString) (a +:+ b) = None.
Proof.
  intros Ha Hb. induction a as [|x a IH]; [done|].
  rewrite append_String. simpl in *.
  destruct (ascii_dec c x) as [->|Hne]; [by destruct a|].
  destruct (index 0 (String c EmptyString) a) as [n|]; [done|].
  by rewrite IH.
Qed.

Lemma fnName_wrapped pre name rest post :
  let before := pre +:+ SCRIPT_PREFIX +:+ functionPrefix +:+ name +:+ "(" +:+ rest in
  let fn := before +:+ SCRIPT_SUFFIX +:+ post in
  nowhere_before SCRIPT_PREFIX fn (String.length pre) ->
  nowhere_before SCRIPT_SUFFIX fn (String.length before) ->
  index 0 "(" name = None ->
  fnName (JStr fn) = Ret name.
Proof.
  intros before fn Hprefix Hsuffix Hname.
  set (inner := functionPrefix +:+ name +:+ "(" +:+ rest).
  assert (fn = (pre +:+ SCRIPT_PREFIX) +:+ inner +:+ (SCRIPT_SUFFIX +:+ post)) as Hfn
    by (unfold fn, before, inner; by rewrite !append_assoc).
  assert (before = (pre +:+ SCRIPT_PREFIX) +:+ inner) as Hbefore
    by (unfold before, inner; by rewrite !append_assoc).
  assert (index 0 SCRIPT_PREFIX fn = Some (String.length pre)) as Hi1.
  { apply index_found; [done| |done].
    unfold fn, before.
    rewrite append_assoc, <- (Nat.add_0_r (String.length pre)), substring_append_skip.
    rewrite append_assoc. apply substring_whole. }
  assert (index 0 SCRIPT_SUFFIX fn = Some (String.length before)) as Hi2.
  { apply index_found; [done| |done].
    unfold fn.
    rewrite <- (Nat.add_0_r (String.length before)), substring_append_skip.
    apply substring_whole. }
  assert (internalFn fn = inner) as Hinner.
  { unfold internalFn, indexOf. rewrite Hi1, Hi2, <- Nat2Z.inj_add.
    rewrite Hbefore, (length_append (pre +:+ SCRIPT_PREFIX) inner).
    rewrite <- (length_append pre SCRIPT_PREFIX), Hfn.
    apply slice_between. }
  unfold fnName, includes. rewrite Hi1, Hinner.
  assert (String.prefix functionPrefix inner = true) as ->
    by (apply prefix_correct, substring_whole).
  f_equal. unfold indexOf.
  assert (index 0 functionPrefix inner = Some 0) as ->.
  { apply index_found; [done|apply substring_whole|]. intros p Hp. lia. }
  assert (index 0 "(" inner = Some (String.length (functionPrefix +:+ name))) as ->.
  { unfold inner. rewrite <- append_assoc.
    apply (index_char_skip "("%char (functionPrefix +:+ name) rest).
    by apply index_char_absent. }
  change (0 + Z.of_nat (String.length functionPrefix))%Z
    with (Z.of_nat (String.length functionPrefix)).
  rewrite length_append. unfold inner.
  apply (slice_between functionPrefix name ("(" +:+ rest)).
Qed.

(** X20. The name in the log of a function call. When the declaration of
    a [script.callFunction] command holds, between the first
    [SCRIPT_PREFIX] and the first [SCRIPT_SUFFIX], a text that starts with
    [function name(], the text returned for the log is the JSON text of the
    parameters with the declaration replaced by [<Function[N bytes] name>],
    N the number of bytes of the whole declaration, and by
    [<Function[N bytes] anonymous>] when the name is empty; the other
    parameters are as they were. *)
Theorem function_name_logged (R : Renderer) param pre name rest post :
  let before := pre +:+ SCRIPT_PREFIX +:+ functionPrefix +:+ name +:+ "(" +:+ rest in
  let fn := before +:+ SCRIPT_SUFFIX +:+ post in
  own_property "functionDeclaration" param = Some (JStr fn) ->
  nowhere_before SCRIPT_PREFIX fn (String.length pre) ->
  nowhere_before SCRIPT_SUFFIX fn (String.length before) ->
  index 0 "(" name = None ->
  parseBidiCommand R {| method := "script.callFunction"; params := JObj param |}
  = Ret ("script.callFunction",
         JSON_stringify R
           (JObj (with_property "functionDeclaration"
                    (JStr ("<Function["
                           +:+ pretty (TextEncoder_encode_length R (JStr fn))
                           +:+ " bytes] " +:+ or_anonymous name +:+ ">"))
                    param))).
Proof.
  intros before fn Hparam Hprefix Hsuffix Hname.
  unfold parseBidiCommand. simpl. rewrite Hparam. simpl.
  pose proof (fnName_wrapped pre name rest post Hprefix Hsuffix Hname) as H.
  change (fnName (JStr fn) = Ret name) in H. by rewrite H.
Qed.

(** X21. Rendering a command for the log does not throw. For every
    command whose parameters are what its type says (for the two script
    commands an object with a string [functionDeclaration]),
    [parseBidiCommand] returns, its first value is the method name, and for
    any method but the two script commands the second is
    [JSON.stringify(params.params)]: the call in [sendAsync] cannot make a
    send fail. *)
Theorem parseBidiCommand_returns (R : Renderer) command :
  typed command = true ->
  exists text,
    parseBidiCommand R command = Ret (method command, text)
    /\ (method command <> "script.addPreloadScript" ->
        method command <> "script.callFunction" ->
        text = JSON_stringify R (params command)).
Proof.
  unfold typed, parseBidiCommand. intros Ht.
  destruct (String.eqb_spec (method command) "script.addPreloadScript") as [Hm|Hm].
  - simpl in Ht. destruct (params command) as [| |b|z|l|s|items|param]; try done.
    simpl. eexists. split; [done|]. intros H. done.
  - destruct (String.eqb_spec (method command) "script.callFunction") as [Hc|Hc].
    + simpl in Ht. destruct (params command) as [| |b|z|l|s|items|param]; try done.
      destruct (own_property "functionDeclaration" param)
        as [[| |b|z|l|s|items|fs]|]; try done.
      simpl. unfold fnName. destruct (includes s SCRIPT_PREFIX);
        [destruct (String.prefix functionPrefix (internalFn s))|];
        (eexists; split; [done|]; intros _ H; done).
    + eexists. split; done.
Qed.

(** ** A settled command stays settled *)

Section Settled.

Context (P : Platform).

Lemma handleResponse_settled data w h sc :
  Inv w -> sends w !! h = Some sc -> sc_timer sc <> Armed ->
  sends (snd (handleResponse P data w)) !! h = Some sc.
Proof.
  intros Hw Hsc Hset.
  destruct (handleResponse_cases P data w) as [Hf|(payload & n & h2 & Hp & Hid & Hn & Hh)].
  - unfold correlator in Hf. injection Hf as _ _ Hs _ _. by rewrite Hs.
  - pose proof (handleResponse_resolves P data w payload n h2 Hp Hid Hn Hh) as Hc.
    unfold correlator in Hc. injection Hc as _ _ Hs _ _.
    destruct (inv_table _ _ _ _ _ Hw n h2 Hh) as (sc2 & Hsc2 & _ & Harmed).
    assert (h2 <> h) as Hne.
    { intros ->. rewrite Hsc in Hsc2. injection Hsc2 as ->. done. }
    rewrite Hs. by rewrite !list_lookup_alter_ne.
Qed.

Lemma timer_fire_settled h0 w h sc :
  sends w !! h = Some sc -> sc_timer sc <> Armed ->
  sends (timer_fire h0 w) !! h = Some sc.
Proof.
  intros Hsc Hset.
  destruct (timer_fire_cases h0 w) as [Hf|(sc0 & Hsc0 & Harmed & _ & Hc)].
  - unfold correlator in Hf. injection Hf as _ _ Hs _ _. by rewrite Hs.
  - unfold correlator in Hc. injection Hc as _ _ Hs _ _.
    assert (h0 <> h) as Hne.
    { intros ->. rewrite Hsc in Hsc0. injection Hsc0 as ->. done. }
    rewrite Hs. by rewrite !list_lookup_alter_ne.
Qed.

Lemma step_settled ev w h sc :
  Inv w -> sends w !! h = Some sc -> sc_timer sc <> Armed ->
  sends (snd (step P ev w)) !! h = Some sc.
Proof.
  intros Hw Hsc Hset.
  assert (forall w', correlator w' = correlator w -> sends w' !! h = Some sc) as Hframe.
  { intros w' Hc. unfold correlator in Hc. injection Hc as _ _ Hs _ _. by rewrite Hs. }
  destruct ev as [c|v| |h0 a4 a6|sid|sid m|sid data| |url opts|cmd|cmd|h0|ms]; simpl;
    try done.
  - pose proof (connect_correlator P w) as H.
    destruct (connect P w) as [h1 w1]. by apply Hframe.
  - apply Hframe, dns_settled_correlator.
  - apply Hframe, on_open_correlator.
  - apply Hframe, on_error_correlator.
  - unfold on_message. destruct (sockets w !! sid) as [s|]; [|done].
    enough (Inv (Nat.iter (message_listeners s)
                   (fun w' => snd (handleResponse P data w')) w)
            /\ sends (Nat.iter (message_listeners s)
                        (fun w' => snd (handleResponse P data w')) w) !! h = Some sc)
      as [_ H] by exact H.
    induction (message_listeners s) as [|n [IHi IHs]]; simpl; [done|].
    split; [by apply Inv_handleResponse|by apply handleResponse_settled].
  - apply Hframe, close_correlator.
  - pose proof (reconnect_correlator P url opts w) as H.
    destruct (reconnect P url opts w) as [h1 w1]. by apply Hframe.
  - destruct (sendAsync_cases P cmd w) as [(e & -> & _)|(sid & w1 & _ & _ & -> & Hc)]; [done|].
    simpl. unfold correlator in Hc. injection Hc as _ _ Hs _ _. by rewrite Hs.
  - destruct (send_cases P cmd w) as [(e & -> & _)|(w1 & -> & Hc)]; [done|].
    simpl. unfold correlator in Hc. injection Hc as _ _ Hs _ _. rewrite Hs.
    rewrite lookup_app_l; [done|]. by eapply lookup_lt_Some.
  - by apply timer_fire_settled.
Qed.

Lemma run_settled evs w h sc :
  Inv w -> sends w !! h = Some sc -> sc_timer sc <> Armed ->
  sends (snd (run P evs w)) !! h = Some sc.
Proof.
  revert w. induction evs as [|ev evs IH]; intros w Hw Hsc Hset; [done|].
  rewrite run_cons. apply IH; [by apply Inv_step|by apply step_settled|done].
Qed.

End Settled.

(** X22. A settled command stays settled. In every world a run reaches,
    once the promise of a [send] is settled (its timer was cleared by the
    response, or it ran), nothing that happens later changes it: a second
    response with the same identifier, a late response after the timeout, a
    timer, a reconnect or further commands leave the promise, the timer and
    the command as they are, and the identifier never comes back into the
    table. *)
Theorem settled_send_is_final (P : Platform) url opts env evs later h sc :
  let w := snd (run P evs (initial url opts env)) in
  sends w !! h = Some sc ->
  sc_timer sc <> Armed ->
  let w' := snd (run P later w) in
  sends w' !! h = Some sc
  /\ send_promise h w' = send_promise h w
  /\ _pendingCommands (core w') !! sc_id sc = None.
Proof.
  intros w Hsc Hset w'.
  assert (Inv w) as Hw by apply Inv_run, Inv_initial.
  assert (Inv w') as Hw' by by apply Inv_run.
  assert (sends w' !! h = Some sc) as Hsc' by by apply run_settled.
  split; [done|]. split.
  - unfold send_promise. by rewrite Hsc, Hsc'.
  - pose proof (inv_state _ _ _ _ _ Hw' h sc Hsc') as Hst.
    unfold waiter_state in Hst. destruct (sc_timer sc); [done| |]; by destruct Hst as (_ & ? & _).
Qed.

(** ** Reconnecting to a bad endpoint *)

(** X23. [reconnect] to a text that is no URL. The connection is closed
    before the URL is looked at: the old socket gets [close()] and
    [terminate()], the bad text is stored in [#webSocketUrl], [new URL]
    throws and the promise [reconnect] returns is rejected with its error;
    no socket is made, the session is left not connected with no active
    socket, and [#waitForConnected] still holds the promise of the old
    connection. *)
Theorem reconnect_invalid_url (P : Platform) url opts w sid s :
  env_truthy (WDIO_UNIT_TESTS w) = false ->
  _isConnected (core w) = true ->
  _ws (core w) = Some sid ->
  sockets w !! sid = Some s ->
  URL_hostname P url = None ->
  let h := fst (reconnect P url opts w) in
  let w' := snd (reconnect P url opts w) in
  connect_promise h w' = RejectedWith (InvalidURL url)
  /\ sockets w' = <[sid := sock_terminate (sock_close s)]> (sockets w)
  /\ races w' = races w
  /\ isConnected w' = false
  /\ socket w' = None
  /\ _webSocketUrl (core w') = url
  /\ waitForConnected w' = waitForConnected w
  /\ log w' = log w ++ [LogReconnect url; LogClose (_webSocketUrl (core w));
                        LogConnecting url]
  /\ correlator w' = correlator w.
Proof.
  intros Henv Hc Hws Hs Hhost h w'.
  assert (correlator w' = correlator w) as Hcorr by apply reconnect_correlator.
  revert Hcorr. subst h w'. unfold reconnect.
  rewrite (close_unfold (write_log (LogReconnect url) w) sid Hc Hws).
  unfold connect, connect_body, listWebsocketCandidateUrls. simpl.
  rewrite Henv, Hhost. simpl.
  intros Hcorr. unfold isConnected, socket, waitForConnected, connect_promise. simpl.
  repeat split; try done.
  - rewrite lookup_app_r by done. by rewrite Nat.sub_diag.
  - rewrite (list_alter_as_insert _ _ _ _ Hs).
    erewrite list_alter_as_insert
      by (apply list_lookup_insert_eq; by eapply lookup_lt_Some).
    by rewrite list_insert_insert_eq.
  - by rewrite <- !app_assoc.
Qed.

(** ** Listeners *)

Lemma ears_alter f i (l : list Socket) :
  (forall s, once_open (f s) = once_open s) ->
  (forall s, message_listeners (f s) = message_listeners s) ->
  map (fun s => (once_open s, message_listeners s)) (alter f i l)
  = map (fun s => (once_open s, message_listeners s)) l.
Proof.
  intros Ho Hm. revert i. induction l as [|s l IH]; intros [|i]; simpl; try done.
  - by rewrite Ho, Hm.
  - f_equal. apply IH.
Qed.

Lemma calm_refl w : calm w w.
Proof. split; [|by left]. exists 0. simpl. by rewrite app_nil_r. Qed.

Lemma calm_same w w' :
  ears w' = ears w -> _ws (core w') = _ws (core w) -> calm w w'.
Proof.
  intros He Hws. split; [|by left]. exists 0. simpl. by rewrite app_nil_r.
Qed.

Lemma calm_trans w1 w2 w3 : calm w1 w2 -> calm w2 w3 -> calm w1 w3.
Proof.
  intros ([k1 H1] & Hw1) ([k2 H2] & Hw2). split.
  - exists (k1 + k2). by rewrite H2, H1, replicate_add, app_assoc.
  - destruct Hw2 as [->|Hn]; [done|by right].
Qed.

Lemma calm_settle_race r w : calm w (settle_race r w).
Proof.
  apply calm_same; [|apply settle_race_ws].
  unfold ears, settle_race, connectWebsocket_resume.
  destruct (races w !! r) as [race|]; [|done].
  destruct (race_result race); [done|].
  destruct (firstWebsocketConnected race || all_settled race w); [|done].
  destruct (_ws (core w)); simpl.
  - apply (foldl_keeps
             (fun w => map (fun s => (once_open s, message_listeners s)) (sockets w))).
    intros w' a. simpl. by apply ears_alter.
  - by apply (foldl_keeps
                (fun w => map (fun s => (once_open s, message_listeners s)) (sockets w))).
Qed.

Lemma calm_on_error sid m w : calm w (on_error sid m w).
Proof.
  unfold on_error. destruct (sockets w !! sid) as [s|] eqn:Hs; [|apply calm_refl].
  destruct (once_error s); [|apply calm_refl].
  eapply calm_trans; [|apply calm_settle_race].
  apply calm_same; [|done].
  unfold ears. simpl. by rewrite !ears_alter.
Qed.

Lemma calm_connect_resume urls w : calm w (snd (connect_resume urls w)).
Proof.
  unfold connect_resume, connectWebsocket. simpl.
  eapply calm_trans; [|eapply calm_trans; [apply calm_settle_race|by apply calm_same]].
  split; [|by left].
  exists (length urls). unfold ears. simpl. rewrite map_app. f_equal.
  induction urls as [|u urls IH]; simpl; [done|]. by rewrite IH.
Qed.

Lemma calm_close w : calm w (close w).
Proof.
  unfold close. destruct (_isConnected (core w)); simpl; [|apply calm_refl].
  destruct (_ws (core w)) eqn:Hws; simpl; [|by apply calm_same].
  split; [|by right].
  exists 0. rewrite app_nil_r. unfold ears. simpl. by rewrite !ears_alter.
Qed.

Lemma calm_timer_fire h w : calm w (timer_fire h w).
Proof.
  unfold timer_fire.
  destruct (sends w !! h) as [sc|]; [|apply calm_refl].
  destruct (sc_timer sc); try apply calm_refl.
  destruct (sc_deadline sc <=? now w)%Z; [|apply calm_refl].
  by apply calm_same.
Qed.

Lemma calm_sendAsync (P : Platform) command w : calm w (snd (sendAsync P command w)).
Proof.
  destruct (sendAsync_outcome P command w)
    as [[e ->]|(sid & rendering & Hws & Hc & ->)]; [apply calm_refl|]. simpl.
  apply calm_same.
  - unfold ears, emit. simpl.
    destruct (client (core w)); simpl; by rewrite ears_alter.
  - unfold emit. simpl. by destruct (client (core w)).
Qed.

Lemma Listening_calm w w' : calm w w' -> Listening w -> Listening w'.
Proof.
  intros ([k He] & Hws) (Hall & Hact). split.
  - rewrite He. apply Forall_app. split; [done|].
    apply Forall_replicate. simpl. split; [lia|done].
  - intros sid Hsid. destruct Hws as [Heq|Hn]; [|congruence].
    rewrite Heq in Hsid. destruct (Hact sid Hsid) as [b Hb].
    exists b. rewrite He. by apply lookup_app_l_Some.
Qed.

Lemma Listening_on_open sid w : Listening w -> Listening (on_open sid w).
Proof.
  intros Hw. unfold on_open.
  destruct (sockets w !! sid) as [s|] eqn:Hs; [|done].
  destruct (once_open s) eqn:Ho; [|done].
  eapply Listening_calm; [apply calm_settle_race|].
  destruct Hw as (Hall & Hact).
  assert (ears w !! sid = Some (true, message_listeners s)) as He.
  { unfold ears. change (map ?f ?l) with (f <$> l).
    by rewrite list_lookup_fmap, Hs, <- Ho. }
  assert (message_listeners s = 0) as Hm.
  { rewrite Forall_lookup in Hall. destruct (Hall sid _ He) as [_ Hz]. by apply Hz. }
  destruct (_ws (core w)) as [a|] eqn:Hws.
  - assert (a <> sid) as Hne.
    { intros ->. destruct (Hact sid eq_refl) as [b Hb]. rewrite He in Hb.
      injection Hb as _ Hb. lia. }
    assert (ears (upd_sockets (alter sock_settle sid)
                    (upd_sockets (alter sock_fire_open sid) w))
            = <[sid := (false, 0)]> (ears w)) as Hears.
    { unfold ears. simpl. rewrite (ears_alter sock_settle) by done.
      rewrite (list_alter_as_insert _ _ _ _ Hs).
      change (map ?f ?l) with (f <$> l). rewrite list_fmap_insert. simpl.
      by rewrite Hm. }
    simpl. rewrite Hws. split.
    + rewrite Hears. apply Forall_insert; [done|]. simpl. split; [lia|done].
    + intros sid' Hsid'. simpl in Hsid'. rewrite Hws in Hsid'. injection Hsid' as <-.
      destruct (Hact a eq_refl) as [b Hb]. exists b.
      rewrite Hears. by rewrite list_lookup_insert_ne.
  - assert (ears (upd_sockets (alter sock_settle sid)
                    (upd_races (alter race_first_connected (sock_race s))
                       (upd_sockets (alter sock_on_message sid)
                          (upd_core (set_ws (Some sid))
                             (write_log (LogConnected (sock_url s))
                                (upd_sockets (alter sock_fire_open sid) w))))))
            = <[sid := (false, 1)]> (ears w)) as Hears.
    { unfold ears. simpl. rewrite (ears_alter sock_settle) by done.
      rewrite (list_alter_as_insert _ _ _ _ Hs).
      erewrite list_alter_as_insert
        by (apply list_lookup_insert_eq; by eapply lookup_lt_Some).
      rewrite list_insert_insert_eq.
      change (map ?f ?l) with (f <$> l). rewrite list_fmap_insert. simpl.
      by rewrite Hm. }
    simpl. rewrite Hws. split.
    + rewrite Hears. apply Forall_insert; [done|]. simpl. split; [lia|done].
    + intros sid' Hsid'. simpl in Hsid'. injection Hsid' as <-.
      exists false. rewrite Hears. apply list_lookup_insert_eq.
      apply lookup_lt_Some in He. done.
Qed.

Section Listeners.

Context (P : Platform).

Lemma calm_connect w : calm w (snd (connect P w)).
Proof.
  unfold connect, connect_body.
  destruct (env_truthy (WDIO_UNIT_TESTS w)); [by apply calm_same|].
  destruct (listWebsocketCandidateUrls P _) as [[urls|host urls]|e];
    try by apply calm_same.
  pose proof (calm_connect_resume urls
                (write_log (LogConnecting (_webSocketUrl (core w))) w)) as H.
  destruct (connect_resume urls _) as [c w1]. simpl in *.
  eapply calm_trans; [|eapply calm_trans; [exact H|by apply calm_same]].
  by apply calm_same.
Qed.

Lemma calm_dns_settled h a4 a6 w : calm w (dns_settled P h a4 a6 w).
Proof.
  unfold dns_settled.
  destruct (connects w !! h) as [[|host urls|r|e]|]; try apply calm_refl.
  destruct (listWebsocketCandidateUrls_resume P host urls a4 a6 w) as [urls'|e];
    [|by apply calm_same].
  pose proof (calm_connect_resume urls' w) as H.
  destruct (connect_resume urls' w) as [c w1]. simpl in *.
  eapply calm_trans; [exact H|by apply calm_same].
Qed.

Lemma calm_reconnect url opts w : calm w (snd (reconnect P url opts w)).
Proof.
  unfold reconnect.
  eapply calm_trans; [|apply calm_connect].
  eapply calm_trans; [|eapply calm_trans; [apply calm_close|by apply calm_same]].
  by apply calm_same.
Qed.

Lemma calm_handleResponse data w : calm w (snd (handleResponse P data w)).
Proof.
  apply calm_same.
  - unfold ears. by rewrite handleResponse_sockets.
  - pose proof (handleResponse_connection P data w) as H. unfold connection in H.
    by injection H.
Qed.

Lemma calm_on_message sid data w : calm w (on_message P sid data w).
Proof.
  unfold on_message. destruct (sockets w !! sid) as [s|]; [|apply calm_refl].
  induction (message_listeners s) as [|n IH]; simpl; [apply calm_refl|].
  eapply calm_trans; [exact IH|apply calm_handleResponse].
Qed.

Lemma Listening_step ev w : Listening w -> Listening (snd (step P ev w)).
Proof.
  intros Hw.
  destruct ev as [c|v| |h a4 a6|sid|sid m|sid data| |url opts|cmd|cmd|h|ms]; simpl.
  - eapply Listening_calm; [|exact Hw]. by apply calm_same.
  - eapply Listening_calm; [|exact Hw]. by apply calm_same.
  - pose proof (calm_connect w) as H. destruct (connect P w) as [h w1].
    by eapply Listening_calm.
  - eapply Listening_calm; [apply calm_dns_settled|done].
  - by apply Listening_on_open.
  - eapply Listening_calm; [apply calm_on_error|done].
  - eapply Listening_calm; [apply calm_on_message|done].
  - eapply Listening_calm; [apply calm_close|done].
  - pose proof (calm_reconnect url opts w) as H.
    destruct (reconnect P url opts w) as [h w1]. by eapply Listening_calm.
  - pose proof (calm_sendAsync P cmd w) as H.
    destruct (sendAsync P cmd w) as [[id|e] w1]; by eapply Listening_calm.
  - pose proof (calm_sendAsync P cmd w) as H.
    unfold send, bind, gets, modify, ret.
    destruct (sendAsync P cmd w) as [[id|e] w1]; simpl in *; [|by eapply Listening_calm].
    eapply Listening_calm; [|exact Hw].
    eapply calm_trans; [exact H|by apply calm_same].
  - eapply Listening_calm; [apply calm_timer_fire|done].
  - eapply Listening_calm; [|exact Hw]. by apply calm_same.
Qed.

Lemma Listening_run evs w : Listening w -> Listening (snd (run P evs w)).
Proof.
  revert w. induction evs as [|ev evs IH]; intros w Hw; [done|].
  rewrite run_cons. by apply IH, Listening_step.
Qed.

End Listeners.

(** X24. Every message is handled once. In every world a run reaches, no
    socket has more than one ['message'] listener, however many times
    [connect] and [reconnect] were called; a socket that has not opened has
    none, so a message on it is dropped; and the active socket has exactly
    one, so a message on it runs [#handleResponse] once. *)
Theorem message_handled_once (P : Platform) url opts env evs sid s data :
  let w := snd (run P evs (initial url opts env)) in
  sockets w !! sid = Some s ->
  message_listeners s <= 1
  /\ (once_open s = true -> on_message P sid data w = w)
  /\ (socket w = Some sid -> on_message P sid data w = snd (handleResponse P data w)).
Proof.
  intros w Hs.
  assert (Listening w) as (Hall & Hact).
  { apply Listening_run. split; [by constructor|done]. }
  assert (ears w !! sid = Some (once_open s, message_listeners s)) as He.
  { unfold ears. change (map ?f ?l) with (f <$> l).
    by rewrite list_lookup_fmap, Hs. }
  rewrite Forall_lookup in Hall. destruct (Hall sid _ He) as [Hle Hzero].
  simpl in *. split; [done|]. split.
  - intros Ho. unfold on_message. by rewrite Hs, (Hzero Ho).
  - intros Hsid. destruct (Hact sid Hsid) as [b Hb]. rewrite He in Hb.
    injection Hb as _ Hb. unfold on_message. by rewrite Hs, Hb.
Qed.

(** ** Winning a race after errors *)

Lemma ears_settle_race r w : ears (settle_race r w) = ears w.
Proof.
  unfold ears, settle_race, connectWebsocket_resume.
  destruct (races w !! r) as [race|]; [|done].
  destruct (race_result race); [done|].
  destruct (firstWebsocketConnected race || all_settled race w); [|done].
  destruct (_ws (core w)); simpl.
  - apply (foldl_keeps
             (fun w => map (fun s => (once_open s, message_listeners s)) (sockets w))).
    intros w' a. simpl. by apply ears_alter.
  - by apply (foldl_keeps
                (fun w => map (fun s => (once_open s, message_listeners s)) (sockets w))).
Qed.

Lemma ears_on_error sid m w : ears (on_error sid m w) = ears w.
Proof.
  unfold on_error. destruct (sockets w !! sid) as [s|] eqn:Hs; [|done].
  destruct (once_error s); [|done].
  rewrite ears_settle_race. unfold ears. simpl. by rewrite !ears_alter.
Qed.

Lemma ears_connect_resume urls w :
  ears (snd (connect_resume urls w)) = ears w ++ replicate (length urls) (true, 0).
Proof.
  unfold connect_resume, connectWebsocket. simpl.
  match goal with
  | |- ears (upd_core _ ?x) = _ => change (ears x = ears w ++ replicate (length urls) (true, 0))
  end.
  rewrite ears_settle_race.
  unfold ears. simpl. rewrite map_app. f_equal.
  induction urls as [|u urls IH]; simpl; [done|]. by rewrite IH.
Qed.

Section WonRace.

Context (urls : list string) (w : World) (j : nat) (url : string).

Local Abbreviation first := (length (sockets w)).
Local Abbreviation rid := (length (races w)).

Lemma errors_keep_racing todo errs w' :
  urls !! j = Some url ->
  racing urls w errs w' ->
  NoDup ((errs ++ todo).*1) ->
  (forall sid, sid ∈ (errs ++ todo).*1 ->
               first <= sid < first + length urls /\ sid ≠ first + j) ->
  racing urls w (errs ++ todo) (foldl (fun w'' e => on_error (fst e) (snd e) w'') w' todo).
Proof.
  intros Hj. revert errs w'.
  induction todo as [|[sid m] todo IH]; intros errs w' Hr Hnd Hin.
  - by rewrite app_nil_r.
  - assert (exists i, sid = first + i /\ i < length urls) as (i & -> & Hlt).
    { exists (sid - first).
      assert (first <= sid < first + length urls); [|lia].
      apply Hin. rewrite fmap_app. apply elem_of_app. right. simpl. left. }
    assert (first + i ∉ errs.*1) as Hnew.
    { rewrite fmap_app in Hnd. apply NoDup_app in Hnd as (_ & Hd & _).
      intros Hs. apply (Hd _ Hs). simpl. left. }
    apply lookup_lt_is_Some_2 in Hlt as [url' Hurl'].
    destruct (on_error_racing urls w errs w' i url' m Hr Hurl' Hnew) as (w2 & Hstep & Hr2).
    simpl foldl. rewrite Hstep.
    replace (errs ++ (first + i, m) :: todo)
      with ((errs ++ [(first + i, m)]) ++ todo) in *
      by (by rewrite <- app_assoc).
    rewrite (settle_race_waiting urls w (errs ++ [(first + i, m)]) w2 j url); try done.
    + by apply IH.
    + intros Hs. assert (first + j ∈ ((errs ++ [(first + i, m)]) ++ todo).*1) as Hs'.
      { rewrite fmap_app. apply elem_of_app. by left. }
      apply Hin in Hs'. lia.
Qed.

End WonRace.

(** X25. A candidate that opens after others failed wins, and their errors
    are never logged. In a race started with no active socket, after the
    ['error'] events of any candidates but one (each at most once, in any
    order) the promise is still pending and nothing was logged; the
    ['open'] event of a candidate that has not reported then makes it the
    active socket, sets the connected flag and fulfils
    [waitForConnected()] with [true]; the log gets the line of the
    connection only: the messages of the failed candidates stay in the
    race and are dropped. *)
Theorem open_after_errors_wins urls w (errs : list (nat * string)) j url :
  _ws (core w) = None ->
  urls !! j = Some url ->
  NoDup (map fst errs) ->
  (forall sid, sid ∈ map fst errs ->
               length (sockets w) <= sid < length (sockets w) + length urls
               /\ sid ≠ length (sockets w) + j) ->
  let w1 := snd (connect_resume urls w) in
  let w2 := foldl (fun w' e => on_error (fst e) (snd e) w') w1 errs in
  let w3 := on_open (length (sockets w) + j) w2 in
  waitForConnected w2 = Unsettled
  /\ log w2 = log w
  /\ socket w3 = Some (length (sockets w) + j)
  /\ isConnected w3 = true
  /\ waitForConnected w3 = FulfilledWith true
  /\ log w3 = log w ++ [LogConnected url]
  /\ (exists race, races w3 !! length (races w) = Some race
                   /\ errorMessages race = map (warning_of urls w) errs).
Proof.
  intros Hws Hj Hnd Hin w1 w2 w3.
  change (map fst errs) with (errs.*1) in *.
  assert (urls ≠ []) as Hne by (intros ->; done).
  assert (racing urls w errs w2) as (Hws2 & Hwait2 & Hlog2 & Hraces2 & Hsocks2).
  { apply (errors_keep_racing urls w j url errs [] w1); try done.
    by apply racing_start. }
  destruct (Hsocks2 j url Hj) as (s & Hs & Hurl & Hrace & _ & _).
  assert (once_open s = true) as Ho.
  { assert (ears w2 = ears w ++ replicate (length urls) (true, 0)) as He.
    { unfold w2. rewrite (foldl_keeps ears); [apply ears_connect_resume|].
      intros w' e. apply ears_on_error. }
    assert (ears w2 !! (length (sockets w) + j) = Some (true, 0)) as Hl.
    { rewrite He, lookup_app_r by (unfold ears; rewrite length_map; lia).
      unfold ears. rewrite length_map.
      replace (length (sockets w) + j - length (sockets w)) with j by lia.
      apply lookup_replicate_2. by eapply lookup_lt_Some. }
    unfold ears in Hl. change (map ?f ?l) with (f <$> l) in Hl.
    rewrite list_lookup_fmap, Hs in Hl. by injection Hl as -> _. }
  assert (races w2 !! length (races w) = Some (race_after urls w errs None)) as Hr.
  { rewrite Hraces2, lookup_app_r by lia. by rewrite Nat.sub_diag. }
  split.
  { unfold waitForConnected. by rewrite Hwait2, Hr. }
  split; [done|].
  unfold w3, on_open. rewrite Hs, Ho. cbn [core upd_sockets]. rewrite Hws2.
  rewrite Hrace, Hurl.
  set (X := upd_sockets (alter sock_settle (length (sockets w) + j)) _).
  assert (races X !! length (races w)
          = Some (race_first_connected (race_after urls w errs None))) as HrX.
  { unfold X. simpl. by rewrite list_lookup_alter_eq, Hr. }
  assert (settle_race (length (races w)) X = connectWebsocket_resume (length (races w)) X)
    as -> by (unfold settle_race; by rewrite HrX).
  unfold connectWebsocket_resume. rewrite HrX.
  change (_ws (core X)) with (Some (length (sockets w) + j)). cbv iota beta.
  set (F := foldl _ X _).
  assert (core F = core X) as Hcore
    by (by apply (foldl_keeps core)).
  assert (log F = log X) as Hlog
    by (by apply (foldl_keeps log)).
  assert (races F = races X) as Hraces
    by (by apply (foldl_keeps races)).
  unfold socket, isConnected, waitForConnected. simpl.
  rewrite Hcore, Hlog, Hraces. simpl.
  rewrite Hwait2, !list_lookup_alter_eq, Hr, Hlog2. simpl.
  repeat split; try done.
  eexists. split; [reflexivity|]. done.
Qed.

(** * Further examples *)

(** X1 at an ['error'] event of the active socket. *)
Lemma error_on_active_socket :
  _ws (core (snd (step Sample.node (EvError 0 "ECONNRESET") connected))) = Some 0
  /\ _isConnected (core (snd (step Sample.node (EvError 0 "ECONNRESET") connected))) = true.
Proof.
  apply (connection_kept_until_close Sample.node (EvError 0 "ECONNRESET") connected 0).
  - vm_compute. reflexivity.
  - vm_compute. reflexivity.
  - reflexivity.
Defined.

(** X2 at the connected session. *)
Lemma close_example :
  isConnected (close connected) = false
  /\ socket (close connected) = None
  /\ map close_calls (sockets (close connected)) = [1]
  /\ map terminate_calls (sockets (close connected)) = [1]
  /\ map message_listeners (sockets (close connected)) = [1]
  /\ close (close connected) = close connected.
Proof.
  assert (_isConnected (core connected) = true) as Hc by (vm_compute; reflexivity).
  assert (_ws (core connected) = Some 0) as Hws by (vm_compute; reflexivity).
  assert (sockets connected !! 0 = Some open_socket) as Hs by (vm_compute; reflexivity).
  destruct (close_connected connected 0 open_socket Hc Hws Hs)
    as (H1 & H2 & H3 & _ & _ & _ & H7).
  split; [exact H1|]. split; [exact H2|].
  rewrite H3. split; [vm_compute; reflexivity|].
  split; [vm_compute; reflexivity|]. split; [vm_compute; reflexivity|exact H7].
Defined.

(** X4 at a new BidiCore with [WDIO_UNIT_TESTS=1]. *)
Lemma send_in_test_mode_example :
  isConnected (snd (connect Sample.node (initial literal_url None (Some "1")))) = true
  /\ sendAsync Sample.node create (snd (connect Sample.node (initial literal_url None (Some "1"))))
     = (Throw NotConnectedError,
        snd (connect Sample.node (initial literal_url None (Some "1"))))
  /\ send Sample.node create (snd (connect Sample.node (initial literal_url None (Some "1"))))
     = (Throw NotConnectedError,
        snd (connect Sample.node (initial literal_url None (Some "1")))).
Proof.
  apply (send_in_test_mode Sample.node create (initial literal_url None (Some "1"))).
  - reflexivity.
  - reflexivity.
Defined.


(** X6 at the three candidates of [domain_url], the second opening first. *)
Lemma second_candidate_opens_first :
  socket (on_open 1 (snd (connect_resume three_candidates (initial domain_url None None))))
  = Some 1
  /\ isConnected
       (on_open 1 (snd (connect_resume three_candidates (initial domain_url None None))))
     = true
  /\ waitForConnected
       (on_open 1 (snd (connect_resume three_candidates (initial domain_url None None))))
     = FulfilledWith true
  /\ log (on_open 1 (snd (connect_resume three_candidates (initial domain_url None None))))
     = [LogConnected "ws://10.0.0.1:9222/session"].
Proof.
  pose proof (first_open_wins three_candidates (initial domain_url None None) 1
                "ws://10.0.0.1:9222/session" eq_refl eq_refl) as H.
  cbv zeta in H. destruct H as (H1 & H2 & H3 & H4 & _).
  split; [exact H1|]. split; [exact H2|]. split; [exact H3|exact H4].
Defined.

(** X7 at [domain_url], resolved to two IPv4 addresses. *)
Lemma candidates_of_domain_example :
  map sock_url
    (sockets (dns_settled Sample.node (fst (connect Sample.node (initial domain_url None None)))
                (Addresses ["10.0.0.1"; "10.0.0.2"]) (Addresses [])
                (snd (connect Sample.node (initial domain_url None None)))))
  = three_candidates
  /\ connect_promise (fst (connect Sample.node (initial domain_url None None)))
       (dns_settled Sample.node (fst (connect Sample.node (initial domain_url None None)))
          (Addresses ["10.0.0.1"; "10.0.0.2"]) (Addresses [])
          (snd (connect Sample.node (initial domain_url None None))))
     = Unsettled.
Proof.
  assert (URL_hostname Sample.node (_webSocketUrl (core (initial domain_url None None)))
          = Some "example.test") as Hh by (vm_compute; reflexivity).
  assert (isIP Sample.node "example.test" = 0%Z) as Hip by (vm_compute; reflexivity).
  pose proof (candidates_of_domain Sample.node (initial domain_url None None)
                "example.test" ["10.0.0.1"; "10.0.0.2"] [] eq_refl Hh Hip) as H.
  cbv zeta in H. destruct H as (H1 & _ & _ & H4).
  rewrite H1. split; [vm_compute; reflexivity|exact H4].
Defined.

(** The candidates of X7 are what [replace] makes of the URL: with a host
    named as the scheme is, the scheme is what gets replaced. *)
Example replace_rewrites_the_first_match :
  map sock_url
    (sockets (snd (run Sample.node
                     [EvConnect; EvDns 0 (Addresses ["10.0.0.1"; "10.0.0.2"]) (Addresses [])]
                     (initial scheme_named_url None None))))
  = ["ws://ws:9222/session"; "10.0.0.1://ws:9222/session"; "10.0.0.2://ws:9222/session"].
Proof. vm_compute. reflexivity. Qed.

(** X8 at [literal_url]. *)
Lemma candidate_of_ip_literal_example :
  sockets (snd (connect Sample.node (initial literal_url None None)))
  = [new_socket literal_url None 0]
  /\ connects (snd (connect Sample.node (initial literal_url None None))) !! 0
     = Some (Racing 0)
  /\ dns_settled Sample.node 0 (Addresses ["10.0.0.1"]) (Addresses [])
       (snd (connect Sample.node (initial literal_url None None)))
     = snd (connect Sample.node (initial literal_url None None)).
Proof.
  assert (URL_hostname Sample.node (_webSocketUrl (core (initial literal_url None None)))
          = Some "127.0.0.1") as Hh by (vm_compute; reflexivity).
  assert (isIP Sample.node "127.0.0.1" ≠ 0%Z) as Hip by (vm_compute; discriminate).
  pose proof (candidate_of_ip_literal Sample.node (initial literal_url None None)
                "127.0.0.1" (Addresses ["10.0.0.1"]) (Addresses []) eq_refl Hh Hip) as H.
  cbv zeta in H. destruct H as (H1 & H2 & H3).
  split; [exact H1|]. split; [exact H2|exact H3].
Defined.

(** X9 at a response to a command nobody waits for. *)
Lemma stale_response_example :
  fst (handleResponse Sample.node stale_text connected) = Ret tt
  /\ log (snd (handleResponse Sample.node stale_text connected))
     = log connected ++ [LogBidiResult (RawText stale_text); LogCouldntResolve (JNum 9)]
  /\ correlator (snd (handleResponse Sample.node stale_text connected))
     = correlator connected.
Proof.
  assert (JSON_parse Sample.node stale_text
          = Some (JObj [("id", JNum 9); ("result", JObj [])])) as Hp
    by (vm_compute; reflexivity).
  pose proof (response_without_waiter Sample.node stale_text
                (JObj [("id", JNum 9); ("result", JObj [])]) (JNum 9) connected
                Hp eq_refl eq_refl eq_refl) as H.
  cbv zeta in H. destruct H as (H1 & H2 & _ & H4).
  split; [exact H1|]. split; [exact H2|exact H4].
Defined.

(** X10 at two waiting commands: the response to the first and the timer of
    the first leave the second waiting. *)
Lemma second_command_still_waits :
  sends (snd (handleResponse Sample.node result_text
                (snd (run Sample.node (two_waiting ++ [EvElapse 60000])
                        (initial literal_url None None))))) !! 1
  = Some second_waiting
  /\ sends (timer_fire 0 (snd (run Sample.node (two_waiting ++ [EvElapse 60000])
                                 (initial literal_url None None)))) !! 1
     = Some second_waiting.
Proof.
  pose proof (other_waiters_untouched Sample.node literal_url None None
                (two_waiting ++ [EvElapse 60000]) result_text 0 1 second_waiting) as H.
  cbv zeta in H. destruct (H eq_refl) as [H1 H2].
  split.
  - apply H1. intros payload Hp. vm_compute in Hp. injection Hp as <-.
    vm_compute. discriminate.
  - apply H2. discriminate.
Defined.

(** X11 at two waiting commands, the second answered first. *)
Lemma responses_in_reverse_order :
  send_promise 0
    (snd (handleResponse Sample.node result_text
            (snd (handleResponse Sample.node second_result_text
                    (snd (run Sample.node two_waiting (initial literal_url None None)))))))
  = FulfilledWith (JObj [("id", JNum 1); ("result", JObj [])])
  /\ send_promise 1
       (snd (handleResponse Sample.node result_text
               (snd (handleResponse Sample.node second_result_text
                       (snd (run Sample.node two_waiting (initial literal_url None None)))))))
     = FulfilledWith (JObj [("id", JNum 2); ("result", JObj [])]).
Proof.
  assert (JSON_parse Sample.node result_text
          = Some (JObj [("id", JNum 1); ("result", JObj [])])) as Hp1
    by (vm_compute; reflexivity).
  assert (JSON_parse Sample.node second_result_text
          = Some (JObj [("id", JNum 2); ("result", JObj [])])) as Hp2
    by (vm_compute; reflexivity).
  assert (0 ≠ 1) as Hne by discriminate.
  pose proof (out_of_order_responses Sample.node literal_url None None two_waiting
                0 1 first_waiting second_waiting result_text second_result_text
                (JObj [("id", JNum 1); ("result", JObj [])])
                (JObj [("id", JNum 2); ("result", JObj [])])
                eq_refl eq_refl eq_refl eq_refl Hne Hp1 eq_refl Hp2 eq_refl) as H.
  cbv zeta in H. destruct H as (H1 & H2 & _).
  unfold send_promise. rewrite H1, H2. split; reflexivity.
Defined.

(** X12 at an error response to the first of two waiting commands. *)
Lemma error_response_example :
  send_promise 0
    (snd (handleResponse Sample.node error_text
            (snd (run Sample.node two_waiting (initial literal_url None None)))))
  = RejectedWith
      (CommandFailedError "browsingContext.create" (JStr "no such frame") (JStr "gone")
         (Some ["    at run@a.js:1"])).
Proof.
  assert (JSON_parse Sample.node error_text = Some error_payload) as Hp
    by (vm_compute; reflexivity).
  exact (send_settles_with_response Sample.node literal_url None None two_waiting
           0 first_waiting error_text error_payload eq_refl eq_refl Hp eq_refl).
Defined.

(** X13 at a result whose [data] is the base64 text [aGk=]. *)
Lemma screenshot_example :
  log (snd (handleResponse Sample.node screenshot_text
              (snd (run Sample.node two_waiting (initial literal_url None None)))))
  = log (snd (run Sample.node two_waiting (initial literal_url None None)))
    ++ [LogBidiResult (Stringified (JObj [("data", JStr "Base64 string [4 chars]")]))]
  /\ send_promise 0
       (snd (handleResponse Sample.node screenshot_text
               (snd (run Sample.node two_waiting (initial literal_url None None)))))
     = FulfilledWith (JObj [("id", JNum 1); ("result", JObj [("data", JStr "aGk=")])]).
Proof.
  assert (JSON_parse Sample.node screenshot_text
          = Some (JObj [("id", JNum 1); ("result", JObj [("data", JStr "aGk=")])])) as Hp
    by (vm_compute; reflexivity).
  pose proof (base64_result_summarized_in_log_only Sample.node literal_url None None
                two_waiting 0 first_waiting screenshot_text
                (JObj [("id", JNum 1); ("result", JObj [("data", JStr "aGk=")])])
                [("data", JStr "aGk=")] "aGk="
                eq_refl eq_refl Hp eq_refl eq_refl eq_refl eq_refl) as H.
  cbv zeta in H. destruct H as (H1 & _ & _ & H4 & _).
  split; [rewrite H1; vm_compute; reflexivity|].
  unfold send_promise. rewrite H4. reflexivity.
Defined.

(** X15 at a stack trace of two frames with an empty line between them. *)
Lemma driver_stack_example :
  driverStack_of (String.concat (String newline EmptyString)
                    ["run@a.js:1"; EmptyString; "go@b.js:2"])
  = ["    at run@a.js:1"; "    at go@b.js:2"].
Proof.
  apply (driverStack_of_lines "run@a.js:1" [EmptyString; "go@b.js:2"]).
  repeat constructor; discriminate.
Defined.

(** X18 at the first command of the connected session, and at a command
    that cannot be rendered. *)
Lemma first_frame_example :
  fst (sendAsync Sample.node create connected) = Ret 1%Z
  /\ map sent (sockets (snd (sendAsync Sample.node create connected)))
     = [[{| frame_id := 1; frame_method := "browsingContext.create";
            frame_params := JObj [] |}]]
  /\ log (snd (sendAsync Sample.node create connected))
     = log connected ++ [LogBidiCommand ("browsingContext.create", Some "{}")]
  /\ _pendingCommands (core (snd (sendAsync Sample.node create connected))) !! 1%Z = None
  /\ _pendingCommands (core (snd (send Sample.node create connected))) !! 1%Z = Some 0
  /\ sends (snd (send Sample.node create connected)) = [first_waiting]
  /\ sendAsync Sample.node bad_call connected = (Throw TypeError, connected)
  /\ send Sample.node bad_call connected = (Throw TypeError, connected).
Proof.
  pose proof (sendAsync_writes_one_frame Sample.node literal_url None None
                [EvConnect; EvOpen 0] create 0) as Hgood.
  pose proof (sendAsync_writes_one_frame Sample.node literal_url None None
                [EvConnect; EvOpen 0] bad_call 0) as Hbad.
  cbv zeta in Hgood, Hbad.
  destruct (Hgood ltac:(vm_compute; reflexivity) ltac:(vm_compute; reflexivity))
    as [_ Hg].
  destruct (Hbad ltac:(vm_compute; reflexivity) ltac:(vm_compute; reflexivity))
    as [Hb _].
  destruct (Hg ("browsingContext.create", Some "{}") ltac:(vm_compute; reflexivity))
    as (H1 & H2 & _ & H4 & H5 & _ & _ & _ & H9 & H10).
  destruct (Hb TypeError ltac:(vm_compute; reflexivity)) as [H11 H12].
  split; [exact H1|]. split; [|split; [exact H4|split; [exact H5|split; [exact H9|
    split; [exact H10|split; [exact H11|exact H12]]]]]].
  change (sockets (snd (sendAsync Sample.node create connected)))
    with (sockets (snd (sendAsync Sample.node create
                          (snd (run Sample.node [EvConnect; EvOpen 0]
                                  (initial literal_url None None)))))).
  rewrite H2. vm_compute. reflexivity.
Defined.

(** X20 at a call of the function [getTitle]. *)
Lemma named_function_example :
  parseBidiCommand SampleText.renderer
    {| method := "script.callFunction"; params := JObj wrapped_call |}
  = Ret ("script.callFunction",
         JSON_stringify SampleText.renderer
           (JObj [("functionDeclaration", JStr "<Function[150 bytes] getTitle>");
                  ("awaitPromise", JBool true)])).
Proof.
  apply (function_name_logged SampleText.renderer wrapped_call
           "function anonymous(...args) { return (" "getTitle"
           ") { return document.title }" ").apply(this, args) }").
  - reflexivity.
  - apply index_nowhere_before. reflexivity.
  - apply index_nowhere_before. reflexivity.
  - reflexivity.
Defined.

(** X21 at [browsingContext.create]. *)
Lemma typed_command_example :
  exists text,
    parseBidiCommand SampleText.renderer create = Ret (method create, text)
    /\ (method create <> "script.addPreloadScript" ->
        method create <> "script.callFunction" ->
        text = JSON_stringify SampleText.renderer (params create)).
Proof. apply (parseBidiCommand_returns SampleText.renderer create). reflexivity. Defined.

(** X22 at the first of three commands, answered, and answered again after
    a reconnect. *)
Lemma repeated_response_example :
  send_promise 0
    (snd (run Sample.node
            [EvMessage 0 result_text; EvReconnect literal_url None; EvOpen 1;
             EvMessage 1 result_text; EvElapse 60000; EvTimer 0]
            (snd (run Sample.node three_sends (initial literal_url None None)))))
  = FulfilledWith (JObj [("id", JNum 1); ("result", JObj [])])
  /\ _pendingCommands
       (core (snd (run Sample.node
                     [EvMessage 0 result_text; EvReconnect literal_url None; EvOpen 1;
                      EvMessage 1 result_text; EvElapse 60000; EvTimer 0]
                     (snd (run Sample.node three_sends (initial literal_url None None))))))
     !! 1%Z = None.
Proof.
  pose proof (settled_send_is_final Sample.node literal_url None None three_sends
                [EvMessage 0 result_text; EvReconnect literal_url None; EvOpen 1;
                 EvMessage 1 result_text; EvElapse 60000; EvTimer 0]
                0
                {| sc_id := 1; sc_command := create; sc_deadline := 60000;
                   sc_timer := Cleared;
                   sc_promise := Resolved (JObj [("id", JNum 1); ("result", JObj [])]) |})
    as H.
  cbv zeta in H.
  destruct (H ltac:(vm_compute; reflexivity) ltac:(discriminate)) as (_ & H2 & H3).
  split; [|exact H3]. rewrite H2. vm_compute. reflexivity.
Defined.

(** X23 at the connected session and the text [nowhere]. *)
Lemma reconnect_invalid_url_example :
  connect_promise 1 (snd (reconnect Sample.node "nowhere" None connected))
  = RejectedWith (InvalidURL "nowhere")
  /\ isConnected (snd (reconnect Sample.node "nowhere" None connected)) = false
  /\ socket (snd (reconnect Sample.node "nowhere" None connected)) = None
  /\ waitForConnected (snd (reconnect Sample.node "nowhere" None connected))
     = FulfilledWith true
  /\ map close_calls (sockets (snd (reconnect Sample.node "nowhere" None connected))) = [1].
Proof.
  assert (env_truthy (WDIO_UNIT_TESTS connected) = false) as He
    by (vm_compute; reflexivity).
  assert (_isConnected (core connected) = true) as Hc by (vm_compute; reflexivity).
  assert (_ws (core connected) = Some 0) as Hws by (vm_compute; reflexivity).
  assert (sockets connected !! 0 = Some open_socket) as Hs by (vm_compute; reflexivity).
  assert (URL_hostname Sample.node "nowhere" = None) as Hh by (vm_compute; reflexivity).
  pose proof (reconnect_invalid_url Sample.node "nowhere" None connected 0 open_socket
                He Hc Hws Hs Hh) as H.
  cbv zeta in H. destruct H as (H1 & H2 & _ & H4 & H5 & _ & H7 & _).
  split; [exact H1|]. split; [exact H4|]. split; [exact H5|].
  split; [rewrite H7; vm_compute; reflexivity|].
  rewrite H2. vm_compute. reflexivity.
Defined.

(** X24 at the active socket of a session that connected three times and
    reconnected. *)
Lemma message_handled_once_example :
  socket (snd (run Sample.node reconnected (initial literal_url None None))) = Some 3
  /\ on_message Sample.node 3 stale_text
       (snd (run Sample.node reconnected (initial literal_url None None)))
     = snd (handleResponse Sample.node stale_text
              (snd (run Sample.node reconnected (initial literal_url None None)))).
Proof.
  assert (socket (snd (run Sample.node reconnected (initial literal_url None None)))
          = Some 3) as Hws by (vm_compute; reflexivity).
  split; [exact Hws|].
  pose proof (message_handled_once Sample.node literal_url None None reconnected 3) as H.
  cbv zeta in H.
  edestruct (H _ stale_text ltac:(vm_compute; reflexivity)) as (_ & _ & H3).
  exact (H3 Hws).
Defined.

(** X25 at the three candidates of [domain_url]: the first two fail, the
    third opens. *)
Lemma last_candidate_opens_example :
  waitForConnected
    (on_open 2
       (foldl (fun w' e => on_error (fst e) (snd e) w')
              (snd (connect_resume three_candidates (initial domain_url None None)))
              [(1, "ECONNREFUSED"); (0, "ENOTFOUND")]))
  = FulfilledWith true
  /\ log (on_open 2
            (foldl (fun w' e => on_error (fst e) (snd e) w')
                   (snd (connect_resume three_candidates (initial domain_url None None)))
                   [(1, "ECONNREFUSED"); (0, "ENOTFOUND")]))
     = [LogConnected "ws://10.0.0.2:9222/session"].
Proof.
  assert (NoDup (map fst [(1, "ECONNREFUSED"); (0, "ENOTFOUND")])) as Hnd.
  { apply (bool_decide_unpack _). vm_compute. exact I. }
  assert (forall sid, sid ∈ map fst [(1, "ECONNREFUSED"); (0, "ENOTFOUND")] ->
                      length (sockets (initial domain_url None None)) <= sid
                      < length (sockets (initial domain_url None None))
                        + length three_candidates
                      /\ sid ≠ length (sockets (initial domain_url None None)) + 2)
    as Hin.
  { intros sid Hsid. cbn in *.
    apply elem_of_cons in Hsid as [->|Hsid]; [lia|].
    apply elem_of_cons in Hsid as [->|Hsid]; [lia|].
    by apply elem_of_nil in Hsid. }
  pose proof (open_after_errors_wins three_candidates (initial domain_url None None)
                [(1, "ECONNREFUSED"); (0, "ENOTFOUND")] 2
                "ws://10.0.0.2:9222/session" eq_refl eq_refl Hnd Hin) as H.
  cbv zeta in H.
  destruct H as (_ & _ & _ & _ & H5 & H6 & _).
  split; [exact H5|exact H6].
Defined.
